(** * Spectral-index engine of satellite-explorer: [src/utils/indices.py]

    A shallow embedding of the band-role guesser ([guess_band_types]), the
    availability resolver ([get_available_indices]) and the index evaluator
    ([calculate_index]), with the properties of the specification stated
    and proved (or refuted) over it.

    Conventions of the embedding.
    - Python [str] is [string]; band names are taken to be ASCII, so that
      [str.lower] only moves [A-Z] and the regular-expression classes
      [\w] and [.] are the ASCII ones.
    - Python [int] is [Z]; a [dict] with [str] keys that is only looked up
      is a [gmap string _]; a [dict] that the code iterates over
      ([COMMON_INDICES], [patterns]) is an association list in insertion
      order; a [set] of ints is a [gset Z].
    - [numpy.float32] is [spec_float] with precision 24 and [emax] 128,
      a Python [float] is [spec_float] with precision 53 and [emax] 1024
      (the executable IEEE-754 specification of the standard library).
    - A raised exception is the [inr] of a sum. *)

From Stdlib Require Import ZArith QArith String Ascii List Bool Lia.
From Stdlib Require Import Floats.SpecFloat DecimalString.
From Stdlib Require DecimalPos.
From stdpp Require Import gmap strings list fin_maps.

Local Open Scope string_scope.
Local Open Scope Z_scope.
Local Open Scope list_scope.

(* ===================================================================== *)
(** * The fragment of Python's [re] used by the pattern table            *)
(* ===================================================================== *)

Module Re.

(** What the patterns of [guess_band_types] are built from: ordinary
    characters, [.], the word boundary [\b], the optional forms [c?] and
    [.?], and one negative lookahead [(?!...)] over such atoms. *)
Inductive atom : Type :=
| Lit (c : ascii)
| Dot
| WordB
| OptLit (c : ascii)
| OptDot.

Inductive item : Type :=
| Atom (a : atom)
| NegLookahead (body : list atom).

Definition between (lo hi : N) (c : ascii) : bool :=
  (N.leb lo (N_of_ascii c) && N.leb (N_of_ascii c) hi)%bool.

(** [\w] on ASCII text: letters, digits and the underscore. *)
Definition is_word (c : ascii) : bool :=
  (between 48 57 c || between 65 90 c || between 97 122 c
   || N.eqb (N_of_ascii c) 95)%bool.

Definition word_at (o : option ascii) : bool :=
  match o with Some c => is_word c | None => false end.

Definition head (s : string) : option ascii :=
  match s with EmptyString => None | String c _ => Some c end.

(** [.] matches any character but the newline. *)
Definition is_newline (c : ascii) : bool := N.eqb (N_of_ascii c) 10.

(** [match_atom a k prev s]: atom [a] matches at the current position
    ([prev] is the character before it, [s] the text from it on) and the
    continuation [k] matches after it. *)
Definition match_atom (a : atom) (k : option ascii -> string -> bool)
    (prev : option ascii) (s : string) : bool :=
  match a with
  | Lit c =>
      match s with
      | String d s' => Ascii.eqb c d && k (Some d) s'
      | EmptyString => false
      end
  | Dot =>
      match s with
      | String d s' => negb (is_newline d) && k (Some d) s'
      | EmptyString => false
      end
  | WordB => xorb (word_at prev) (word_at (head s)) && k prev s
  | OptLit c =>
      match s with
      | String d s' => (Ascii.eqb c d && k (Some d) s') || k prev s
      | EmptyString => k prev s
      end
  | OptDot =>
      match s with
      | String d s' => (negb (is_newline d) && k (Some d) s') || k prev s
      | EmptyString => k prev s
      end
  end.

Fixpoint match_atoms (p : list atom) (prev : option ascii) (s : string) : bool :=
  match p with
  | [] => true
  | a :: p' => match_atom a (match_atoms p') prev s
  end.

Fixpoint match_items (p : list item) (prev : option ascii) (s : string) : bool :=
  match p with
  | [] => true
  | Atom a :: p' => match_atom a (match_items p') prev s
  | NegLookahead body :: p' =>
      negb (match_atoms body prev s) && match_items p' prev s
  end.

(** [re.search]: a match starting at some position of the text. *)
Fixpoint search_from (p : list item) (prev : option ascii) (s : string) : bool :=
  match_items p prev s
  || match s with
     | EmptyString => false
     | String c s' => search_from p (Some c) s'
     end.

(** ** Reading a pattern *)

Definition is_meta (c : ascii) : bool :=
  existsb (Ascii.eqb c)
    ["*"; "+"; "?"; "["; "]"; "{"; "}"; "|"; "^"; "$"; "("; ")"; "\"; "."]%char.

Definition emit (a : atom) (look : option (list atom)) (acc : list item)
    : option (list atom) * list item :=
  match look with
  | Some body => (Some (a :: body), acc)
  | None => (None, Atom a :: acc)
  end.

(** [look] is the (reversed) body of the lookahead being read, if any;
    [acc] the (reversed) items read so far.  A pattern outside the
    fragment is refused. *)
Fixpoint parse_from (p : string) (look : option (list atom)) (acc : list item)
    : option (list item) :=
  match p with
  | EmptyString =>
      match look with None => Some (rev acc) | Some _ => None end
  | String "\" (String "b" p') =>
      let '(look', acc') := emit WordB look acc in parse_from p' look' acc'
  | String "(" (String "?" (String "!" p')) =>
      match look with
      | None => parse_from p' (Some []) acc
      | Some _ => None
      end
  | String ")" p' =>
      match look with
      | Some body => parse_from p' None (NegLookahead (rev body) :: acc)
      | None => None
      end
  | String "." (String "?" p') =>
      let '(look', acc') := emit OptDot look acc in parse_from p' look' acc'
  | String "." p' =>
      let '(look', acc') := emit Dot look acc in parse_from p' look' acc'
  | String c (String "?" p') =>
      if is_meta c then None
      else let '(look', acc') := emit (OptLit c) look acc in parse_from p' look' acc'
  | String c p' =>
      if is_meta c then None
      else let '(look', acc') := emit (Lit c) look acc in parse_from p' look' acc'
  end.

Definition parse (p : string) : option (list item) := parse_from p None [].

Definition search (pattern text : string) : bool :=
  match parse pattern with
  | Some p => search_from p None text
  | None => false
  end.

End Re.

(** [str.lower] on ASCII text. *)
Definition lower_char (c : ascii) : ascii :=
  if Re.between 65 90 c then ascii_of_N (N_of_ascii c + 32) else c.

Fixpoint lower (s : string) : string :=
  match s with
  | EmptyString => EmptyString
  | String c s' => String (lower_char c) (lower s')
  end.

(* ===================================================================== *)
(** * Band-role guessing: [guess_band_types]                              *)
(* ===================================================================== *)

(** The pattern table, in the order in which the dictionary is written
    (and therefore iterated). *)
Definition patterns : list (string * list string) :=
  [ ("NIR",   ["\bb8a\b"; "\bb08a\b"; "nir.?narrow"; "nir.?broad"; "near.?infra";
               "\bnir\b"; "\bb8\b"; "\bb0?8\b"; "\bband.?8\b"; "\bb5\b";
               "\bb0?5\b"; "\bband.?5\b"]);
    ("SWIR2", ["\bb12\b"; "\bb0?12\b"; "\bband.?12"; "\bswir.?2\b"; "\bswir.?2.2";
               "\bb7\b"; "\bb0?7\b"; "\bband.?7\b"]);
    ("SWIR1", ["\bb11\b"; "\bb0?11\b"; "\bband.?11"; "\bswir.?1\b"; "\bswir.?1.6";
               "\bswir\b(?!.?2)"; "\bb6\b"; "\bb0?6\b"; "\bband.?6\b"]);
    ("Red",   ["\bred\b"; "\bb4\b"; "\bb0?4\b"; "\bband.?4"]);
    ("Green", ["\bgreen\b"; "\bb3\b"; "\bb0?3\b"; "\bband.?3"]);
    ("Blue",  ["\bblue\b"; "\bb2\b"; "\bb0?2\b"; "\bband.?2"; "coastal"; "aerosol";
               "\bb1\b"; "\bb0?1\b"; "\bband.?1"]) ].

(** The two local variables that the loops update: [band_mapping] and
    [assigned_indices]. *)
Record guess_state : Type := GuessState {
  band_mapping : gmap string Z;
  assigned_indices : gset Z
}.

(** [for pattern in type_patterns]: the first pattern found in the name
    records the position and leaves the loop. *)
Fixpoint try_patterns (band_type : string) (i : Z) (name_lower : string)
    (type_patterns : list string) (st : guess_state) : guess_state :=
  match type_patterns with
  | [] => st
  | pattern :: rest =>
      if Re.search pattern name_lower
      then GuessState (<[band_type := i]> (band_mapping st))
                      ({[ i ]} ∪ assigned_indices st)
      else try_patterns band_type i name_lower rest st
  end.

(** [for i, name in enumerate(band_names)], from position [i] on. *)
Fixpoint scan_names (band_type : string) (type_patterns : list string)
    (i : Z) (names : list string) (st : guess_state) : guess_state :=
  match names with
  | [] => st
  | name :: rest =>
      if decide (i ∈ assigned_indices st)
      then scan_names band_type type_patterns (i + 1) rest st
      else
        let st' := try_patterns band_type i (lower name) type_patterns st in
        if decide (band_type ∈ dom (band_mapping st'))
        then st'
        else scan_names band_type type_patterns (i + 1) rest st'
  end.

(** [for band_type, type_patterns in patterns.items()]. *)
Fixpoint scan_types (table : list (string * list string))
    (band_names : list string) (st : guess_state) : guess_state :=
  match table with
  | [] => st
  | (band_type, type_patterns) :: rest =>
      if decide (band_type ∈ dom (band_mapping st))
      then scan_types rest band_names st
      else scan_types rest band_names
             (scan_names band_type type_patterns 0 band_names st)
  end.

(** One line of the positional fallback:
    [if role not in band_mapping and p not in assigned_indices:
       band_mapping[role] = p]. *)
Definition fallback_one (role : string) (p : Z) (st : guess_state) : guess_state :=
  if decide ((role ∉ dom (band_mapping st)) ∧ (p ∉ assigned_indices st))
  then GuessState (<[role := p]> (band_mapping st)) (assigned_indices st)
  else st.

Definition fallback (num_bands : Z) (st : guess_state) : guess_state :=
  if decide (num_bands >= 4) then
    fallback_one "NIR" 4
      (fallback_one "Red" 3
        (fallback_one "Green" 2
          (fallback_one "Blue" 1 st)))
  else if decide (num_bands = 3) then
    fallback_one "Blue" 2
      (fallback_one "Green" 1
        (fallback_one "Red" 0 st))
  else st.

(** The mapping as it stands before the final check on ["SWIR"]. *)
Definition guess_before_rename (band_names : list string) : gmap string Z :=
  band_mapping
    (fallback (Z.of_nat (length band_names))
       (scan_types patterns band_names (GuessState ∅ ∅))).

(** [if "SWIR" in band_mapping and "SWIR1" not in band_mapping]. *)
Definition rename_fires (m : gmap string Z) : bool :=
  bool_decide (("SWIR" ∈ dom m) ∧ ("SWIR1" ∉ dom m)).

(** [band_mapping["SWIR1"] = band_mapping.pop("SWIR")]. *)
Definition rename_swir (m : gmap string Z) : gmap string Z :=
  match m !! "SWIR" with
  | Some p => <["SWIR1" := p]> (delete "SWIR" m)
  | None => m
  end.

Definition guess_band_types (band_names : list string) : gmap string Z :=
  match band_names with
  | [] => ∅
  | _ =>
      let m := guess_before_rename band_names in
      if rename_fires m then rename_swir m else m
  end.


(* ===================================================================== *)
(** * Numbers and arrays                                                  *)
(* ===================================================================== *)

(** ** Floating point *)

Abbreviation py_float := spec_float (only parsing).   (* binary64 *)
Abbreviation float32 := spec_float (only parsing).    (* binary32 *)

Module F64.
Definition prec : Z := 53.
Definition emax : Z := 1024.
Definition of_Z (z : Z) : py_float := binary_normalize prec emax z 0 false.
(** A decimal literal of the source: the double nearest to [q]. *)
Definition of_Q (q : Q) : py_float :=
  SFdiv prec emax (of_Z (Qnum q)) (of_Z (Zpos (Qden q))).
Definition add : py_float -> py_float -> py_float := SFadd prec emax.
Definition sub : py_float -> py_float -> py_float := SFsub prec emax.
Definition mul : py_float -> py_float -> py_float := SFmul prec emax.
End F64.

Module F32.
Definition prec : Z := 24.
Definition emax : Z := 128.
Definition nan : float32 := S754_nan.
Definition zero : float32 := S754_zero false.
Definition add : float32 -> float32 -> float32 := SFadd prec emax.
Definition sub : float32 -> float32 -> float32 := SFsub prec emax.
Definition mul : float32 -> float32 -> float32 := SFmul prec emax.
Definition div : float32 -> float32 -> float32 := SFdiv prec emax.
Definition eqb : float32 -> float32 -> bool := SFeqb.
(** Rounding a Python float to single precision. *)
Definition of_float (x : py_float) : float32 :=
  match x with
  | S754_finite s m e => binary_round prec emax s m e
  | _ => x
  end.
Definition of_Q (q : Q) : float32 := of_float (F64.of_Q q).
Definition is_nan (x : float32) : bool :=
  match x with S754_nan => true | _ => false end.
Definition is_zero (x : float32) : bool :=
  match x with S754_zero _ => true | _ => false end.
Definition is_inf (x : float32) : bool :=
  match x with S754_infinity _ => true | _ => false end.
End F32.

(** The rational value of a finite float, in lowest terms. *)
Definition float_value (x : spec_float) : option Q :=
  match x with
  | S754_zero _ => Some 0%Q
  | S754_finite s m e =>
      let v := match e with
               | Zneg k => Qmake (Zpos m) (2 ^ k)%positive
               | _ => inject_Z (Zpos m * 2 ^ e)
               end in
      Some (Qred (if s then Qopp v else v))
  | _ => None
  end.

(** ** Exceptions *)

Inductive exn : Type :=
| ValueError (msg : string)
| TypeError (msg : string)
| KeyError (key : string).

(** The class of an exception, which is what an [except] clause and a
    caller tell apart. *)
Inductive exn_class : Type :=
| ValueErrorClass
| TypeErrorClass
| KeyErrorClass.

Definition class_of (e : exn) : exn_class :=
  match e with
  | ValueError _ => ValueErrorClass
  | TypeError _ => TypeErrorClass
  | KeyError _ => KeyErrorClass
  end.

Definition result (A : Type) : Type := (A + exn)%type.

Definition ret {A} (a : A) : result A := inl a.
Definition raise {A} (e : exn) : result A := inr e.
Definition bind {A B} (r : result A) (k : A -> result B) : result B :=
  match r with inl a => k a | inr e => inr e end.

Notation "'let*' x ':=' c 'in' k" := (bind c (fun x => k))
  (at level 10, x pattern, c at level 100, k at level 200, only parsing).

(** ** Two-dimensional arrays

    An array is its shape and its cells; [cell a i j] is read only for
    [i < nrows a] and [j < ncols a]. *)

Record array (A : Type) : Type := Array {
  nrows : nat;
  ncols : nat;
  cell : nat -> nat -> A
}.
Arguments Array {A}.
Arguments nrows {A}.
Arguments ncols {A}.
Arguments cell {A}.

Abbreviation ndarray := (array float32) (only parsing).

Definition shape {A} (a : array A) : nat * nat := (nrows a, ncols a).

Definition of_rows (rows : list (list float32)) : ndarray :=
  Array (length rows) (length (List.hd [] rows))
        (fun i j => List.nth j (List.nth i rows []) F32.nan).

Definition to_rows {A} (a : array A) : list (list A) :=
  List.map (fun i => List.map (fun j => cell a i j) (seq 0 (ncols a)))
           (seq 0 (nrows a)).

(** NumPy's broadcasting of one dimension. *)
Definition broadcast_dim (n m : nat) : option nat :=
  if Nat.eqb n m then Some n
  else if Nat.eqb n 1 then Some m
  else if Nat.eqb m 1 then Some n
  else None.

Definition broadcast_shapes (s t : nat * nat) : option (nat * nat) :=
  match broadcast_dim (fst s) (fst t), broadcast_dim (snd s) (snd t) with
  | Some r, Some c => Some (r, c)
  | _, _ => None
  end.

(** The cell of [a] seen at [(i, j)] of a broadcast shape. *)
Definition bcell {A} (a : array A) (i j : nat) : A :=
  cell a (if Nat.eqb (nrows a) 1 then 0%nat else i)
         (if Nat.eqb (ncols a) 1 then 0%nat else j).

Definition broadcast_error : exn :=
  ValueError "operands could not be broadcast together".

Definition zip_with {A B C} (f : A -> B -> C) (a : array A) (b : array B)
    : result (array C) :=
  match broadcast_shapes (shape a) (shape b) with
  | Some (r, c) => ret (Array r c (fun i j => f (bcell a i j) (bcell b i j)))
  | None => raise broadcast_error
  end.

Definition map_cells {A B} (f : A -> B) (a : array A) : array B :=
  Array (nrows a) (ncols a) (fun i j => f (cell a i j)).

(** [np.full_like(a, x, dtype=np.float32)]. *)
Definition full_like (a : ndarray) (x : float32) : ndarray :=
  Array (nrows a) (ncols a) (fun _ _ => x).

(** [a != 0], elementwise. *)
Definition not_equal_zero (a : ndarray) : array bool :=
  map_cells (fun x => negb (F32.eqb x F32.zero)) a.

(** [np.divide(num, den, out=out, where=mask)]: the quotient is written
    where the mask holds, the other cells of [out] are left as they are;
    the shape of [out] must be the broadcast shape of the operands. *)
Definition np_divide (num den : ndarray) (out : ndarray) (mask : array bool)
    : result ndarray :=
  match broadcast_shapes (shape num) (shape den) with
  | None => raise broadcast_error
  | Some s =>
      match broadcast_shapes s (shape mask) with
      | None => raise broadcast_error
      | Some s' =>
          if decide (shape out = s') then
            ret (Array (nrows out) (ncols out)
                   (fun i j => if bcell mask i j
                               then F32.div (bcell num i j) (bcell den i j)
                               else cell out i j))
          else raise (ValueError "non-broadcastable output operand")
      end
  end.

(* ===================================================================== *)
(** * The registry: [COMMON_INDICES]                                      *)
(* ===================================================================== *)

(** One entry of the registry; the field [info_k] is the key ["k"] of the
    source's dictionary, and [info_params] is [None] where the entry has
    no ["params"]. *)
Record index_info : Type := IndexInfo {
  info_name : string;
  info_formula : string;
  info_bands : list string;
  info_params : option (list (string * py_float));
  info_description : string;
  info_colormap : string;
  info_range : py_float * py_float
}.

Definition lit : Q -> py_float := F64.of_Q.

Definition COMMON_INDICES : list (string * index_info) :=
  [ ("NDVI", IndexInfo
       "Normalized Difference Vegetation Index"
       "(NIR - Red) / (NIR + Red)"
       ["NIR"; "Red"]
       None
       "Measures vegetation health and density. Values range from -1 to 1, with higher values indicating denser vegetation."
       "RdYlGn"
       (lit (-0.2), lit 1.0));
    ("NDWI", IndexInfo
       "Normalized Difference Water Index (McFeeters)"
       "(Green - NIR) / (Green + NIR)"
       ["Green"; "NIR"]
       None
       "Delineates open water features. Positive values typically represent water bodies."
       "Blues"
       (lit (-0.5), lit 1.0));
    ("MNDWI", IndexInfo
       "Modified NDWI (Xu)"
       "(Green - SWIR1) / (Green + SWIR1)"
       ["Green"; "SWIR1"]
       None
       "Enhanced water detection, suppresses noise from built-up/soil areas."
       "Blues"
       (lit (-0.5), lit 1.0));
    ("NDBI", IndexInfo
       "Normalized Difference Built-up Index"
       "(SWIR1 - NIR) / (SWIR1 + NIR)"
       ["SWIR1"; "NIR"]
       None
       "Highlights urban areas and built-up land. Higher values indicate built-up areas."
       "YlOrBr"
       (lit (-0.5), lit 0.5));
    ("SAVI", IndexInfo
       "Soil Adjusted Vegetation Index"
       "(NIR - Red) * (1 + L) / (NIR + Red + L)"
       ["NIR"; "Red"]
       (Some [("L", lit 0.5)])
       "Minimizes soil brightness influences (L=0.5 typical). Less sensitive than NDVI to soil background."
       "YlGn"
       (lit (-0.2), lit 1.0));
    ("EVI", IndexInfo
       "Enhanced Vegetation Index"
       "G * (NIR - Red) / (NIR + C1 * Red - C2 * Blue + L)"
       ["NIR"; "Red"; "Blue"]
       (Some [("G", lit 2.5); ("C1", lit 6.0); ("C2", lit 7.5); ("L", lit 1.0)])
       "Improved sensitivity in high biomass areas, reduced atmospheric influence compared to NDVI."
       "RdYlGn"
       (lit (-0.2), lit 1.0));
    ("NDSI", IndexInfo
       "Normalized Difference Snow Index"
       "(Green - SWIR1) / (Green + SWIR1)"
       ["Green"; "SWIR1"]
       None
       "Used to detect snow and ice. Positive values typically represent snow cover. Separates snow from clouds."
       "Blues"
       (lit (-0.5), lit 1.0));
    ("NDMI", IndexInfo
       "Normalized Difference Moisture Index (NDWI-Gao)"
       "(NIR - SWIR1) / (NIR + SWIR1)"
       ["NIR"; "SWIR1"]
       None
       "Sensitive to vegetation water content and soil moisture. Higher values indicate higher moisture."
       "YlGnBu"
       (lit (-0.5), lit 1.0));
    ("BSI", IndexInfo
       "Bare Soil Index"
       "((SWIR1 + Red) - (NIR + Blue)) / ((SWIR1 + Red) + (NIR + Blue))"
       ["SWIR1"; "Red"; "NIR"; "Blue"]
       None
       "Detects bare soil areas. Higher values indicate more exposed soil. Useful for soil mapping."
       "YlOrBr"
       (lit (-0.5), lit 0.5));
    ("NBR", IndexInfo
       "Normalized Burn Ratio"
       "(NIR - SWIR2) / (NIR + SWIR2)"
       ["NIR"; "SWIR2"]
       None
       "Used for burn severity assessment. Compare pre/post fire. High values = healthy veg, low = burned."
       "RdYlGn"
       (lit (-1.0), lit 1.0)) ].

(** Lookup in a dictionary kept in insertion order. *)
Fixpoint assoc {V} (k : string) (d : list (string * V)) : option V :=
  match d with
  | [] => None
  | (k', v) :: d' => if String.eqb k k' then Some v else assoc k d'
  end.

(** [d.get(k, default)]. *)
Definition get_default {V} (d : list (string * V)) (k : string) (default : V) : V :=
  match assoc k d with Some v => v | None => default end.

(* ===================================================================== *)
(** * Availability: [get_available_indices]                               *)
(* ===================================================================== *)

(** [set(index_info["bands"]).issubset(set(band_mapping.keys()))]. *)
Definition issubset (required_bands : list string) (mapped_band_types : gset string) : bool :=
  forallb (fun b => bool_decide (b ∈ mapped_band_types)) required_bands.

Fixpoint available_loop (items : list (string * index_info))
    (mapped_band_types : gset string) (available_indices : list string) : list string :=
  match items with
  | [] => available_indices
  | (index_name, info) :: rest =>
      if issubset (info_bands info) mapped_band_types
      then available_loop rest mapped_band_types (available_indices ++ [index_name])
      else available_loop rest mapped_band_types available_indices
  end.

(** The argument is [None] or a dictionary; both [None] and the empty
    dictionary are falsy. *)
Definition get_available_indices (band_mapping : option (gmap string Z)) : list string :=
  match band_mapping with
  | None => []
  | Some m =>
      if decide (m = ∅) then []
      else available_loop COMMON_INDICES (dom m) []
  end.

(* ===================================================================== *)
(** * Evaluation: [calculate_index]                                       *)
(* ===================================================================== *)

Definition string_of_Z (z : Z) : string := NilZero.string_of_int (Z.to_int z).

(** ** The arithmetic of the formulas

    The right-hand sides of [num = ...] and [den = ...] are terms over the
    selected bands [B[...]], so that the same formula can be run over
    array values (below) and over array objects in a store ([Heap]).
    Scalars are Python floats; NumPy computes an array-with-scalar
    operation in the precision of the array. *)
Inductive expr : Type :=
| Band (band_type : string)                (* B["..."] *)
| Add (a b : expr)                         (* array + array *)
| Sub (a b : expr)                         (* array - array *)
| AddScalar (a : expr) (x : py_float)      (* array + scalar *)
| MulScalar (a : expr) (x : py_float)      (* array * scalar *)
| ScalarMul (x : py_float) (a : expr).     (* scalar * array *)

Declare Scope expr_scope.
Delimit Scope expr_scope with expr.
Bind Scope expr_scope with expr.
Notation "B[ r ]" := (Band r) (at level 0, r at level 200) : expr_scope.
Notation "a + b" := (Add a b) : expr_scope.
Notation "a - b" := (Sub a b) : expr_scope.
Notation "a +! x" := (AddScalar a x) (at level 50, left associativity) : expr_scope.
Notation "a *! x" := (MulScalar a x) (at level 40, left associativity) : expr_scope.
Notation "x !* a" := (ScalarMul x a) (at level 40, left associativity) : expr_scope.

(** Lines 260-304: the numerator and the denominator of each index.
    [has_band] is [band_type in B]. *)
Definition num_den (index_name : string) (params : list (string * py_float))
    (has_band : string -> bool) : result (expr * expr) :=
  if String.eqb index_name "NDVI" then
    ret (B["NIR"] - B["Red"], B["NIR"] + B["Red"])%expr
  else if String.eqb index_name "NDWI" then
    ret (B["Green"] - B["NIR"], B["Green"] + B["NIR"])%expr
  else if String.eqb index_name "MNDWI" then
    ret (B["Green"] - B["SWIR1"], B["Green"] + B["SWIR1"])%expr
  else if String.eqb index_name "NDBI" then
    ret (B["SWIR1"] - B["NIR"], B["SWIR1"] + B["NIR"])%expr
  else if String.eqb index_name "SAVI" then
    let L := get_default params "L" (lit 0.5) in
    ret ((B["NIR"] - B["Red"]) *! (F64.add (F64.of_Z 1) L),
         B["NIR"] + B["Red"] +! L)%expr
  else if String.eqb index_name "EVI" then
    let G := get_default params "G" (lit 2.5) in
    let C1 := get_default params "C1" (lit 6.0) in
    let C2 := get_default params "C2" (lit 7.5) in
    let L := get_default params "L" (lit 1.0) in
    ret (G !* (B["NIR"] - B["Red"]),
         B["NIR"] + C1 !* B["Red"] - C2 !* B["Blue"] +! L)%expr
  else if String.eqb index_name "NDSI" then
    ret (B["Green"] - B["SWIR1"], B["Green"] + B["SWIR1"])%expr
  else if String.eqb index_name "NDMI" then
    ret (B["NIR"] - B["SWIR1"], B["NIR"] + B["SWIR1"])%expr
  else if String.eqb index_name "BSI" then
    ret ((B["SWIR1"] + B["Red"]) - (B["NIR"] + B["Blue"]),
         (B["SWIR1"] + B["Red"]) + (B["NIR"] + B["Blue"]))%expr
  else if String.eqb index_name "NBR" then
    if negb (has_band "SWIR2")
    then raise (ValueError "NBR calculation requires 'SWIR2' band mapping.")
    else ret (B["NIR"] - B["SWIR2"], B["NIR"] + B["SWIR2"])%expr
  else
    raise (ValueError ("Index calculation logic not implemented for: " +:+ index_name)).

(** Evaluation over array values. *)
Fixpoint eval (B : gmap string ndarray) (e : expr) : result ndarray :=
  match e with
  | Band band_type =>
      match B !! band_type with
      | Some a => ret a
      | None => raise (KeyError band_type)
      end
  | Add a b =>
      let* x := eval B a in let* y := eval B b in zip_with F32.add x y
  | Sub a b =>
      let* x := eval B a in let* y := eval B b in zip_with F32.sub x y
  | AddScalar a s =>
      let* x := eval B a in ret (map_cells (fun v => F32.add v (F32.of_float s)) x)
  | MulScalar a s =>
      let* x := eval B a in ret (map_cells (fun v => F32.mul v (F32.of_float s)) x)
  | ScalarMul s a =>
      let* x := eval B a in ret (map_cells (fun v => F32.mul (F32.of_float s) v) x)
  end.

(** ** Selecting the band arrays (lines 236-252)

    The loop over [required_bands] that checks each mapped position and
    fills [B]; [A] is what the list [bands] holds.  [astype(np.float32,
    copy=False)] returns a [float32] array itself.  The two [except]
    clauses turn a [KeyError] and an [IndexError] into a [ValueError]. *)
Fixpoint select_bands {A} (bands : list A) (band_mapping : gmap string Z)
    (index_name : string) (required_bands : list string) (B : gmap string A)
    : result (gmap string A) :=
  match required_bands with
  | [] => ret B
  | band_type :: rest =>
      match band_mapping !! band_type with
      | None =>
          raise (ValueError ("Band type ''" +:+ band_type +:+ "'' required for "
                             +:+ index_name +:+ " not found in mapping keys."))
      | Some band_idx =>
          let num_bands_available := Z.of_nat (length bands) in
          if negb ((0 <=? band_idx)%Z && (band_idx <? num_bands_available)%Z)
          then raise (ValueError ("Mapped index " +:+ string_of_Z band_idx
                                  +:+ " for '" +:+ band_type
                                  +:+ "' is out of range (0-"
                                  +:+ string_of_Z (num_bands_available - 1) +:+ ")."))
          else
            match bands !! Z.to_nat band_idx with
            | Some b => select_bands bands band_mapping index_name rest
                          (<[band_type := b]> B)
            | None =>
                raise (ValueError ("Invalid band index found in mapping for "
                                   +:+ index_name
                                   +:+ ". Ensure mapping matches loaded bands."))
            end
      end
  end.

(** [[b for b in required_bands if b not in band_mapping]]. *)
Definition missing_bands (required_bands : list string) (band_mapping : gmap string Z)
    : list string :=
  List.filter (fun b => bool_decide (b ∉ dom band_mapping)) required_bands.

Definition index_result : Type := (ndarray * string * string * (py_float * py_float))%type.

(** [bands] is a list of arrays and [band_mapping] a dictionary by their
    types, so the two [isinstance] checks of lines 225-228 hold. *)
Definition calculate_index (bands : list ndarray) (band_mapping : gmap string Z)
    (index_name : string) : result index_result :=
  match assoc index_name COMMON_INDICES with
  | None => raise (ValueError ("Unknown index: '" +:+ index_name +:+ "'"))
  | Some info =>
      let required_bands := info_bands info in
      let params := default [] (info_params info) in
      let missing := missing_bands required_bands band_mapping in
      if negb (Nat.eqb (length missing) 0)
      then raise (ValueError ("Missing required band mapping(s) for " +:+ index_name
                              +:+ ": " +:+ String.concat ", " missing))
      else
        let* B := select_bands bands band_mapping index_name required_bands ∅ in
        let* (num_e, den_e) :=
          num_den index_name params (fun b => bool_decide (b ∈ dom B)) in
        let* num := eval B num_e in
        let* den := eval B den_e in
        let* index :=
          np_divide num den (full_like num F32.nan) (not_equal_zero den) in
        ret (index, info_description info, info_colormap info, info_range info)
  end.

(* ===================================================================== *)
(** * The same operations over an object store                            *)
(* ===================================================================== *)

(** Arrays and dictionaries are Python objects: a caller and a callee that
    hold the same reference see each other's writes.  [Heap] runs the three
    operations over a store of such objects, with references as addresses:
    [astype(np.float32, copy=False)] hands back the very array of the
    caller, every arithmetic operator makes a new array, and
    [np.divide(..., out=...)] writes into the array it is given. *)
Module Heap.

Definition addr : Type := nat.

Record store : Type := Store {
  arrays : list ndarray;
  dicts : list (gmap string Z)
}.

(** A computation reads and updates the store, and returns a value or
    raises. *)
Definition M (A : Type) : Type := store -> result A * store.

Definition mret {A} (a : A) : M A := fun st => (inl a, st).
Definition mraise {A} (e : exn) : M A := fun st => (inr e, st).
Definition mbind {A B} (c : M A) (k : A -> M B) : M B :=
  fun st => match c st with
            | (inl a, st') => k a st'
            | (inr e, st') => (inr e, st')
            end.
Definition lift {A} (r : result A) : M A := fun st => (r, st).

Notation "'do' x '<-' c ';' k" := (mbind c (fun x => k))
  (at level 10, x pattern, c at level 100, k at level 200, only parsing).

Definition empty_array : ndarray := Array 0 0 (fun _ _ => F32.nan).

Definition array_at (st : store) (p : addr) : ndarray :=
  List.nth p (arrays st) empty_array.
Definition dict_at (st : store) (p : addr) : gmap string Z :=
  List.nth p (dicts st) ∅.

Definition load (p : addr) : M ndarray := fun st => (inl (array_at st p), st).
Definition load_dict (p : addr) : M (gmap string Z) :=
  fun st => (inl (dict_at st p), st).
(** A new array object. *)
Definition alloc (a : ndarray) : M addr :=
  fun st => (inl (length (arrays st)), Store (arrays st ++ [a]) (dicts st)).
(** A new dictionary object. *)
Definition alloc_dict (m : gmap string Z) : M addr :=
  fun st => (inl (length (dicts st)), Store (arrays st) (dicts st ++ [m])).
(** Overwriting the cells of an existing array. *)
Definition write (p : addr) (a : ndarray) : M unit :=
  fun st => (inl tt, Store (<[p := a]> (arrays st)) (dicts st)).

(** An elementwise operator: reads its operands, makes a new array. *)
Definition binary (f : float32 -> float32 -> float32) (x y : addr) : M addr :=
  do a <- load x; do b <- load y; do r <- lift (zip_with f a b); alloc r.

Definition unary (f : float32 -> float32) (x : addr) : M addr :=
  do a <- load x; alloc (map_cells f a).

Fixpoint eval (B : gmap string addr) (e : expr) : M addr :=
  match e with
  | Band band_type =>
      match B !! band_type with
      | Some p => mret p
      | None => mraise (KeyError band_type)
      end
  | Add a b => do x <- eval B a; do y <- eval B b; binary F32.add x y
  | Sub a b => do x <- eval B a; do y <- eval B b; binary F32.sub x y
  | AddScalar a s =>
      do x <- eval B a; unary (fun v => F32.add v (F32.of_float s)) x
  | MulScalar a s =>
      do x <- eval B a; unary (fun v => F32.mul v (F32.of_float s)) x
  | ScalarMul s a =>
      do x <- eval B a; unary (fun v => F32.mul (F32.of_float s) v) x
  end.

(** [np.full_like(num, np.nan, dtype=np.float32)]: a new array. *)
Definition full_like (num : addr) (x : float32) : M addr :=
  do n <- load num; alloc (full_like n x).

(** [den != 0]: the mask is a temporary of the call. *)
Definition not_equal_zero (den : addr) : M (array bool) :=
  do d <- load den; mret (not_equal_zero d).

(** [np.divide(num, den, out=out, where=mask)] writes into [out] and
    returns it. *)
Definition np_divide (num den out : addr) (mask : array bool) : M addr :=
  do n <- load num;
  do d <- load den;
  do o <- load out;
  do r <- lift (np_divide n d o mask);
  do _ <- write out r;
  mret out.

Definition index_result : Type := (addr * string * string * (py_float * py_float))%type.

(** [bands] is the caller's list of array objects, [band_mapping] the
    caller's dictionary object. *)
Definition calculate_index (bands : list addr) (band_mapping : addr)
    (index_name : string) : M index_result :=
  match assoc index_name COMMON_INDICES with
  | None => mraise (ValueError ("Unknown index: '" +:+ index_name +:+ "'"))
  | Some info =>
      let required_bands := info_bands info in
      let params := default [] (info_params info) in
      do m <- load_dict band_mapping;
      let missing := missing_bands required_bands m in
      if negb (Nat.eqb (length missing) 0)
      then mraise (ValueError ("Missing required band mapping(s) for " +:+ index_name
                               +:+ ": " +:+ String.concat ", " missing))
      else
        do B <- lift (select_bands bands m index_name required_bands ∅);
        do (num_e, den_e) <-
          lift (num_den index_name params (fun b => bool_decide (b ∈ dom B)));
        do num <- eval B num_e;
        do den <- eval B den_e;
        do out <- full_like num F32.nan;
        do mask <- not_equal_zero den;
        do index <- np_divide num den out mask;
        mret (index, info_description info, info_colormap info, info_range info)
  end.

(** The resolver only reads the dictionary it is given. *)
Definition get_available_indices (band_mapping : option addr) : M (list string) :=
  match band_mapping with
  | None => mret (get_available_indices None)
  | Some p => do m <- load_dict p; mret (get_available_indices (Some m))
  end.

(** The guesser fills a dictionary of its own and returns it. *)
Definition guess_band_types (band_names : list string) : M addr :=
  alloc_dict (guess_band_types band_names).

End Heap.


(* ===================================================================== *)
(** * Characterisations used in the proofs                                *)
(* ===================================================================== *)

(** What the loop over [type_patterns] decides: does some pattern of the
    type occur in the name? *)
Definition matches_any (type_patterns : list string) (name_lower : string) : bool :=
  existsb (fun pattern => Re.search pattern name_lower) type_patterns.

(** What the loop over [enumerate(band_names)] finds: the first position,
    from [i] on, that is not assigned and whose name matches. *)
Fixpoint first_match (type_patterns : list string) (i : Z) (names : list string)
    (assigned : gset Z) : option Z :=
  match names with
  | [] => None
  | name :: rest =>
      if decide (i ∈ assigned) then first_match type_patterns (i + 1) rest assigned
      else if matches_any type_patterns (lower name) then Some i
      else first_match type_patterns (i + 1) rest assigned
  end.

(** No two keys of a mapping have the same value. *)
Definition injective (m : gmap string Z) : Prop :=
  ∀ r1 r2 p, m !! r1 = Some p → m !! r2 = Some p → r1 = r2.

(** The invariant of the pattern phase: the mapping is injective and
    [assigned_indices] is exactly the set of its values. *)
Definition scan_inv (st : guess_state) : Prop :=
  injective (band_mapping st)
  ∧ ∀ p, p ∈ assigned_indices st ↔ ∃ r, band_mapping st !! r = Some p.

(** During the fallback [assigned_indices] no longer follows the mapping;
    the values of the mapping stay within the assigned positions [A] and
    the fallback positions [P] tried so far. *)
Definition fallback_inv (A P : gset Z) (st : guess_state) : Prop :=
  assigned_indices st = A
  ∧ injective (band_mapping st)
  ∧ ∀ r p, band_mapping st !! r = Some p → p ∈ A ∨ p ∈ P.

(** The band types that a formula reads. *)
Fixpoint roles (e : expr) : list string :=
  match e with
  | Band band_type => [band_type]
  | Add a b | Sub a b => roles a ++ roles b
  | AddScalar a _ | MulScalar a _ | ScalarMul _ a => roles a
  end.

(** The condition of line 242 on one band type: it is mapped to a position
    of the list [bands]. *)
Definition in_range {A} (bands : list A) (band_mapping : gmap string Z)
    (band_type : string) : Prop :=
  ∃ band_idx, band_mapping !! band_type = Some band_idx
              ∧ 0 ≤ band_idx < Z.of_nat (length bands).

(** The three messages of the validation steps. *)
Definition unknown_index_error (index_name : string) : exn :=
  ValueError ("Unknown index: '" +:+ index_name +:+ "'").

Definition missing_band_error (index_name : string) (missing : list string) : exn :=
  ValueError ("Missing required band mapping(s) for " +:+ index_name
              +:+ ": " +:+ String.concat ", " missing).

Definition out_of_range_error (band_idx : Z) (band_type : string) (num_bands_available : Z)
    : exn :=
  ValueError ("Mapped index " +:+ string_of_Z band_idx +:+ " for '" +:+ band_type
              +:+ "' is out of range (0-" +:+ string_of_Z (num_bands_available - 1)
              +:+ ").").

(** Relating the object store to array values: [B] maps each selected band
    type to an address that holds the array that [B'] maps it to. *)
Definition selects (st : Heap.store) (B : gmap string Heap.addr)
    (B' : gmap string ndarray) : Prop :=
  ∀ b, option_Forall2 (λ p a, Heap.arrays st !! p = Some a) (B !! b) (B' !! b).

(** A run from [st] that returns the address of an array with the value
    that [v] gives, or raises as [v] does, and only adds arrays to the
    store. *)
Definition returns_array (st : Heap.store)
    (run : result Heap.index_result * Heap.store) (v : result index_result) : Prop :=
  ∃ new, run.2 = Heap.Store (Heap.arrays st ++ new) (Heap.dicts st)
         ∧ match v with
           | inl (a, d, c, g) =>
               ∃ p, run.1 = inl (p, d, c, g) ∧ Heap.arrays run.2 !! p = Some a
           | inr e => run.1 = inr e
           end.

(** Every reference of the list is to an array of the store. *)
Definition valid_bands (st : Heap.store) (bands : list Heap.addr) : Prop :=
  Forall (λ p, (p < length (Heap.arrays st))%nat) bands.

(** A store with the two single-pixel bands of the known-value scenario
    and a mapping for them. *)
Definition example_store : Heap.store :=
  Heap.Store [of_rows [[F32.of_Q 3.0]]; of_rows [[F32.of_Q 1.0]]]
             [<["NIR" := 0]> (<["Red" := 1]> ∅)].

(** Every position of the mapping is a position of a list of [n] bands. *)
Definition in_bounds (n : Z) (m : gmap string Z) : Prop :=
  ∀ r p, m !! r = Some p → 0 ≤ p < n.

(** The six band types of the docstring. *)
Definition band_types : list string :=
  ["Blue"; "Green"; "Red"; "NIR"; "SWIR1"; "SWIR2"].

(* ===================================================================== *)
(** * The callers of the engine                                           *)
(* ===================================================================== *)

(** ** Python strings and numbers used by the panels *)

(** The ASCII characters that [int] skips around a number. *)
Definition is_py_space (c : ascii) : bool :=
  (Re.between 9 13 c || N.eqb (N_of_ascii c) 32)%bool.

Definition is_digit (c : ascii) : bool := Re.between 48 57 c.

Fixpoint lstrip (s : string) : string :=
  match s with
  | EmptyString => EmptyString
  | String c s' => if is_py_space c then lstrip s' else s
  end.

Definition string_rev (s : string) : string :=
  string_of_list_ascii (rev (list_ascii_of_string s)).

Definition strip (s : string) : string :=
  string_rev (lstrip (string_rev (lstrip s))).

(** The digits of a decimal literal: single underscores are allowed
    between digits, nowhere else. *)
Fixpoint literal_digits (s : string) (after_digit : bool) : option string :=
  match s with
  | EmptyString => if after_digit then Some EmptyString else None
  | String c s' =>
      if is_digit c then String c <$> literal_digits s' true
      else if Ascii.eqb c "_" then
        if after_digit then literal_digits s' false else None
      else None
  end.

(** [int(s)] for a string of ASCII characters, in base 10. *)
Definition int_of_str (s : string) : result Z :=
  let t := strip s in
  let '(negative, body) :=
    match t with
    | String "+" b => (false, b)
    | String "-" b => (true, b)
    | _ => (false, t)
    end in
  match literal_digits body false ≫= NilEmpty.uint_of_string with
  | Some u => ret (if negative then - Z.of_uint u else Z.of_uint u)
  | None => raise (ValueError "invalid literal for int() with base 10")
  end.

(** [":" in s]. *)
Fixpoint contains_colon (s : string) : bool :=
  match s with
  | EmptyString => false
  | String c s' => Ascii.eqb c ":" || contains_colon s'
  end.

(** [s.split(":")[0]]. *)
Fixpoint before_colon (s : string) : string :=
  match s with
  | EmptyString => EmptyString
  | String c s' => if Ascii.eqb c ":" then EmptyString else String c (before_colon s')
  end.

(** [names[idx]] for a position that has been checked. *)
Definition name_at (names : list string) (idx : Z) : string :=
  default "" (names !! Z.to_nat idx).

(** [f"{i+1}: {name}"], the text of a combobox entry and of a listbox
    item. *)
Definition numbered (i : Z) (name : string) : string :=
  string_of_Z (i + 1) +:+ ": " +:+ name.

(** ** [load_satellite_imagery]: the names of the bands (imagery.py, 53-71)

    [descriptions] is [src.descriptions], [count] is [src.count] and
    [tags i] is [src.tags(i)]. *)

(** [f"Band {i}"]. *)
Definition generic_name (i : Z) : string := "Band " +:+ string_of_Z i.

(** [tags.get('DESCRIPTION', tags.get('Name', tags.get('BandName',
    tags.get('LAYER_TYPE'))))]. *)
Definition name_tag (tags : gmap string string) : option string :=
  match tags !! "DESCRIPTION" with
  | Some v => Some v
  | None =>
      match tags !! "Name" with
      | Some v => Some v
      | None =>
          match tags !! "BandName" with
          | Some v => Some v
          | None => tags !! "LAYER_TYPE"
          end
      end
  end.

(** [for i, desc in enumerate(src.descriptions)], from position [i]. *)
Fixpoint names_of_descriptions (i : Z) (descriptions : list (option string))
    : list string :=
  match descriptions with
  | [] => []
  | desc :: rest =>
      (match desc with
       | Some d => d
       | None => generic_name (i + 1)
       end) :: names_of_descriptions (i + 1) rest
  end.

(** [for i in range(1, src.count + 1)], with [todo] bands left. *)
Fixpoint names_of_tags (tags : Z → gmap string string) (i : Z) (todo : nat)
    : list string :=
  match todo with
  | O => []
  | S todo' =>
      (match name_tag (tags i) with
       | Some v => v
       | None => generic_name i
       end) :: names_of_tags tags (i + 1) todo'
  end.

Definition load_band_names (descriptions : list (option string)) (count : nat)
    (tags : Z → gmap string string) : list string :=
  if negb (Nat.eqb (length descriptions) 0) && Nat.eqb (length descriptions) count
  then names_of_descriptions 0 descriptions
  else names_of_tags tags 1 count.

(** ** The indices panel (gui/indices_panel.py)

    The panel is its fields; a method takes the panel and returns it
    updated.  A dictionary of [tk.StringVar]s is a map to their texts.
    Widgets, message boxes and file dialogs are left out. *)
Module IndicesPanel.

(** The keys ['bands'] and ['band_names'] of [imagery_data]. *)
Record imagery : Type := Imagery {
  bands : list ndarray;
  band_names : list string
}.

Record panel : Type := Panel {
  imagery_data : option imagery;
  band_mapping : gmap string Z;
  available_indices : list string;
  band_vars : gmap string string;
  band_name_labels : gmap string string
}.

Definition standard_bands : list string :=
  ["Blue"; "Green"; "Red"; "NIR"; "SWIR1"; "SWIR2"].

(** What a combobox text selects (lines 216-221 and 188-192): nothing
    when it is empty, has no colon, does not start with a number or
    names a band that the image does not have. *)
Definition selected_band (num_bands : Z) (selected_value : string) : option Z :=
  if negb (String.eqb selected_value "") && contains_colon selected_value then
    match int_of_str (before_colon selected_value) with
    | inl n =>
        let band_index := n - 1 in
        if (0 <=? band_index)%Z && (band_index <? num_bands)%Z
        then Some band_index else None
    | inr _ => None
    end
  else None.

(** The loop over [band_vars.items()] fills a new dictionary with the
    band types whose variable selects a band. *)
Definition _update_all_band_mappings (self : panel) : panel :=
  match imagery_data self with
  | None => self
  | Some im =>
      let num_bands := Z.of_nat (length (bands im)) in
      Panel (imagery_data self)
            (omap (selected_band num_bands) (band_vars self))
            (available_indices self) (band_vars self) (band_name_labels self)
  end.

(** The text of the label of one band type (lines 230-236). *)
Definition label_text (names : list string) (mapping : gmap string Z)
    (band_type : string) : string :=
  match mapping !! band_type with
  | Some idx =>
      if (0 <=? idx)%Z && (idx <? Z.of_nat (length names))%Z
      then name_at names idx else ""
  | None => ""
  end.

Definition _update_all_name_labels (self : panel) : panel :=
  match imagery_data self with
  | None => self
  | Some im =>
      Panel (imagery_data self) (band_mapping self) (available_indices self)
            (band_vars self)
            (map_imap (λ band_type _,
                         Some (label_text (band_names im) (band_mapping self) band_type))
                      (band_name_labels self))
  end.

Definition _update_indices_list (self : panel) : panel :=
  let self := _update_all_band_mappings self in
  Panel (imagery_data self) (band_mapping self)
        (get_available_indices (Some (band_mapping self)))
        (band_vars self) (band_name_labels self).

(** The initial text of the combobox of a band type (lines 155-159). *)
Definition initial_value (guessed_mapping : gmap string Z) (names : list string)
    (band_type : string) : string :=
  match guessed_mapping !! band_type with
  | Some idx =>
      if (0 <=? idx)%Z && (idx <? Z.of_nat (length names))%Z
      then numbered idx (name_at names idx) else ""
  | None => ""
  end.

Definition update_with_imagery (self : panel) (new_data : option imagery) : panel :=
  match new_data with
  | Some im =>
      match bands im with
      | [] => Panel new_data ∅ [] ∅ ∅
      | _ =>
          let guessed_mapping := guess_band_types (band_names im) in
          let vars : gmap string string :=
            list_to_map
              ((λ band_type,
                  (band_type, initial_value guessed_mapping (band_names im) band_type))
               <$> standard_bands) in
          let labels : gmap string string :=
            list_to_map ((λ band_type, (band_type, "")) <$> standard_bands) in
          _update_indices_list
            (_update_all_name_labels
               (_update_all_band_mappings
                  (Panel new_data (band_mapping self) (available_indices self)
                         vars labels)))
      end
  | None => Panel new_data ∅ [] ∅ ∅
  end.

(** [self.band_name_labels[band_type].set(text)]. *)
Definition set_label (self : panel) (band_type text : string) : result panel :=
  match band_name_labels self !! band_type with
  | None => raise (KeyError band_type)
  | Some _ =>
      ret (Panel (imagery_data self) (band_mapping self) (available_indices self)
                 (band_vars self) (<[band_type := text]> (band_name_labels self)))
  end.

(** [if band_type in self.band_mapping: del self.band_mapping[band_type]],
    then the label is emptied. *)
Definition clear_band (self : panel) (band_type : string) : result panel :=
  set_label (Panel (imagery_data self) (delete band_type (band_mapping self))
                   (available_indices self) (band_vars self) (band_name_labels self))
            band_type "".

(** The callback of one combobox.  The entry is made before the label is
    set, and removed again when the image has no name for the band
    ([except (ValueError, IndexError)]). *)
Definition _update_single_band_mapping (self : panel) (band_type : string)
    : result panel :=
  match band_vars self !! band_type with
  | None => ret self
  | Some selected_value =>
      if negb (String.eqb selected_value "") && contains_colon selected_value then
        match int_of_str (before_colon selected_value) with
        | inr _ => clear_band self band_type
        | inl n =>
            let band_index := n - 1 in
            match imagery_data self with
            | None => raise (TypeError "'NoneType' object is not subscriptable")
            | Some im =>
                if (0 <=? band_index)%Z && (band_index <? Z.of_nat (length (bands im)))%Z
                then
                  match band_name_labels self !! band_type with
                  | None => raise (KeyError band_type)
                  | Some _ =>
                      match band_names im !! Z.to_nat band_index with
                      | Some name =>
                          set_label
                            (Panel (imagery_data self)
                                   (<[band_type := band_index]> (band_mapping self))
                                   (available_indices self) (band_vars self)
                                   (band_name_labels self))
                            band_type name
                      | None => clear_band self band_type
                      end
                  end
                else clear_band self band_type
            end
        end
      else clear_band self band_type
  end.

(** What [_calculate_index] ends with: the warning, the plot of the
    result, or the error box with its text. *)
Inductive outcome : Type :=
| Warning
| Plotted (r : index_result)
| CalculationError (text : string).

Definition newline : string := String (ascii_of_N 10) EmptyString.

(** [str(e)]. *)
Definition str_of_exn (e : exn) : string :=
  match e with
  | ValueError msg => msg
  | TypeError msg => msg
  | KeyError key => "'" +:+ key +:+ "'"
  end.

Definition _calculate_index (self : panel) (index_name : string) : panel * outcome :=
  match imagery_data self with
  | None => (self, Warning)
  | Some im =>
      let self := _update_all_band_mappings self in
      (self,
       match calculate_index (bands im) (band_mapping self) index_name with
       | inl r => Plotted r
       | inr (ValueError msg) =>
           CalculationError ("Failed to calculate " +:+ index_name +:+ ":" +:+ newline
                             +:+ msg +:+ newline +:+ newline
                             +:+ "Please check band mapping.")
       | inr e =>
           CalculationError ("An unexpected error occurred calculating " +:+ index_name
                             +:+ ":" +:+ newline +:+ str_of_exn e)
       end)
  end.

(** A value of the loaded JSON object: an integer, a boolean (an [int]
    for [isinstance]), or anything else. *)
Inductive json_value : Type :=
| JInt (n : Z)
| JBool (b : bool)
| JOther.

(** [isinstance(idx, int) and 0 <= idx < num_bands]. *)
Definition valid_loaded_index (num_bands : Z) (idx : json_value) : option Z :=
  match idx with
  | JInt n => if (0 <=? n)%Z && (n <? num_bands)%Z then Some n else None
  | JBool b =>
      if (0 <=? Z.b2z b)%Z && (Z.b2z b <? num_bands)%Z then Some (Z.b2z b) else None
  | JOther => None
  end.

(** [load_band_mapping] from the loaded dictionary on (lines 369-390):
    the loop over [band_vars.items()], then the refresh of the labels and
    of the list of indices. *)
Definition load_band_mapping (self : panel) (loaded_mapping : gmap string json_value)
    : panel :=
  match imagery_data self with
  | None => self
  | Some im =>
      let names := band_names im in
      let num_bands := Z.of_nat (length names) in
      let accepted (band_type : string) : option Z :=
        loaded_mapping !! band_type ≫= valid_loaded_index num_bands in
      let vars :=
        map_imap (λ band_type _,
                    Some (match accepted band_type with
                          | Some idx => numbered idx (name_at names idx)
                          | None => ""
                          end))
                 (band_vars self) in
      let mapping :=
        map_imap (λ band_type _, accepted band_type) (band_vars self) in
      _update_indices_list
        (_update_all_name_labels
           (Panel (imagery_data self) mapping (available_indices self) vars
                  (band_name_labels self)))
  end.

(** [save_band_mapping] once a file has been chosen (lines 324-342): the
    warning when the mapping is empty; otherwise the mapping is refreshed
    and written as a JSON object, of which [json.load] gives back the
    keys with their integers. *)
Definition save_band_mapping (self : panel)
    : panel * option (gmap string json_value) :=
  if decide (band_mapping self = ∅) then (self, None)
  else
    let self := _update_all_band_mappings self in
    (self, Some (JInt <$> band_mapping self)).

End IndicesPanel.

(** ** Characterisations used for the callers *)

(** Every character of [s] satisfies [P]. *)
Definition all_chars (P : ascii → bool) (s : string) : bool :=
  forallb P (list_ascii_of_string s).

(** Every label of the panel shows the name of the band to which its band
    type is mapped, and nothing for a band type that is not mapped. *)
Definition labels_show_mapping (self : IndicesPanel.panel) (names : list string) : Prop :=
  ∀ band_type, band_type ∈ dom (IndicesPanel.band_name_labels self) →
    IndicesPanel.band_name_labels self !! band_type
    = Some (match IndicesPanel.band_mapping self !! band_type with
            | Some idx => name_at names idx
            | None => ""
            end).

(* ===================================================================== *)
(** * Properties of [guess_band_types]                                    *)
(* ===================================================================== *)

Section Guess.

Implicit Types (st : guess_state) (m : gmap string Z) (A : gset Z).

Lemma try_patterns_spec band_type i name_lower type_patterns st :
  try_patterns band_type i name_lower type_patterns st
  = if matches_any type_patterns name_lower
    then GuessState (<[band_type := i]> (band_mapping st))
                    ({[ i ]} ∪ assigned_indices st)
    else st.
Proof.
  induction type_patterns as [|p ps IH]; simpl; [done|].
  destruct (Re.search p name_lower); simpl; [done|apply IH].
Qed.

Lemma scan_names_spec band_type type_patterns names : ∀ i m A,
  band_type ∉ dom m →
  scan_names band_type type_patterns i names (GuessState m A)
  = match first_match type_patterns i names A with
    | Some j => GuessState (<[band_type := j]> m) ({[ j ]} ∪ A)
    | None => GuessState m A
    end.
Proof.
  induction names as [|name rest IH]; intros i m A Hfresh; simpl; [done|].
  destruct (decide (i ∈ A)); [by apply IH|].
  rewrite try_patterns_spec; simpl.
  destruct (matches_any type_patterns (lower name)); simpl.
  - rewrite decide_True; [done|]. rewrite dom_insert_L. set_solver.
  - rewrite decide_False; [by apply IH|done].
Qed.

Lemma first_match_Some type_patterns names : ∀ i A j,
  first_match type_patterns i names A = Some j →
  (j ∉ A) ∧ (i ≤ j < i + Z.of_nat (length names))
  ∧ ∃ name, names !! Z.to_nat (j - i) = Some name
            ∧ matches_any type_patterns (lower name) = true.
Proof.
  induction names as [|name rest IH]; intros i A j; simpl; [done|].
  destruct (decide (i ∈ A)) as [Hin|Hin].
  - intros H. destruct (IH _ _ _ H) as (? & ? & name' & Hl & Hm).
    split; [done|]. split; [lia|]. exists name'. split; [|done].
    replace (Z.to_nat (j - i)) with (S (Z.to_nat (j - (i + 1)))) by lia. done.
  - destruct (matches_any type_patterns (lower name)) eqn:Hm.
    + intros [= <-]. split; [done|]. split; [lia|].
      exists name. by rewrite Z.sub_diag.
    + intros H. destruct (IH _ _ _ H) as (? & ? & name' & Hl & Hm').
      split; [done|]. split; [lia|]. exists name'. split; [|done].
      replace (Z.to_nat (j - i)) with (S (Z.to_nat (j - (i + 1)))) by lia. done.
Qed.

Lemma injective_insert m r p :
  injective m → r ∉ dom m → (∀ r', m !! r' ≠ Some p) →
  injective (<[r := p]> m).
Proof.
  intros Hinj Hr Hp r1 r2 q H1 H2.
  destruct (decide (r1 = r)) as [->|N1]; destruct (decide (r2 = r)) as [->|N2];
    simplify_map_eq; try done.
  - by destruct (Hp r2).
  - by destruct (Hp r1).
  - by eapply Hinj.
Qed.

Lemma scan_inv_insert m A r p :
  scan_inv (GuessState m A) → r ∉ dom m → p ∉ A →
  scan_inv (GuessState (<[r := p]> m) ({[ p ]} ∪ A)).
Proof.
  intros [Hinj Himg] Hr Hp. split; simpl in *.
  - apply injective_insert; [done..|].
    intros r' Hr'. apply Hp, Himg. eauto.
  - intros q. rewrite elem_of_union, elem_of_singleton, Himg. split.
    + intros [->|[r' Hr']].
      * exists r. by simplify_map_eq.
      * exists r'. rewrite lookup_insert_ne; [done|].
        intros <-. apply Hr, elem_of_dom. eauto.
    + intros [r' Hr']. destruct (decide (r = r')) as [<-|N].
      * simplify_map_eq. by left.
      * simplify_map_eq. right. eauto.
Qed.

Lemma scan_names_inv band_type type_patterns i names st :
  scan_inv st → band_type ∉ dom (band_mapping st) →
  scan_inv (scan_names band_type type_patterns i names st).
Proof.
  destruct st as [m A]. intros Hinv Hfresh. rewrite scan_names_spec by done.
  destruct (first_match _ _ _ _) as [j|] eqn:Hfm; [|done].
  apply first_match_Some in Hfm as [Hj _]. by apply scan_inv_insert.
Qed.

Lemma scan_types_inv table band_names : ∀ st,
  scan_inv st → scan_inv (scan_types table band_names st).
Proof.
  induction table as [|[band_type type_patterns] rest IH]; intros st Hinv;
    simpl; [done|].
  destruct (decide (band_type ∈ dom (band_mapping st))); [by apply IH|].
  by apply IH, scan_names_inv.
Qed.

(** Keys: the pattern phase only adds keys of the table. *)
Lemma scan_names_dom band_type type_patterns i names st :
  band_type ∉ dom (band_mapping st) →
  dom (band_mapping (scan_names band_type type_patterns i names st))
  ⊆ {[ band_type ]} ∪ dom (band_mapping st).
Proof.
  destruct st as [m A]. intros Hfresh. rewrite scan_names_spec by done.
  destruct (first_match _ _ _ _); simpl; [|set_solver].
  rewrite dom_insert_L. set_solver.
Qed.

Lemma scan_types_dom table band_names : ∀ st,
  dom (band_mapping (scan_types table band_names st))
  ⊆ list_to_set (table.*1) ∪ dom (band_mapping st).
Proof.
  induction table as [|[band_type type_patterns] rest IH]; intros st;
    simpl; [set_solver|].
  destruct (decide (band_type ∈ dom (band_mapping st))) as [Hin|Hin].
  - specialize (IH st). set_solver.
  - specialize (IH (scan_names band_type type_patterns 0 band_names st)).
    pose proof (scan_names_dom band_type type_patterns 0 band_names st Hin).
    set_solver.
Qed.

(** Entries, once made, stay. *)
Lemma scan_names_mono band_type type_patterns i names st r p :
  band_type ∉ dom (band_mapping st) →
  band_mapping st !! r = Some p →
  band_mapping (scan_names band_type type_patterns i names st) !! r = Some p.
Proof.
  destruct st as [m A]. intros Hfresh Hr. rewrite scan_names_spec by done.
  destruct (first_match _ _ _ _); simpl; [|done].
  rewrite lookup_insert_ne; [done|].
  intros <-. apply Hfresh, elem_of_dom. eauto.
Qed.

Lemma scan_types_mono table band_names r p : ∀ st,
  band_mapping st !! r = Some p →
  band_mapping (scan_types table band_names st) !! r = Some p.
Proof.
  induction table as [|[band_type type_patterns] rest IH]; intros st Hr;
    simpl; [done|].
  destruct (decide (band_type ∈ dom (band_mapping st))); [by apply IH|].
  by apply IH, scan_names_mono.
Qed.

Lemma scan_types_app t1 t2 band_names : ∀ st,
  scan_types (t1 ++ t2) band_names st
  = scan_types t2 band_names (scan_types t1 band_names st).
Proof.
  induction t1 as [|[band_type type_patterns] rest IH]; intros st; simpl; [done|].
  destruct (decide (band_type ∈ dom (band_mapping st))); apply IH.
Qed.

End Guess.

Section Fallback.

Implicit Types (st : guess_state) (m : gmap string Z) (A P : gset Z).

Lemma fallback_inv_start st :
  scan_inv st → fallback_inv (assigned_indices st) ∅ st.
Proof.
  intros [Hinj Himg]. split; [done|]. split; [done|].
  intros r p Hr. left. apply Himg. eauto.
Qed.

Lemma fallback_one_inv A P role p st :
  fallback_inv A P st → p ∉ P →
  fallback_inv A ({[ p ]} ∪ P) (fallback_one role p st).
Proof.
  intros (HA & Hinj & Himg) HP. unfold fallback_one.
  destruct (decide _) as [[Hrole Hp]|_]; simpl.
  - split; [done|]. split.
    + apply injective_insert; [done..|].
      intros r' Hr'. destruct (Himg _ _ Hr'); [|done]. apply Hp. by rewrite HA.
    + intros r q. destruct (decide (r = role)) as [->|N]; simplify_map_eq.
      * intros [= <-]. right. set_solver.
      * intros Hr. destruct (Himg _ _ Hr); [by left|right; set_solver].
  - split; [done|]. split; [done|].
    intros r q Hr. destruct (Himg _ _ Hr); [by left|right; set_solver].
Qed.

Lemma fallback_injective n st :
  scan_inv st → injective (band_mapping (fallback n st)).
Proof.
  intros Hinv%fallback_inv_start.
  assert (∃ P, fallback_inv (assigned_indices st) P (fallback n st))
    as (P & _ & Hinj & _); [|done].
  unfold fallback.
  destruct (decide (n >= 4)); [|destruct (decide (n = 3))].
  - exists ({[4]} ∪ ({[3]} ∪ ({[2]} ∪ ({[1]} ∪ ∅)))).
    do 4 (apply fallback_one_inv; [|set_solver]). exact Hinv.
  - exists ({[2]} ∪ ({[1]} ∪ ({[0]} ∪ ∅))).
    do 3 (apply fallback_one_inv; [|set_solver]). exact Hinv.
  - by exists ∅.
Qed.

Lemma fallback_one_dom role p st (K : gset string) :
  role ∈ K → dom (band_mapping st) ⊆ K →
  dom (band_mapping (fallback_one role p st)) ⊆ K.
Proof.
  intros Hrole Hst. unfold fallback_one. destruct (decide _); simpl; [|done].
  rewrite dom_insert_L. set_solver.
Qed.

Lemma fallback_dom n st :
  dom (band_mapping (fallback n st))
  ⊆ list_to_set ["NIR"; "Red"; "Green"; "Blue"] ∪ dom (band_mapping st).
Proof.
  unfold fallback.
  destruct (decide (n >= 4)); [|destruct (decide (n = 3))].
  - do 4 (apply fallback_one_dom; [set_solver|]). set_solver.
  - do 3 (apply fallback_one_dom; [set_solver|]). set_solver.
  - set_solver.
Qed.

Lemma fallback_one_mono role p st r q :
  band_mapping st !! r = Some q →
  band_mapping (fallback_one role p st) !! r = Some q.
Proof.
  intros Hr. unfold fallback_one.
  destruct (decide _) as [[Hrole _]|_]; simpl; [|done].
  rewrite lookup_insert_ne; [done|].
  intros <-. apply Hrole, elem_of_dom. eauto.
Qed.

Lemma fallback_mono n st r q :
  band_mapping st !! r = Some q →
  band_mapping (fallback n st) !! r = Some q.
Proof.
  intros Hr. unfold fallback.
  destruct (decide (n >= 4)); [|destruct (decide (n = 3))].
  - by do 4 apply fallback_one_mono.
  - by do 3 apply fallback_one_mono.
  - done.
Qed.

End Fallback.

Lemma scan_inv_empty : scan_inv (GuessState ∅ ∅).
Proof.
  split; simpl.
  - intros r1 r2 p H. by rewrite lookup_empty in H.
  - intros p. split; [set_solver|]. intros [r H]. by rewrite lookup_empty in H.
Qed.

Lemma patterns_keys : patterns.*1 = ["NIR"; "SWIR2"; "SWIR1"; "Red"; "Green"; "Blue"].
Proof. reflexivity. Qed.

Lemma guess_before_rename_dom band_names :
  dom (guess_before_rename band_names) ⊆ list_to_set band_types.
Proof.
  unfold guess_before_rename.
  pose proof (fallback_dom (Z.of_nat (length band_names))
                (scan_types patterns band_names (GuessState ∅ ∅))) as H1.
  pose proof (scan_types_dom patterns band_names (GuessState ∅ ∅)) as H2.
  rewrite patterns_keys in H2.
  change (dom (band_mapping (GuessState ∅ ∅))) with (∅ : gset string) in H2.
  generalize dependent (scan_types patterns band_names (GuessState ∅ ∅)).
  intros st. generalize (fallback (Z.of_nat (length band_names)) st).
  intros st' H1 H2. unfold band_types. set_solver.
Qed.

Lemma rename_never_fires band_names :
  rename_fires (guess_before_rename band_names) = false.
Proof.
  unfold rename_fires. apply bool_decide_eq_false. intros [Hin _].
  apply guess_before_rename_dom in Hin. unfold band_types in Hin.
  set_solver.
Qed.

Lemma guess_band_types_unfold band_names :
  guess_band_types band_names
  = match band_names with [] => ∅ | _ => guess_before_rename band_names end.
Proof.
  unfold guess_band_types. destruct band_names; [done|].
  by rewrite rename_never_fires.
Qed.

Lemma guess_before_rename_injective band_names :
  injective (guess_before_rename band_names).
Proof.
  unfold guess_before_rename.
  apply fallback_injective, scan_types_inv, scan_inv_empty.
Qed.

Lemma guess_injective band_names : injective (guess_band_types band_names).
Proof.
  rewrite guess_band_types_unfold. destruct band_names.
  - intros r1 r2 p H. by rewrite lookup_empty in H.
  - apply guess_before_rename_injective.
Qed.

(** C10: the keys of the returned mapping are among the six band types
    Blue, Green, Red, NIR, SWIR1, SWIR2; the empty list of names gives the
    empty mapping; the key ["SWIR"] never occurs, and the condition of the
    final renaming is false on every input. *)
Theorem guess_keys_are_band_types (band_names : list string) :
  guess_band_types [] = ∅
  ∧ dom (guess_band_types band_names) ⊆ list_to_set band_types
  ∧ ("SWIR" ∉ dom (guess_band_types band_names))
  ∧ rename_fires (guess_before_rename band_names) = false.
Proof.
  assert (Hdom : dom (guess_band_types band_names) ⊆ list_to_set band_types).
  { rewrite guess_band_types_unfold. destruct band_names.
    - rewrite dom_empty_L. apply empty_subseteq.
    - apply guess_before_rename_dom. }
  split; [done|]. split; [done|]. split; [|apply rename_never_fires].
  intros Hin. apply Hdom in Hin. unfold band_types in Hin. set_solver.
Qed.

(** C4: no two distinct band types are mapped to the same position. *)
Theorem guess_band_types_injective (band_names : list string) (r1 r2 : string) (p : Z) :
  guess_band_types band_names !! r1 = Some p →
  guess_band_types band_names !! r2 = Some p →
  r1 = r2.
Proof. apply guess_injective. Qed.

Lemma guess_band_types_injective_witness :
  guess_band_types ["B4"; "B8"; "B3"] !! "Red" = Some 0
  ∧ "Red" = "Red".
Proof.
  assert (H : guess_band_types ["B4"; "B8"; "B3"] !! "Red" = Some 0)
    by (vm_compute; reflexivity).
  split; [exact H|].
  exact (guess_band_types_injective ["B4"; "B8"; "B3"] "Red" "Red" 0 H H).
Defined.

(** C2, at the input of the specification: with four names that match no
    pattern the fallback assigns NIR the position 4, which is not below
    the number of bands. *)
Theorem fallback_position_out_of_range :
  guess_band_types ["x1"; "x2"; "x3"; "x4"] !! "NIR" = Some 4
  ∧ ¬ (4 < Z.of_nat (length ["x1"; "x2"; "x3"; "x4"])).
Proof. split; [vm_compute; reflexivity | simpl; lia]. Qed.

(** ** The most specific pattern of a band type *)

Lemma matches_any_first p ps name_lower :
  Re.search p name_lower = true → matches_any (p :: ps) name_lower = true.
Proof. intros H. unfold matches_any. simpl. by rewrite H. Qed.

Lemma patterns_NoDup : NoDup (patterns.*1).
Proof.
  rewrite patterns_keys.
  repeat (apply NoDup_cons; split; [set_solver|]). apply NoDup_nil_2.
Qed.

Lemma first_match_le type_patterns names : ∀ k A i name,
  names !! i = Some name →
  matches_any type_patterns (lower name) = true →
  k + Z.of_nat i ∉ A →
  ∃ j, (j ≤ i)%nat ∧ first_match type_patterns k names A = Some (k + Z.of_nat j).
Proof.
  induction names as [|nm rest IH]; intros k A i name Hi Hm HA; [done|].
  cbn [first_match]. destruct i as [|i].
  - simpl in Hi. injection Hi as ->. rewrite Z.add_0_r in HA.
    rewrite decide_False by done. rewrite Hm.
    exists 0%nat. split; [lia|]. by rewrite Z.add_0_r.
  - replace (k + Z.of_nat (S i)) with ((k + 1) + Z.of_nat i) in HA by lia.
    destruct (IH (k + 1) A i name Hi Hm HA) as (j & Hj & Hfm).
    destruct (decide (k ∈ A)).
    + exists (S j). split; [lia|]. rewrite Hfm. f_equal. lia.
    + destruct (matches_any type_patterns (lower nm)).
      * exists 0%nat. split; [lia|]. by rewrite Z.add_0_r.
      * exists (S j). split; [lia|]. rewrite Hfm. f_equal. lia.
Qed.

(** The band type at the cut of the table is given the first position
    that the band types before it have left and whose name matches one of
    its patterns. *)
Lemma guess_at_first_free_match (pre post : list (string * list string))
    (role : string) (type_patterns band_names : list string) (i : nat) (name : string) :
  patterns = (pre ++ (role, type_patterns) :: post)%list →
  band_names !! i = Some name →
  matches_any type_patterns (lower name) = true →
  Forall (λ role', guess_before_rename band_names !! role' ≠ Some (Z.of_nat i))
         (pre.*1) →
  role ∉ pre.*1
  ∧ ∃ j nm, (j ≤ i)%nat ∧ band_names !! j = Some nm
            ∧ matches_any type_patterns (lower nm) = true
            ∧ guess_before_rename band_names !! role = Some (Z.of_nat j).
Proof.
  intros Hcut Hi Hm Hpre.
  assert (Hrole : role ∉ pre.*1).
  { pose proof patterns_NoDup as Hnd. rewrite Hcut, fmap_app in Hnd.
    apply NoDup_app in Hnd as (_ & Hnd & _). intros Hin.
    apply (Hnd _ Hin). simpl. left. }
  split; [done|].
  revert Hpre. unfold guess_before_rename. rewrite Hcut, scan_types_app.
  pose proof (scan_types_inv pre band_names _ scan_inv_empty) as Hinv.
  pose proof (scan_types_dom pre band_names (GuessState ∅ ∅)) as Hdom.
  change (dom (band_mapping (GuessState ∅ ∅))) with (∅ : gset string) in Hdom.
  generalize dependent (scan_types pre band_names (GuessState ∅ ∅)).
  intros [m A] Hinv Hdom Hpre. simpl in Hdom.
  assert (Hfresh : role ∉ dom m).
  { intros Hin. apply Hdom in Hin. set_solver. }
  simpl scan_types in *. rewrite decide_False in * by done.
  rewrite scan_names_spec in * by done.
  assert (HA : 0 + Z.of_nat i ∉ A).
  { intros Hin. destruct Hinv as [_ Himg]. apply Himg in Hin as [r' Hr'].
    simpl in Hr'.
    assert (Hr'pre : r' ∈ pre.*1).
    { assert (r' ∈ dom m) as Hd by (apply elem_of_dom; eauto).
      apply Hdom in Hd. set_solver. }
    rewrite Forall_forall in Hpre. apply (Hpre _ Hr'pre).
    apply fallback_mono, scan_types_mono.
    destruct (first_match _ _ _ _); simpl.
    - rewrite lookup_insert_ne; [by rewrite Z.add_0_l in Hr'|].
      intros <-. by apply Hrole.
    - by rewrite Z.add_0_l in Hr'. }
  destruct (first_match_le type_patterns band_names 0 A i name Hi Hm HA)
    as (j & Hj & Hfm).
  rewrite Hfm. apply first_match_Some in Hfm as (_ & _ & nm & Hnm & Hmatch).
  replace (Z.to_nat (0 + Z.of_nat j - 0)) with j in Hnm by lia.
  exists j, nm. repeat split; try done.
  apply fallback_mono, scan_types_mono. simpl. rewrite Z.add_0_l.
  apply lookup_insert_eq.
Qed.

(** C3, as the code has it.  When a name matches the most specific pattern
    of a band type at a position that no band type earlier in the table
    holds, and every earlier name that matches less specific patterns of
    the type only is at a position that an earlier band type holds, the
    band type is given the position of a name that matches its most
    specific pattern (that name, or an earlier one), and no other band type
    is given that position. *)
Theorem most_specific_pattern_assigned
    (pre post : list (string * list string)) (role pattern : string)
    (type_patterns band_names : list string) (i0 : nat) (name0 : string) :
  patterns = (pre ++ (role, pattern :: type_patterns) :: post)%list →
  band_names !! i0 = Some name0 →
  Re.search pattern (lower name0) = true →
  Forall (λ role', guess_band_types band_names !! role' ≠ Some (Z.of_nat i0))
         (pre.*1) →
  (∀ j nm, (j < i0)%nat → band_names !! j = Some nm →
           Re.search pattern (lower nm) = false →
           matches_any type_patterns (lower nm) = true →
           ∃ role', role' ∈ pre.*1
                    ∧ guess_band_types band_names !! role' = Some (Z.of_nat j)) →
  ∃ i name,
    (i ≤ i0)%nat ∧ band_names !! i = Some name
    ∧ Re.search pattern (lower name) = true
    ∧ guess_band_types band_names !! role = Some (Z.of_nat i)
    ∧ ∀ role', role' ≠ role →
               guess_band_types band_names !! role' ≠ Some (Z.of_nat i).
Proof.
  intros Hcut Hi0 Hm0 Hpre Hless.
  rewrite guess_band_types_unfold in *.
  destruct band_names as [|first rest]; [done|].
  generalize dependent (first :: rest). clear first rest. intros band_names.
  intros Hi0 Hpre Hless.
  destruct (guess_at_first_free_match pre post role (pattern :: type_patterns)
              band_names i0 name0 Hcut Hi0 (matches_any_first _ _ _ Hm0) Hpre)
    as (Hrole & i & name & Hle & Hi & Hm & Hassigned).
  assert (Hspecific : Re.search pattern (lower name) = true).
  { destruct (Re.search pattern (lower name)) eqn:Hsearch; [done|]. exfalso.
    assert (Hlt : (i < i0)%nat).
    { destruct (decide (i = i0)) as [->|]; [|lia]. congruence. }
    destruct (Hless i name Hlt Hi Hsearch) as (role' & Hin & Hrole').
    { unfold matches_any in *. cbn [existsb] in Hm. by rewrite Hsearch in Hm. }
    assert (role' = role) as ->; [|done].
    by eapply guess_before_rename_injective. }
  exists i, name. repeat split; try done.
  intros role' Hne Hrole'. apply Hne.
  by eapply guess_before_rename_injective.
Qed.

Lemma most_specific_pattern_assigned_witness :
  ∃ i name,
    (i ≤ 1)%nat ∧ ["nir b12"; "b12"] !! i = Some name
    ∧ Re.search "\bb12\b" (lower name) = true
    ∧ guess_band_types ["nir b12"; "b12"] !! "SWIR2" = Some (Z.of_nat i)
    ∧ ∀ role', role' ≠ "SWIR2" →
               guess_band_types ["nir b12"; "b12"] !! role' ≠ Some (Z.of_nat i).
Proof.
  apply (most_specific_pattern_assigned
           (take 1 patterns) (drop 2 patterns) "SWIR2" "\bb12\b"
           ["\bb0?12\b"; "\bband.?12"; "\bswir.?2\b"; "\bswir.?2.2";
            "\bb7\b"; "\bb0?7\b"; "\bband.?7\b"]
           ["nir b12"; "b12"] 1 "b12").
  - reflexivity.
  - reflexivity.
  - vm_compute; reflexivity.
  - repeat constructor. vm_compute. discriminate.
  - intros j nm Hj Hnm Hsearch _. exfalso.
    destruct j as [|j]; [|lia]. injection Hnm as <-.
    vm_compute in Hsearch. discriminate.
Defined.

Lemma first_match_earlier type_patterns names : ∀ k A j nm,
  names !! j = Some nm →
  matches_any type_patterns (lower nm) = true →
  match first_match type_patterns k names A with
  | Some p => k + Z.of_nat j < p → k + Z.of_nat j ∈ A
  | None => k + Z.of_nat j ∈ A
  end.
Proof.
  induction names as [|name rest IH]; intros k A j nm Hj Hm; [done|].
  cbn [first_match]. destruct j as [|j].
  - simpl in Hj. injection Hj as ->. rewrite Z.add_0_r.
    destruct (decide (k ∈ A)); [by destruct (first_match _ _ _ _)|].
    rewrite Hm. lia.
  - replace (k + Z.of_nat (S j)) with ((k + 1) + Z.of_nat j) by lia.
    specialize (IH (k + 1) A j nm Hj Hm).
    destruct (decide (k ∈ A)); [done|].
    destruct (matches_any type_patterns (lower name)); [lia|done].
Qed.

(** The hypotheses leave out no list of names for which the code does
    what the claim says: whenever a band type is given a position of the
    list, no earlier band type holds that position, and every earlier name
    that matches a pattern of the type is at a position that an earlier
    band type holds. *)
Lemma most_specific_hypotheses_hold
    (pre post : list (string * list string)) (role : string)
    (type_patterns band_names : list string) (i : nat) :
  patterns = (pre ++ (role, type_patterns) :: post)%list →
  guess_band_types band_names !! role = Some (Z.of_nat i) →
  Forall (λ role', guess_band_types band_names !! role' ≠ Some (Z.of_nat i))
         (pre.*1)
  ∧ ∀ j nm, (j < i)%nat → band_names !! j = Some nm →
            matches_any type_patterns (lower nm) = true →
            ∃ role', role' ∈ pre.*1
                     ∧ guess_band_types band_names !! role' = Some (Z.of_nat j).
Proof.
  intros Hcut Hassigned.
  assert (Hrole : role ∉ pre.*1).
  { pose proof patterns_NoDup as Hnd. rewrite Hcut, fmap_app in Hnd.
    apply NoDup_app in Hnd as (_ & Hnd & _). intros Hin.
    apply (Hnd _ Hin). simpl. left. }
  split.
  { apply Forall_forall. intros role' Hin Hrole'.
    assert (role' = role) as ->; [|done]. by eapply guess_injective. }
  intros j nm Hj Hnm Hm.
  rewrite guess_band_types_unfold in *.
  destruct band_names as [|first rest]; [done|].
  generalize dependent (first :: rest). clear first rest. intros band_names.
  pose proof (guess_before_rename_injective band_names) as Hinj. revert Hinj.
  unfold guess_before_rename. rewrite Hcut, scan_types_app.
  pose proof (scan_types_inv pre band_names _ scan_inv_empty) as Hinv.
  pose proof (scan_types_dom pre band_names (GuessState ∅ ∅)) as Hdom.
  change (dom (band_mapping (GuessState ∅ ∅))) with (∅ : gset string) in Hdom.
  generalize dependent (scan_types pre band_names (GuessState ∅ ∅)).
  intros [m A] Hinv Hdom. simpl in Hdom.
  assert (Hfresh : role ∉ dom m).
  { intros Hin. apply Hdom in Hin. set_solver. }
  simpl scan_types. rewrite decide_False by done.
  rewrite scan_names_spec by done.
  intros Hinj Hassigned Hnm.
  pose proof (first_match_earlier type_patterns band_names 0 A j nm Hnm Hm) as Hearlier.
  assert (HA : Z.of_nat j ∈ A).
  { destruct (first_match type_patterns 0 band_names A) as [p|] eqn:Hfm;
      [|by rewrite Z.add_0_l in Hearlier].
    rewrite Z.add_0_l in Hearlier. apply Hearlier.
    assert (Some p = Some (Z.of_nat i)) as [= ->]; [|lia].
    rewrite <- Hassigned. symmetry.
    apply fallback_mono, scan_types_mono. simpl. apply lookup_insert_eq. }
  destruct Hinv as [_ Himg]. apply Himg in HA as [role' Hrole'].
  simpl in Hrole'. exists role'. split.
  - assert (role' ∈ dom m) as Hd by (apply elem_of_dom; eauto).
    apply Hdom in Hd. set_solver.
  - apply fallback_mono, scan_types_mono.
    destruct (first_match _ _ _ _); simpl; [|done].
    rewrite lookup_insert_ne; [done|].
    intros <-. apply Hfresh, elem_of_dom. eauto.
Qed.

(** C3 as it is stated fails where a band type earlier in the table takes
    the name: ["nir b12"] matches the most specific pattern of SWIR2, and
    NIR, which comes first, is given its position. *)
Lemma most_specific_pattern_counterexample :
  assoc "SWIR2" patterns
  = Some ["\bb12\b"; "\bb0?12\b"; "\bband.?12"; "\bswir.?2\b"; "\bswir.?2.2";
          "\bb7\b"; "\bb0?7\b"; "\bband.?7\b"]
  ∧ ["nir b12"] !! 0%nat = Some "nir b12"
  ∧ Re.search "\bb12\b" (lower "nir b12") = true
  ∧ guess_band_types ["nir b12"] !! "SWIR2" = None
  ∧ guess_band_types ["nir b12"] !! "NIR" = Some 0.
Proof. repeat split; vm_compute; reflexivity. Qed.

(** The order of the patterns within a band type has no effect on the
    position that is chosen: the names are scanned first, so the broad
    [B8] before the narrow [B8A] is taken for NIR. *)
Example broad_before_narrow :
  Re.search "\bb8a\b" (lower "B8A") = true
  ∧ guess_band_types ["B8"; "B8A"] !! "NIR" = Some 0.
Proof. split; vm_compute; reflexivity. Qed.

(* ===================================================================== *)
(** * Properties of the registry and of [get_available_indices]           *)
(* ===================================================================== *)

(** C8: the ten entries of the registry, in order, with their required
    band types and the values of their parameters. *)
Theorem registry_matches_catalog :
  (λ '(index_name, info),
     (index_name, info_bands info,
      (λ '(k, x), (k, float_value x)) <$> default [] (info_params info)))
    <$> COMMON_INDICES
  = [ ("NDVI",  ["NIR"; "Red"], []);
      ("NDWI",  ["Green"; "NIR"], []);
      ("MNDWI", ["Green"; "SWIR1"], []);
      ("NDBI",  ["SWIR1"; "NIR"], []);
      ("SAVI",  ["NIR"; "Red"], [("L", Some (Qred 0.5))]);
      ("EVI",   ["NIR"; "Red"; "Blue"],
                [("G", Some (Qred 2.5)); ("C1", Some (Qred 6.0));
                 ("C2", Some (Qred 7.5)); ("L", Some (Qred 1.0))]);
      ("NDSI",  ["Green"; "SWIR1"], []);
      ("NDMI",  ["NIR"; "SWIR1"], []);
      ("BSI",   ["SWIR1"; "Red"; "NIR"; "Blue"], []);
      ("NBR",   ["NIR"; "SWIR2"], []) ].
Proof. vm_compute. reflexivity. Qed.

Lemma registry_NoDup : NoDup (COMMON_INDICES.*1).
Proof.
  change (COMMON_INDICES.*1)
    with ["NDVI"; "NDWI"; "MNDWI"; "NDBI"; "SAVI"; "EVI"; "NDSI"; "NDMI"; "BSI"; "NBR"].
  repeat (apply NoDup_cons; split; [set_solver|]). apply NoDup_nil_2.
Qed.

Lemma registry_bands_nonempty :
  Forall (λ entry, info_bands entry.2 ≠ []) COMMON_INDICES.
Proof. repeat constructor; discriminate. Qed.

Lemma assoc_elem_of {V} (k : string) (v : V) (d : list (string * V)) :
  assoc k d = Some v → (k, v) ∈ d.
Proof.
  induction d as [|[k' v'] d IH]; simpl; [done|].
  destruct (String.eqb_spec k k') as [->|Hne].
  - intros [= ->]. left.
  - intros H. right. by apply IH.
Qed.

Lemma elem_of_assoc {V} (k : string) (v : V) (d : list (string * V)) :
  NoDup (d.*1) → (k, v) ∈ d → assoc k d = Some v.
Proof.
  induction d as [|[k' v'] d IH]; simpl; intros Hnd Hin.
  - by apply elem_of_nil in Hin.
  - apply NoDup_cons in Hnd as [Hk' Hnd].
    apply elem_of_cons in Hin as [[= <- <-]|Hin].
    + by rewrite String.eqb_refl.
    + destruct (String.eqb_spec k k') as [->|Hne]; [|by apply IH].
      destruct Hk'. apply list_elem_of_fmap. by exists (k', v).
Qed.

Lemma issubset_spec required_bands (K : gset string) :
  issubset required_bands K = true ↔ ∀ b, b ∈ required_bands → b ∈ K.
Proof.
  unfold issubset. rewrite forallb_forall. split.
  - intros H b Hb. apply list_elem_of_In in Hb. specialize (H _ Hb).
    by apply bool_decide_eq_true in H.
  - intros H b Hb. apply bool_decide_eq_true, H, list_elem_of_In, Hb.
Qed.

Lemma available_loop_spec items (K : gset string) index_name : ∀ acc,
  index_name ∈ available_loop items K acc
  ↔ index_name ∈ acc
    ∨ ∃ info, (index_name, info) ∈ items ∧ issubset (info_bands info) K = true.
Proof.
  induction items as [|[n info] items IH]; intros acc; simpl.
  - split; [by left|]. intros [?|(? & Hin & _)]; [done|].
    by apply elem_of_nil in Hin.
  - destruct (issubset (info_bands info) K) eqn:Hsub; rewrite IH.
    + rewrite elem_of_app, list_elem_of_singleton. split.
      * intros [[? | ->]|(info' & Hin & ?)]; [by left| |].
        -- right. exists info. split; [left|done].
        -- right. exists info'. split; [by right|done].
      * intros [?|(info' & Hin & Hs)]; [by left; left|].
        apply elem_of_cons in Hin as [[= -> ->]|Hin]; [by left; right|].
        right. eauto.
    + split.
      * intros [?|(info' & Hin & ?)]; [by left|].
        right. exists info'. split; [by right|done].
      * intros [?|(info' & Hin & Hs)]; [by left|].
        apply elem_of_cons in Hin as [[= -> ->]|Hin]; [congruence|].
        right. eauto.
Qed.

(** C5: an index of the registry is listed exactly when all its required
    band types are keys of the mapping; the empty mapping gives the empty
    list. *)
Theorem available_iff_required_mapped (m : gmap string Z)
    (index_name : string) (info : index_info) :
  assoc index_name COMMON_INDICES = Some info →
  get_available_indices (Some ∅) = []
  ∧ (index_name ∈ get_available_indices (Some m)
     ↔ ∀ b, b ∈ info_bands info → b ∈ dom m).
Proof.
  intros Hinfo. split; [done|].
  apply assoc_elem_of in Hinfo as Hin.
  unfold get_available_indices. destruct (decide (m = ∅)) as [->|Hne].
  - split; [intros H; by apply elem_of_nil in H|].
    intros Hall. exfalso.
    pose proof registry_bands_nonempty as Hne.
    rewrite Forall_forall in Hne. specialize (Hne _ Hin). simpl in Hne.
    destruct (info_bands info) as [|b bs]; [done|].
    assert (Hb : b ∈ dom (∅ : gmap string Z)) by (apply Hall; left).
    rewrite dom_empty_L in Hb. by apply not_elem_of_empty in Hb.
  - rewrite available_loop_spec, <- issubset_spec. split.
    + intros [H|(info' & Hin' & Hs)]; [by apply elem_of_nil in H|].
      apply (elem_of_assoc _ _ _ registry_NoDup) in Hin, Hin'.
      congruence.
    + intros Hs. right. eauto.
Qed.

Lemma available_iff_required_mapped_witness :
  get_available_indices (Some ∅) = []
  ∧ ("NDVI" ∈ get_available_indices (Some (<["NIR" := 0]> (<["Red" := 1]> ∅)))
     ↔ ∀ b, b ∈ ["NIR"; "Red"] → b ∈ dom (<["NIR" := 0]> (<["Red" := 1]> (∅ : gmap string Z)))).
Proof.
  exact (available_iff_required_mapped (<["NIR" := 0]> (<["Red" := 1]> ∅)) "NDVI"
           (IndexInfo
              "Normalized Difference Vegetation Index"
              "(NIR - Red) / (NIR + Red)"
              ["NIR"; "Red"]
              None
              "Measures vegetation health and density. Values range from -1 to 1, with higher values indicating denser vegetation."
              "RdYlGn"
              (lit (-0.2), lit 1.0))
           eq_refl).
Defined.

(* ===================================================================== *)
(** * Properties of [calculate_index]: validation                         *)
(* ===================================================================== *)

Section Validation.

Context {A : Type}.
Implicit Types (bands : list A) (m : gmap string Z) (B : gmap string A).

Lemma missing_bands_spec required_bands m b :
  b ∈ missing_bands required_bands m ↔ b ∈ required_bands ∧ m !! b = None.
Proof.
  unfold missing_bands. rewrite list_elem_of_In, filter_In, <- list_elem_of_In.
  rewrite bool_decide_eq_true, not_elem_of_dom. done.
Qed.

Lemma missing_bands_nil required_bands m :
  missing_bands required_bands m = [] ↔ ∀ b, b ∈ required_bands → is_Some (m !! b).
Proof.
  split.
  - intros Hnil b Hb. destruct (m !! b) eqn:Hmb; [by eexists|].
    assert (b ∈ missing_bands required_bands m) as Hin
      by by apply missing_bands_spec.
    rewrite Hnil in Hin. by apply elem_of_nil in Hin.
  - intros Hall. destruct (missing_bands required_bands m) as [|b l] eqn:Hm; [done|].
    assert (b ∈ missing_bands required_bands m) as Hin by (rewrite Hm; left).
    apply missing_bands_spec in Hin as [Hb Hnone].
    destruct (Hall b Hb) as [? ?]. congruence.
Qed.

Lemma in_range_lookup bands m band_type :
  in_range bands m band_type →
  ∃ band_idx a, m !! band_type = Some band_idx
                ∧ 0 ≤ band_idx < Z.of_nat (length bands)
                ∧ bands !! Z.to_nat band_idx = Some a.
Proof.
  intros (idx & Hm & Hr).
  destruct (lookup_lt_is_Some_2 bands (Z.to_nat idx)) as [a Ha]; [lia|].
  eauto.
Qed.

(** The loop goes through when every required band type is in range. *)
Lemma select_bands_ok bands m index_name required_bands : ∀ B,
  Forall (in_range bands m) required_bands →
  ∃ B', select_bands bands m index_name required_bands B = inl B'
        ∧ ∀ b, B' !! b
               = if decide (b ∈ required_bands)
                 then m !! b ≫= λ idx, bands !! Z.to_nat idx
                 else B !! b.
Proof.
  induction required_bands as [|b0 rest IH]; intros B Hall.
  - exists B. split; [done|]. intros b.
    destruct (decide (b ∈ [])) as [Hin|]; [by apply elem_of_nil in Hin|done].
  - apply Forall_cons in Hall as [H0 Hall].
    destruct (in_range_lookup _ _ _ H0) as (idx & a & Hm & Hr & Ha).
    cbn [select_bands]. rewrite Hm.
    replace ((0 <=? idx)%Z && (idx <? Z.of_nat (length bands))%Z)%bool with true
      by (symmetry; apply andb_true_iff; split; [apply Z.leb_le|apply Z.ltb_lt]; lia).
    cbn [negb]. rewrite Ha.
    destruct (IH (<[b0 := a]> B) Hall) as (B' & HB' & Hlook).
    exists B'. split; [done|]. intros b. rewrite Hlook.
    destruct (decide (b ∈ rest)) as [Hin|Hnin];
      destruct (decide (b ∈ b0 :: rest)) as [Hin'|Hnin']; try done.
    + destruct Hnin'. by right.
    + apply elem_of_cons in Hin' as [->|?]; [|done].
      rewrite lookup_insert_eq, Hm. simpl. done.
    + rewrite lookup_insert_ne; [done|]. intros <-. apply Hnin'. left.
Qed.

(** The loop stops at the first required band type that is out of range. *)
Lemma select_bands_out_of_range bands m index_name pre b post band_idx : ∀ B,
  Forall (in_range bands m) pre →
  m !! b = Some band_idx →
  ¬ (0 ≤ band_idx < Z.of_nat (length bands)) →
  select_bands bands m index_name (pre ++ b :: post) B
  = raise (out_of_range_error band_idx b (Z.of_nat (length bands))).
Proof.
  induction pre as [|b0 pre IH]; intros B Hpre Hm Hr; simpl.
  - rewrite Hm.
    replace ((0 <=? band_idx)%Z && (band_idx <? Z.of_nat (length bands))%Z)%bool with false;
      [done|].
    symmetry. apply andb_false_iff.
    destruct (Z.leb_spec 0 band_idx); [|by left].
    right. apply Z.ltb_ge. lia.
  - apply Forall_cons in Hpre as [H0 Hpre].
    destruct (in_range_lookup _ _ _ H0) as (idx & a & Hm0 & Hr0 & Ha).
    rewrite Hm0.
    replace ((0 <=? idx)%Z && (idx <? Z.of_nat (length bands))%Z)%bool with true
      by (symmetry; apply andb_true_iff; split; [apply Z.leb_le|apply Z.ltb_lt]; lia).
    simpl. rewrite Ha. by apply IH.
Qed.

End Validation.

Lemma length_zero_nil {T} (l : list T) : Nat.eqb (length l) 0 = true ↔ l = [].
Proof. destruct l; simpl; split; done. Qed.

Lemma calculate_index_unknown bands m index_name :
  assoc index_name COMMON_INDICES = None →
  calculate_index bands m index_name = raise (unknown_index_error index_name).
Proof. intros H. unfold calculate_index. by rewrite H. Qed.

Lemma calculate_index_missing bands m index_name info :
  assoc index_name COMMON_INDICES = Some info →
  missing_bands (info_bands info) m ≠ [] →
  calculate_index bands m index_name
  = raise (missing_band_error index_name (missing_bands (info_bands info) m)).
Proof.
  intros H Hm. unfold calculate_index. rewrite H.
  destruct (missing_bands (info_bands info) m); done.
Qed.

Lemma calculate_index_selects bands m index_name info :
  assoc index_name COMMON_INDICES = Some info →
  missing_bands (info_bands info) m = [] →
  calculate_index bands m index_name
  = let* B := select_bands bands m index_name (info_bands info) ∅ in
    let* (num_e, den_e) :=
      num_den index_name (default [] (info_params info))
              (fun b => bool_decide (b ∈ dom B)) in
    let* num := eval B num_e in
    let* den := eval B den_e in
    let* index := np_divide num den (full_like num F32.nan) (not_equal_zero den) in
    ret (index, info_description info, info_colormap info, info_range info).
Proof. intros H Hm. unfold calculate_index. by rewrite H, Hm. Qed.

(** The run of [Heap.calculate_index], step by step. *)
Lemma heap_calculate_index_run st bands band_mapping index_name :
  Heap.calculate_index bands band_mapping index_name st
  = match assoc index_name COMMON_INDICES with
    | None => (inr (unknown_index_error index_name), st)
    | Some info =>
        let m := Heap.dict_at st band_mapping in
        if negb (Nat.eqb (length (missing_bands (info_bands info) m)) 0)
        then (inr (missing_band_error index_name
                     (missing_bands (info_bands info) m)), st)
        else
          match select_bands bands m index_name (info_bands info) ∅ with
          | inr e => (inr e, st)
          | inl B =>
              match num_den index_name (default [] (info_params info))
                            (λ b, bool_decide (b ∈ dom B)) with
              | inr e => (inr e, st)
              | inl (num_e, den_e) =>
                  match Heap.eval B num_e st with
                  | (inr e, st1) => (inr e, st1)
                  | (inl num, st1) =>
                      match Heap.eval B den_e st1 with
                      | (inr e, st2) => (inr e, st2)
                      | (inl den, st2) =>
                          match Heap.mbind (Heap.full_like num F32.nan)
                                  (λ out, Heap.mbind (Heap.not_equal_zero den)
                                     (λ mask, Heap.np_divide num den out mask)) st2 with
                          | (inr e, st3) => (inr e, st3)
                          | (inl index, st3) =>
                              (inl (index, info_description info,
                                    info_colormap info, info_range info), st3)
                          end
                      end
                  end
              end
          end
    end.
Proof.
  unfold Heap.calculate_index.
  destruct (assoc index_name COMMON_INDICES) as [info|]; [|done].
  unfold Heap.mbind at 1. unfold Heap.load_dict at 1. cbn zeta.
  destruct (negb _); [done|].
  unfold Heap.mbind at 1. unfold Heap.lift at 1.
  destruct (select_bands _ _ _ _ _) as [B|e]; [|done].
  unfold Heap.mbind at 1. unfold Heap.lift at 1.
  destruct (num_den _ _ _) as [[num_e den_e]|e]; [|done].
  unfold Heap.mbind at 1.
  destruct (Heap.eval B num_e st) as [[num|e] st1]; [|done].
  unfold Heap.mbind at 1.
  destruct (Heap.eval B den_e st1) as [[den|e] st2]; [|done].
  unfold Heap.mbind.
  destruct (Heap.full_like num F32.nan st2) as [[out|e] st3]; [|done].
  destruct (Heap.not_equal_zero den st3) as [[mask|e] st4]; [|done].
  by destruct (Heap.np_divide num den out mask st4) as [[index|e] st5].
Qed.

(** A call that a check stops returns with the store as it was: nothing
    has been computed. *)
Lemma heap_validation_run st bands band_mapping index_name :
  (assoc index_name COMMON_INDICES = None →
   Heap.calculate_index bands band_mapping index_name st
   = (inr (unknown_index_error index_name), st))
  ∧ (∀ info, assoc index_name COMMON_INDICES = Some info →
       missing_bands (info_bands info) (Heap.dict_at st band_mapping) ≠ [] →
       Heap.calculate_index bands band_mapping index_name st
       = (inr (missing_band_error index_name
                 (missing_bands (info_bands info) (Heap.dict_at st band_mapping))), st))
  ∧ (∀ info e, assoc index_name COMMON_INDICES = Some info →
       missing_bands (info_bands info) (Heap.dict_at st band_mapping) = [] →
       select_bands bands (Heap.dict_at st band_mapping) index_name (info_bands info) ∅
       = inr e →
       Heap.calculate_index bands band_mapping index_name st = (inr e, st)).
Proof.
  rewrite heap_calculate_index_run. repeat split.
  - by intros ->.
  - intros info -> Hmiss. cbn zeta.
    by destruct (missing_bands (info_bands info) (Heap.dict_at st band_mapping)).
  - intros info e -> Hmiss Hsel. cbn zeta. by rewrite Hmiss, Hsel.
Qed.

(** C7, as the code has it: the checks of [calculate_index] in their
    order.  An unknown index name is reported first; then the required band
    types that the mapping lacks, all of them and only them, by name; then
    the first required band type whose position is not one of the list of
    bands, by name and position.  Each check raises a [ValueError]: the
    three errors are of one class and are told apart by their messages,
    which are pairwise different.  A call that a check stops returns the
    error only and, over the object store, leaves the store as it was. *)
Theorem validation_order (bands : list ndarray) (m : gmap string Z) (index_name : string) :
  (assoc index_name COMMON_INDICES = None →
   calculate_index bands m index_name = raise (unknown_index_error index_name))
  ∧ (∀ info, assoc index_name COMMON_INDICES = Some info →
       missing_bands (info_bands info) m ≠ [] →
       calculate_index bands m index_name
       = raise (missing_band_error index_name (missing_bands (info_bands info) m))
       ∧ ∀ b, b ∈ missing_bands (info_bands info) m
              ↔ b ∈ info_bands info ∧ m !! b = None)
  ∧ (∀ info pre b post band_idx,
       assoc index_name COMMON_INDICES = Some info →
       missing_bands (info_bands info) m = [] →
       info_bands info = (pre ++ b :: post)%list →
       Forall (in_range bands m) pre →
       m !! b = Some band_idx →
       ¬ (0 ≤ band_idx < Z.of_nat (length bands)) →
       calculate_index bands m index_name
       = raise (out_of_range_error band_idx b (Z.of_nat (length bands))))
  ∧ (∀ n1 n2 n3 l i b k,
       class_of (unknown_index_error n1) = ValueErrorClass
       ∧ class_of (missing_band_error n2 l) = ValueErrorClass
       ∧ class_of (out_of_range_error i b k) = ValueErrorClass
       ∧ unknown_index_error n1 ≠ missing_band_error n2 l
       ∧ unknown_index_error n1 ≠ out_of_range_error i b k
       ∧ missing_band_error n2 l ≠ out_of_range_error i b k
       ∧ missing_band_error n3 l ≠ unknown_index_error n1)
  ∧ (∀ st (refs : list Heap.addr) (dict_ref : Heap.addr),
       (assoc index_name COMMON_INDICES = None →
        Heap.calculate_index refs dict_ref index_name st
        = (inr (unknown_index_error index_name), st))
       ∧ (∀ info, assoc index_name COMMON_INDICES = Some info →
            missing_bands (info_bands info) (Heap.dict_at st dict_ref) ≠ [] →
            Heap.calculate_index refs dict_ref index_name st
            = (inr (missing_band_error index_name
                      (missing_bands (info_bands info) (Heap.dict_at st dict_ref))), st))
       ∧ (∀ info e, assoc index_name COMMON_INDICES = Some info →
            missing_bands (info_bands info) (Heap.dict_at st dict_ref) = [] →
            select_bands refs (Heap.dict_at st dict_ref) index_name (info_bands info) ∅
            = inr e →
            Heap.calculate_index refs dict_ref index_name st = (inr e, st)))
  ∧ calculate_index bands m "FOO" = raise (ValueError "Unknown index: 'FOO'")
  ∧ calculate_index bands (<["Red" := 0]> ∅) "NDVI"
    = raise (ValueError "Missing required band mapping(s) for NDVI: NIR")
  ∧ (∀ a0 a1 a2,
       calculate_index [a0; a1; a2] (<["NIR" := 0]> (<["Red" := 5]> ∅)) "NDVI"
       = raise (ValueError "Mapped index 5 for 'Red' is out of range (0-2).")).
Proof.
  split; [apply calculate_index_unknown|].
  split.
  { intros info Hinfo Hmiss. split; [by apply calculate_index_missing|].
    intros b. apply missing_bands_spec. }
  split.
  { intros info pre b post band_idx Hinfo Hmiss Hcut Hpre Hb Hr.
    rewrite (calculate_index_selects _ _ _ _ Hinfo Hmiss), Hcut.
    by rewrite (select_bands_out_of_range _ _ _ _ _ _ band_idx). }
  split.
  { intros. unfold unknown_index_error, missing_band_error, out_of_range_error.
    repeat split; simpl; discriminate. }
  split; [intros; apply heap_validation_run|].
  split; [reflexivity|]. split; [reflexivity|].
  intros a0 a1 a2. reflexivity.
Qed.

(** C7 as it is stated fails: the three checks do not fail with three
    kinds of error.  At the inputs of the claim an unknown index, a missing
    band type and a position out of range all raise an exception of the
    one class [ValueError]. *)
Lemma error_kinds_are_one_class :
  ∃ unknown missing out_of_range,
    calculate_index [] ∅ "FOO" = raise unknown
    ∧ calculate_index [] (<["Red" := 0]> ∅) "NDVI" = raise missing
    ∧ calculate_index [of_rows [[F32.zero]]; of_rows [[F32.zero]]; of_rows [[F32.zero]]]
                      (<["NIR" := 0]> (<["Red" := 5]> ∅)) "NDVI"
      = raise out_of_range
    ∧ class_of unknown = class_of missing
    ∧ class_of missing = class_of out_of_range.
Proof.
  exists (ValueError "Unknown index: 'FOO'"),
         (ValueError "Missing required band mapping(s) for NDVI: NIR"),
         (ValueError "Mapped index 5 for 'Red' is out of range (0-2).").
  repeat split; reflexivity.
Qed.

(* ===================================================================== *)
(** * Properties of [calculate_index]: arithmetic                         *)
(* ===================================================================== *)

Section Arrays.

Lemma broadcast_dim_same n : broadcast_dim n n = Some n.
Proof. unfold broadcast_dim. by rewrite Nat.eqb_refl. Qed.

Lemma broadcast_shapes_same s : broadcast_shapes s s = Some s.
Proof. destruct s. unfold broadcast_shapes. simpl. by rewrite !broadcast_dim_same. Qed.

Lemma bcell_in_range {T} (a : array T) i j :
  (i < nrows a)%nat → (j < ncols a)%nat → bcell a i j = cell a i j.
Proof.
  intros Hi Hj. unfold bcell.
  destruct (Nat.eqb_spec (nrows a) 1), (Nat.eqb_spec (ncols a) 1);
    f_equal; lia.
Qed.

Lemma zip_with_same_shape {T U V} (f : T → U → V) (a : array T) (b : array U) r c :
  shape a = (r, c) → shape b = (r, c) →
  ∃ x, zip_with f a b = inl x ∧ shape x = (r, c)
       ∧ ∀ i j, (i < r)%nat → (j < c)%nat → cell x i j = f (cell a i j) (cell b i j).
Proof.
  intros Ha Hb. unfold zip_with. rewrite Ha, Hb, broadcast_shapes_same.
  eexists. split; [reflexivity|]. split; [done|].
  injection Ha as <- <-. injection Hb as Hr Hc.
  intros i j Hi Hj. simpl. rewrite !bcell_in_range; [done|lia..].
Qed.

Lemma add_nan_l x : F32.add F32.nan x = F32.nan.
Proof. reflexivity. Qed.
Lemma add_nan_r x : F32.add x F32.nan = F32.nan.
Proof. by destruct x. Qed.
Lemma sub_nan_l x : F32.sub F32.nan x = F32.nan.
Proof. reflexivity. Qed.
Lemma sub_nan_r x : F32.sub x F32.nan = F32.nan.
Proof. by destruct x. Qed.
Lemma mul_nan_l x : F32.mul F32.nan x = F32.nan.
Proof. reflexivity. Qed.
Lemma mul_nan_r x : F32.mul x F32.nan = F32.nan.
Proof. by destruct x. Qed.
Lemma div_nan_r x : F32.div x F32.nan = F32.nan.
Proof. by destruct x. Qed.
Lemma is_nan_eq x : F32.is_nan x = true ↔ x = F32.nan.
Proof. destruct x; simpl; split; done. Qed.
Lemma eqb_zero x : F32.eqb x F32.zero = F32.is_zero x.
Proof. by destruct x as [[]|[]| |[] ? ?]. Qed.

(** A formula over bands of one shape evaluates, to an array of that
    shape, and a not-a-number in a band that it reads is a not-a-number
    of the result. *)
Lemma eval_same_shape (B : gmap string ndarray) r c e :
  (∀ b, b ∈ roles e → ∃ a, B !! b = Some a ∧ shape a = (r, c)) →
  ∃ x, eval B e = inl x ∧ shape x = (r, c)
       ∧ ∀ i j b a, (i < r)%nat → (j < c)%nat →
           b ∈ roles e → B !! b = Some a → cell a i j = F32.nan →
           cell x i j = F32.nan.
Proof.
  induction e as [b0|e1 IH1 e2 IH2|e1 IH1 e2 IH2|e1 IH1 s|e1 IH1 s|s e1 IH1];
    intros Hroles; cbn [eval roles] in Hroles |- *.
  - destruct (Hroles b0) as (a & Ha & Hs); [left|].
    rewrite Ha. exists a. split; [done|]. split; [done|].
    intros i j b a' _ _ ->%list_elem_of_singleton Ha' Hnan. congruence.
  - destruct IH1 as (x1 & -> & Hs1 & Hn1);
      [intros; apply Hroles, elem_of_app; by left|].
    destruct IH2 as (x2 & -> & Hs2 & Hn2);
      [intros; apply Hroles, elem_of_app; by right|].
    cbn [bind].
    destruct (zip_with_same_shape F32.add x1 x2 r c Hs1 Hs2) as (x & -> & Hs & Hc).
    exists x. split; [done|]. split; [done|].
    intros i j b a Hi Hj [Hb|Hb]%elem_of_app Ha Hnan; rewrite Hc by done.
    + by rewrite (Hn1 i j b a), add_nan_l.
    + by rewrite (Hn2 i j b a), add_nan_r.
  - destruct IH1 as (x1 & -> & Hs1 & Hn1);
      [intros; apply Hroles, elem_of_app; by left|].
    destruct IH2 as (x2 & -> & Hs2 & Hn2);
      [intros; apply Hroles, elem_of_app; by right|].
    cbn [bind].
    destruct (zip_with_same_shape F32.sub x1 x2 r c Hs1 Hs2) as (x & -> & Hs & Hc).
    exists x. split; [done|]. split; [done|].
    intros i j b a Hi Hj [Hb|Hb]%elem_of_app Ha Hnan; rewrite Hc by done.
    + by rewrite (Hn1 i j b a), sub_nan_l.
    + by rewrite (Hn2 i j b a), sub_nan_r.
  - destruct IH1 as (x1 & -> & Hs1 & Hn1); [done|]. cbn [bind].
    eexists. split; [reflexivity|]. split; [done|].
    intros i j b a Hi Hj Hb Ha Hnan. simpl.
    by rewrite (Hn1 i j b a), add_nan_l.
  - destruct IH1 as (x1 & -> & Hs1 & Hn1); [done|]. cbn [bind].
    eexists. split; [reflexivity|]. split; [done|].
    intros i j b a Hi Hj Hb Ha Hnan. simpl.
    by rewrite (Hn1 i j b a), mul_nan_l.
  - destruct IH1 as (x1 & -> & Hs1 & Hn1); [done|]. cbn [bind].
    eexists. split; [reflexivity|]. split; [done|].
    intros i j b a Hi Hj Hb Ha Hnan. simpl.
    by rewrite (Hn1 i j b a), mul_nan_r.
Qed.

(** The division of two arrays of one shape into a new array of
    not-a-numbers. *)
Lemma np_divide_same_shape (num den : ndarray) r c :
  shape num = (r, c) → shape den = (r, c) →
  ∃ index,
    np_divide num den (full_like num F32.nan) (not_equal_zero den) = inl index
    ∧ shape index = (r, c)
    ∧ ∀ i j, (i < r)%nat → (j < c)%nat →
        cell index i j
        = if F32.eqb (cell den i j) F32.zero then F32.nan
          else F32.div (cell num i j) (cell den i j).
Proof.
  intros Hn Hd. unfold np_divide.
  rewrite Hn, Hd, broadcast_shapes_same.
  change (shape (not_equal_zero den)) with (shape den).
  rewrite Hd, broadcast_shapes_same.
  change (shape (full_like num F32.nan)) with (shape num).
  rewrite Hn, decide_True by done.
  eexists. split; [reflexivity|]. split; [done|].
  injection Hn as Hnr Hnc. injection Hd as Hdr Hdc.
  intros i j Hi Hj. cbn [cell].
  rewrite (bcell_in_range (not_equal_zero den)) by (cbn; lia).
  rewrite !bcell_in_range by lia. cbn [not_equal_zero map_cells cell].
  by destruct (F32.eqb (cell den i j) F32.zero).
Qed.

End Arrays.

(** For each entry of the registry the formula is defined, and its
    denominator reads exactly the required bands (the numerator reads no
    other). *)
Lemma num_den_registry index_name info (has_band : string → bool) :
  assoc index_name COMMON_INDICES = Some info →
  (∀ b, b ∈ info_bands info → has_band b = true) →
  ∃ num_e den_e,
    num_den index_name (default [] (info_params info)) has_band = inl (num_e, den_e)
    ∧ (∀ b, b ∈ roles num_e → b ∈ info_bands info)
    ∧ (∀ b, b ∈ roles den_e ↔ b ∈ info_bands info).
Proof.
  intros Hinfo Hhas. apply assoc_elem_of in Hinfo.
  unfold COMMON_INDICES in Hinfo.
  repeat (apply elem_of_cons in Hinfo as [[= -> ->]|Hinfo]);
    [..|by apply elem_of_nil in Hinfo];
    try (eexists _, _; split; [reflexivity|]; cbn [roles info_bands app];
         split; intros b; set_solver).
  (* NBR checks that SWIR2 has been selected *)
  unfold num_den. cbn [String.eqb Ascii.eqb Bool.eqb].
  rewrite (Hhas "SWIR2") by (cbn [info_bands]; set_solver).
  eexists _, _. split; [reflexivity|]. cbn [roles info_bands app].
  split; intros b; set_solver.
Qed.

(** What a call that passes the validation returns, cell by cell. *)
Lemma calculate_index_cells (bands : list ndarray) (m : gmap string Z)
    (index_name : string) (info : index_info) (r c : nat) :
  assoc index_name COMMON_INDICES = Some info →
  Forall (λ b, ∃ idx a, m !! b = Some idx ∧ 0 ≤ idx
                        ∧ bands !! Z.to_nat idx = Some a ∧ shape a = (r, c))
         (info_bands info) →
  ∃ B num_e den_e num den index,
    select_bands bands m index_name (info_bands info) ∅ = inl B
    ∧ num_den index_name (default [] (info_params info))
              (λ b, bool_decide (b ∈ dom B)) = inl (num_e, den_e)
    ∧ eval B num_e = inl num
    ∧ eval B den_e = inl den
    ∧ calculate_index bands m index_name
      = inl (index, info_description info, info_colormap info, info_range info)
    ∧ (∀ b, B !! b = if decide (b ∈ info_bands info)
                     then m !! b ≫= λ idx, bands !! Z.to_nat idx
                     else None)
    ∧ shape num = (r, c) ∧ shape den = (r, c) ∧ shape index = (r, c)
    ∧ ∀ i j, (i < r)%nat → (j < c)%nat →
        cell index i j
        = (if F32.eqb (cell den i j) F32.zero then F32.nan
           else F32.div (cell num i j) (cell den i j))
        ∧ ∀ b a, b ∈ info_bands info → B !! b = Some a →
                 cell a i j = F32.nan → cell den i j = F32.nan.
Proof.
  intros Hinfo Hall.
  assert (Hrange : Forall (in_range bands m) (info_bands info)).
  { eapply Forall_impl; [exact Hall|].
    intros b (idx & a & Hm & H0 & Ha & _). exists idx. split; [done|].
    apply lookup_lt_Some in Ha. lia. }
  assert (Hmiss : missing_bands (info_bands info) m = []).
  { apply missing_bands_nil. intros b Hb.
    rewrite Forall_forall in Hall. destruct (Hall b Hb) as (idx & _ & -> & _).
    by eexists. }
  destruct (select_bands_ok bands m index_name (info_bands info) ∅ Hrange)
    as (B & HB & Hlook).
  assert (Hlook' : ∀ b, B !! b = if decide (b ∈ info_bands info)
                                 then m !! b ≫= λ idx, bands !! Z.to_nat idx
                                 else None).
  { intros b. rewrite Hlook. by destruct (decide _). }
  assert (Hshape : ∀ b, b ∈ info_bands info → ∃ a, B !! b = Some a ∧ shape a = (r, c)).
  { intros b Hb. rewrite Forall_forall in Hall.
    destruct (Hall b Hb) as (idx & a & Hm & _ & Ha & Hs).
    exists a. split; [|done]. rewrite Hlook', decide_True by done.
    rewrite Hm. simpl. done. }
  destruct (num_den_registry index_name info (λ b, bool_decide (b ∈ dom B)) Hinfo)
    as (num_e & den_e & Hnd & Hnum & Hden).
  { intros b Hb. apply bool_decide_eq_true, elem_of_dom.
    destruct (Hshape b Hb) as (a & -> & _). by eexists. }
  destruct (eval_same_shape B r c num_e) as (num & Hen & Hsn & _).
  { intros b Hb. by apply Hshape, Hnum. }
  destruct (eval_same_shape B r c den_e) as (den & Hed & Hsd & Hnan).
  { intros b Hb. by apply Hshape, Hden. }
  destruct (np_divide_same_shape num den r c Hsn Hsd) as (index & Hdiv & Hsi & Hcell).
  exists B, num_e, den_e, num, den, index.
  repeat (split; [done|]).
  split.
  { rewrite (calculate_index_selects _ _ _ _ Hinfo Hmiss), HB. cbn [bind].
    rewrite Hnd. cbn [bind]. rewrite Hen, Hed. cbn [bind].
    by rewrite Hdiv. }
  repeat (split; [done|]).
  intros i j Hi Hj. split; [by apply Hcell|].
  intros b a Hb Ha Hn. eapply Hnan; eauto. by apply Hden.
Qed.

(** C1: for every index of the registry and bands of one shape, the call
    returns (it does not raise); where the denominator of the formula is
    zero the result holds the not-a-number, and where one of the bands that
    the index reads holds a not-a-number so does the result.  NDVI of the
    single-pixel bands NIR = 0, Red = 0 is the single-pixel not-a-number. *)
Theorem degenerate_cells_are_nan :
  (∀ (bands : list ndarray) (m : gmap string Z) (index_name : string)
     (info : index_info) (r c : nat),
     assoc index_name COMMON_INDICES = Some info →
     Forall (λ b, ∃ idx a, m !! b = Some idx ∧ 0 ≤ idx
                           ∧ bands !! Z.to_nat idx = Some a ∧ shape a = (r, c))
            (info_bands info) →
     ∃ B num_e den_e den index,
       select_bands bands m index_name (info_bands info) ∅ = inl B
       ∧ num_den index_name (default [] (info_params info))
                 (λ b, bool_decide (b ∈ dom B)) = inl (num_e, den_e)
       ∧ eval B den_e = inl den
       ∧ calculate_index bands m index_name
         = inl (index, info_description info, info_colormap info, info_range info)
       ∧ shape index = (r, c)
       ∧ ∀ i j, (i < r)%nat → (j < c)%nat →
           (F32.eqb (cell den i j) F32.zero = true → cell index i j = F32.nan)
           ∧ (∀ b a, b ∈ info_bands info → B !! b = Some a →
                     cell a i j = F32.nan → cell index i j = F32.nan))
  ∧ ∃ index description colormap value_range,
      calculate_index [of_rows [[F32.zero]]; of_rows [[F32.zero]]]
                      (<["NIR" := 0]> (<["Red" := 1]> ∅)) "NDVI"
      = inl (index, description, colormap, value_range)
      ∧ to_rows index = [[F32.nan]].
Proof.
  split.
  - intros bands m index_name info r c Hinfo Hall.
    destruct (calculate_index_cells bands m index_name info r c Hinfo Hall)
      as (B & num_e & den_e & num & den & index
          & HB & Hnd & Hen & Hed & Hcalc & _ & _ & _ & Hsi & Hcells).
    exists B, num_e, den_e, den, index.
    repeat (split; [done|]).
    intros i j Hi Hj. destruct (Hcells i j Hi Hj) as [Hcell Hnan]. split.
    + intros Hzero. by rewrite Hcell, Hzero.
    + intros b a Hb Ha Hn. rewrite Hcell, (Hnan b a Hb Ha Hn).
      cbn [F32.eqb F32.nan SFeqb SFcompare]. apply div_nan_r.
  - eexists _, _, _, _. split; [reflexivity|]. reflexivity.
Qed.

Lemma degenerate_cells_are_nan_witness :
  ∃ index description colormap value_range,
    calculate_index [of_rows [[F32.zero]]; of_rows [[F32.zero]]]
                    (<["NIR" := 0]> (<["Red" := 1]> ∅)) "NDVI"
    = inl (index, description, colormap, value_range)
    ∧ to_rows index = [[F32.nan]].
Proof. exact (proj2 degenerate_cells_are_nan). Defined.

(** C6: NDVI is (NIR - Red) / (NIR + Red) in every cell where the sum is
    not zero; for NIR = [[3.0]] and Red = [[1.0]] it is [[0.5]]. *)
Theorem ndvi_is_normalized_difference :
  (∀ (bands : list ndarray) (m : gmap string Z) (nir_idx red_idx : Z)
     (NIR Red : ndarray) (r c : nat),
     m !! "NIR" = Some nir_idx → 0 ≤ nir_idx →
     bands !! Z.to_nat nir_idx = Some NIR → shape NIR = (r, c) →
     m !! "Red" = Some red_idx → 0 ≤ red_idx →
     bands !! Z.to_nat red_idx = Some Red → shape Red = (r, c) →
     (∀ i j, (i < r)%nat → (j < c)%nat →
             F32.eqb (F32.add (cell NIR i j) (cell Red i j)) F32.zero = false) →
     ∃ index description colormap value_range,
       calculate_index bands m "NDVI" = inl (index, description, colormap, value_range)
       ∧ shape index = (r, c)
       ∧ ∀ i j, (i < r)%nat → (j < c)%nat →
           cell index i j
           = F32.div (F32.sub (cell NIR i j) (cell Red i j))
                     (F32.add (cell NIR i j) (cell Red i j)))
  ∧ ∃ index description colormap value_range,
      calculate_index [of_rows [[F32.of_Q 3.0]]; of_rows [[F32.of_Q 1.0]]]
                      (<["NIR" := 0]> (<["Red" := 1]> ∅)) "NDVI"
      = inl (index, description, colormap, value_range)
      ∧ to_rows index = [[F32.of_Q 0.5]]
      ∧ float_value (F32.of_Q 0.5) = Some (Qred 0.5).
Proof.
  split.
  - intros bands m nir_idx red_idx NIR Red r c Hn Hn0 Hnb Hns Hr Hr0 Hrb Hrs Hsum.
    edestruct (calculate_index_cells bands m "NDVI" _ r c eq_refl)
      as (B & num_e & den_e & num & den & index
          & HB & Hnd & Hen & Hed & Hcalc & Hlook & Hsn & Hsd & Hsi & Hcells).
    { cbn [info_bands]. repeat constructor.
      - exists nir_idx, NIR. done.
      - exists red_idx, Red. done. }
    assert (HBn : B !! "NIR" = Some NIR).
    { rewrite Hlook, decide_True by (cbn [info_bands]; set_solver).
      rewrite Hn. done. }
    assert (HBr : B !! "Red" = Some Red).
    { rewrite Hlook, decide_True by (cbn [info_bands]; set_solver).
      rewrite Hr. done. }
    injection Hnd as <- <-.
    cbn [eval] in Hen, Hed. rewrite HBn, HBr in Hen, Hed.
    cbn [bind ret] in Hen, Hed.
    destruct (zip_with_same_shape F32.sub NIR Red r c Hns Hrs) as (x & Hx & _ & Hxc).
    destruct (zip_with_same_shape F32.add NIR Red r c Hns Hrs) as (y & Hy & _ & Hyc).
    rewrite Hx in Hen. rewrite Hy in Hed.
    injection Hen as <-. injection Hed as <-.
    eexists index, _, _, _. split; [exact Hcalc|]. split; [done|].
    intros i j Hi Hj. destruct (Hcells i j Hi Hj) as [-> _].
    rewrite Hxc, Hyc by done. by rewrite Hsum.
  - eexists _, _, _, _. split; [reflexivity|]. split; reflexivity.
Qed.

Lemma ndvi_is_normalized_difference_witness :
  ∃ index description colormap value_range,
    calculate_index [of_rows [[F32.of_Q 3.0]]; of_rows [[F32.of_Q 1.0]]]
                    (<["NIR" := 0]> (<["Red" := 1]> ∅)) "NDVI"
    = inl (index, description, colormap, value_range)
    ∧ to_rows index = [[F32.of_Q 0.5]]
    ∧ float_value (F32.of_Q 0.5) = Some (Qred 0.5).
Proof. exact (proj2 ndvi_is_normalized_difference). Defined.

(* ===================================================================== *)
(** * The operations over the object store                                *)
(* ===================================================================== *)

Section HeapRefinement.

Implicit Types (st : Heap.store) (B : gmap string Heap.addr) (Bv : gmap string ndarray).

Lemma array_at_lookup st p a : Heap.arrays st !! p = Some a → Heap.array_at st p = a.
Proof. intros H. unfold Heap.array_at. by apply nth_lookup_Some with (d := Heap.empty_array) in H. Qed.

Lemma selects_extend st new B Bv :
  selects st B Bv → selects (Heap.Store (Heap.arrays st ++ new) (Heap.dicts st)) B Bv.
Proof.
  intros H b. specialize (H b). destruct H as [p a Hp|]; constructor.
  simpl. by apply lookup_app_l_Some.
Qed.

Lemma selects_dom st B Bv : selects st B Bv → dom B = dom Bv.
Proof.
  intros H. apply set_eq. intros b. rewrite !elem_of_dom.
  specialize (H b).
  destruct (B !! b), (Bv !! b); inversion H; split; intros [? ?]; done.
Qed.

(** The run of an operator on two stored arrays. *)
Lemma binary_run f x y a b st :
  Heap.arrays st !! x = Some a → Heap.arrays st !! y = Some b →
  Heap.binary f x y st
  = match zip_with f a b with
    | inl r => (inl (length (Heap.arrays st)), Heap.Store (Heap.arrays st ++ [r]) (Heap.dicts st))
    | inr e => (inr e, st)
    end.
Proof.
  intros Hx Hy. unfold Heap.binary, Heap.mbind, Heap.load, Heap.lift, Heap.alloc.
  rewrite (array_at_lookup _ _ _ Hx), (array_at_lookup _ _ _ Hy).
  by destruct (zip_with f a b).
Qed.

Lemma unary_run f x a st :
  Heap.arrays st !! x = Some a →
  Heap.unary f x st
  = (inl (length (Heap.arrays st)), Heap.Store (Heap.arrays st ++ [map_cells f a]) (Heap.dicts st)).
Proof.
  intros Hx. unfold Heap.unary, Heap.mbind, Heap.load, Heap.alloc.
  by rewrite (array_at_lookup _ _ _ Hx).
Qed.

(** Evaluating a formula over the store computes the array that the
    formula denotes, in a new object unless the formula is a band, and
    leaves every object of the store as it was. *)
Lemma eval_refines B Bv e : ∀ st,
  selects st B Bv →
  ∃ new, (Heap.eval B e st).2 = Heap.Store (Heap.arrays st ++ new) (Heap.dicts st)
         ∧ match eval Bv e with
           | inl a => ∃ p, (Heap.eval B e st).1 = inl p
                           ∧ (Heap.arrays st ++ new) !! p = Some a
           | inr err => (Heap.eval B e st).1 = inr err
           end.
Proof.
  assert (Hbin : ∀ f e1 e2,
    (∀ st, selects st B Bv →
       ∃ new, (Heap.eval B e1 st).2 = Heap.Store (Heap.arrays st ++ new) (Heap.dicts st)
              ∧ match eval Bv e1 with
                | inl a => ∃ p, (Heap.eval B e1 st).1 = inl p
                                ∧ (Heap.arrays st ++ new) !! p = Some a
                | inr err => (Heap.eval B e1 st).1 = inr err
                end) →
    (∀ st, selects st B Bv →
       ∃ new, (Heap.eval B e2 st).2 = Heap.Store (Heap.arrays st ++ new) (Heap.dicts st)
              ∧ match eval Bv e2 with
                | inl a => ∃ p, (Heap.eval B e2 st).1 = inl p
                                ∧ (Heap.arrays st ++ new) !! p = Some a
                | inr err => (Heap.eval B e2 st).1 = inr err
                end) →
    ∀ st, selects st B Bv →
      let run := Heap.mbind (Heap.eval B e1) (λ x, Heap.mbind (Heap.eval B e2) (λ y, Heap.binary f x y)) st in
      ∃ new, run.2 = Heap.Store (Heap.arrays st ++ new) (Heap.dicts st)
             ∧ match bind (eval Bv e1) (λ x, bind (eval Bv e2) (λ y, zip_with f x y)) with
               | inl a => ∃ p, run.1 = inl p ∧ (Heap.arrays st ++ new) !! p = Some a
               | inr err => run.1 = inr err
               end).
  { intros f e1 e2 IH1 IH2 st Hsel. cbn zeta. unfold Heap.mbind.
    destruct (IH1 st Hsel) as (new1 & Hst1 & Hr1).
    destruct (Heap.eval B e1 st) as [r1 st1]. simpl in Hst1, Hr1. subst st1.
    destruct (eval Bv e1) as [a1|err1].
    2:{ rewrite Hr1. exists new1. by split. }
    destruct Hr1 as (p1 & -> & Hp1). cbn [bind].
    destruct (IH2 _ (selects_extend st new1 _ _ Hsel)) as (new2 & Hst2 & Hr2).
    destruct (Heap.eval B e2 _) as [r2 st2]. simpl in Hst2, Hr2. subst st2.
    destruct (eval Bv e2) as [a2|err2].
    2:{ rewrite Hr2. exists (new1 ++ new2). rewrite app_assoc. by split. }
    destruct Hr2 as (p2 & -> & Hp2). cbn [bind].
    rewrite (binary_run f p1 p2 a1 a2); simpl;
      [|by apply lookup_app_l_Some|done].
    destruct (zip_with f a1 a2) as [r|err]; simpl.
    - exists (new1 ++ new2 ++ [r]). rewrite !app_assoc. split; [done|].
      exists (length ((Heap.arrays st ++ new1) ++ new2)). split; [done|].
      by rewrite lookup_app_r, Nat.sub_diag.
    - exists (new1 ++ new2). rewrite !app_assoc. by split. }
  assert (Hun : ∀ f e1,
    (∀ st, selects st B Bv →
       ∃ new, (Heap.eval B e1 st).2 = Heap.Store (Heap.arrays st ++ new) (Heap.dicts st)
              ∧ match eval Bv e1 with
                | inl a => ∃ p, (Heap.eval B e1 st).1 = inl p
                                ∧ (Heap.arrays st ++ new) !! p = Some a
                | inr err => (Heap.eval B e1 st).1 = inr err
                end) →
    ∀ st, selects st B Bv →
      let run := Heap.mbind (Heap.eval B e1) (λ x, Heap.unary f x) st in
      ∃ new, run.2 = Heap.Store (Heap.arrays st ++ new) (Heap.dicts st)
             ∧ match bind (eval Bv e1) (λ x, ret (map_cells f x)) with
               | inl a => ∃ p, run.1 = inl p ∧ (Heap.arrays st ++ new) !! p = Some a
               | inr err => run.1 = inr err
               end).
  { intros f e1 IH1 st Hsel. cbn zeta. unfold Heap.mbind.
    destruct (IH1 st Hsel) as (new1 & Hst1 & Hr1).
    destruct (Heap.eval B e1 st) as [r1 st1]. simpl in Hst1, Hr1. subst st1.
    destruct (eval Bv e1) as [a1|err1].
    2:{ rewrite Hr1. exists new1. by split. }
    destruct Hr1 as (p1 & -> & Hp1). cbn [bind ret].
    rewrite (unary_run f p1 a1) by done. simpl.
    exists (new1 ++ [map_cells f a1]). rewrite !app_assoc. split; [done|].
    exists (length (Heap.arrays st ++ new1)). split; [done|].
    by rewrite lookup_app_r, Nat.sub_diag. }
  induction e as [b0|e1 IH1 e2 IH2|e1 IH1 e2 IH2|e1 IH1 s|e1 IH1 s|s e1 IH1];
    intros st Hsel.
  - cbn [Heap.eval eval]. specialize (Hsel b0).
    destruct (B !! b0) as [p|], (Bv !! b0) as [a|]; inversion Hsel; subst;
      exists []; rewrite app_nil_r; (split; [by destruct st|]); simpl; eauto.
  - by apply (Hbin F32.add).
  - by apply (Hbin F32.sub).
  - by apply (Hun (λ v, F32.add v (F32.of_float s))).
  - by apply (Hun (λ v, F32.mul v (F32.of_float s))).
  - by apply (Hun (λ v, F32.mul (F32.of_float s) v)).
Qed.


Lemma valid_lookup st p :
  (p < length (Heap.arrays st))%nat →
  Heap.arrays st !! p = Some (Heap.array_at st p).
Proof.
  intros H. destruct (lookup_lt_is_Some_2 _ _ H) as [a Ha].
  by rewrite (array_at_lookup _ _ _ Ha).
Qed.

Lemma selects_insert st B Bv b p a :
  selects st B Bv → Heap.arrays st !! p = Some a →
  selects st (<[b := p]> B) (<[b := a]> Bv).
Proof.
  intros H Hp b'. destruct (decide (b = b')) as [->|Hne].
  - rewrite !lookup_insert_eq. by constructor.
  - rewrite !lookup_insert_ne by done. apply H.
Qed.

(** Selecting references and selecting the arrays they refer to go the
    same way. *)
Lemma select_bands_refines st bands m index_name required_bands : ∀ B Bv,
  valid_bands st bands → selects st B Bv →
  match select_bands bands m index_name required_bands B,
        select_bands (Heap.array_at st <$> bands) m index_name required_bands Bv with
  | inl B1, inl Bv1 => selects st B1 Bv1
  | inr e1, inr e2 => e1 = e2
  | _, _ => False
  end.
Proof.
  induction required_bands as [|b rest IH]; intros B Bv Hvalid Hsel;
    cbn [select_bands]; [done|].
  rewrite length_fmap.
  destruct (m !! b) as [idx|]; [|done].
  destruct (negb _); [done|].
  rewrite list_lookup_fmap.
  destruct (bands !! Z.to_nat idx) as [p|] eqn:Hp; cbn [fmap option_fmap option_map]; [|done].
  apply IH; [done|]. apply selects_insert; [done|].
  apply valid_lookup. unfold valid_bands in Hvalid.
  rewrite Forall_forall in Hvalid. apply Hvalid.
  by apply list_elem_of_lookup_2 in Hp.
Qed.

Lemma selects_empty st : selects st ∅ ∅.
Proof. intros b. rewrite !lookup_empty. constructor. Qed.

(** The end of the evaluation: a new array of not-a-numbers, the mask,
    and the division written into the new array. *)
Lemma divide_run st num_p den_p (num den : ndarray) :
  Heap.arrays st !! num_p = Some num → Heap.arrays st !! den_p = Some den →
  Heap.mbind (Heap.full_like num_p F32.nan)
    (λ out, Heap.mbind (Heap.not_equal_zero den_p)
       (λ mask, Heap.np_divide num_p den_p out mask)) st
  = match np_divide num den (full_like num F32.nan) (not_equal_zero den) with
    | inl r => (inl (length (Heap.arrays st)),
                Heap.Store (Heap.arrays st ++ [r]) (Heap.dicts st))
    | inr e => (inr e,
                Heap.Store (Heap.arrays st ++ [full_like num F32.nan]) (Heap.dicts st))
    end.
Proof.
  intros Hn Hd.
  unfold Heap.mbind, Heap.full_like, Heap.not_equal_zero, Heap.np_divide,
    Heap.mbind, Heap.load, Heap.alloc, Heap.mret, Heap.lift, Heap.write.
  rewrite (array_at_lookup _ _ _ Hn).
  set (st1 := Heap.Store (Heap.arrays st ++ [full_like num F32.nan]) (Heap.dicts st)).
  assert (Hn1 : Heap.array_at st1 num_p = num)
    by (apply array_at_lookup; simpl; by apply lookup_app_l_Some).
  assert (Hd1 : Heap.array_at st1 den_p = den)
    by (apply array_at_lookup; simpl; by apply lookup_app_l_Some).
  assert (Ho1 : Heap.array_at st1 (length (Heap.arrays st)) = full_like num F32.nan).
  { apply array_at_lookup. simpl. by rewrite lookup_app_r, Nat.sub_diag. }
  rewrite Hd1, Hn1, Ho1.
  destruct (np_divide num den _ _) as [r|e]; [|done].
  f_equal. unfold st1. simpl. f_equal.
  replace (length (Heap.arrays st)) with (length (Heap.arrays st) + 0)%nat at 1 by lia.
  by rewrite insert_app_r.
Qed.

Lemma num_den_dom index_name ps (K1 K2 : gset string) :
  K1 = K2 →
  num_den index_name ps (λ b, bool_decide (b ∈ K1))
  = num_den index_name ps (λ b, bool_decide (b ∈ K2)).
Proof. by intros ->. Qed.

(** The evaluator over the store returns a new array with the value
    that the evaluator over array values computes from the contents of
    the caller's arrays and dictionary, and only adds arrays to the
    store. *)
Lemma calculate_index_refines st bands band_mapping index_name :
  valid_bands st bands →
  returns_array st (Heap.calculate_index bands band_mapping index_name st)
    (calculate_index (Heap.array_at st <$> bands) (Heap.dict_at st band_mapping)
                     index_name).
Proof.
  intros Hvalid. rewrite heap_calculate_index_run.
  unfold returns_array, calculate_index.
  destruct (assoc index_name COMMON_INDICES) as [info|].
  2:{ exists []. rewrite app_nil_r. split; [by destruct st|done]. }
  cbn zeta. set (m := Heap.dict_at st band_mapping).
  destruct (negb _).
  { exists []. rewrite app_nil_r. split; [by destruct st|done]. }
  pose proof (select_bands_refines st bands m index_name (info_bands info) ∅ ∅
                Hvalid (selects_empty st)) as Hsel.
  destruct (select_bands bands _ _ _ _) as [B|e1],
           (select_bands (Heap.array_at st <$> bands) _ _ _ _) as [Bv|e2];
    try done.
  2:{ subst e2. exists []. rewrite app_nil_r. split; [by destruct st|done]. }
  cbn [bind].
  rewrite (num_den_dom _ _ _ _ (selects_dom _ _ _ Hsel)).
  destruct (num_den _ _ _) as [[num_e den_e]|e].
  2:{ exists []. rewrite app_nil_r. split; [by destruct st|done]. }
  cbn [bind].
  destruct (eval_refines B Bv num_e st Hsel) as (new1 & Hst1 & Hr1).
  destruct (Heap.eval B num_e st) as [r1 st1]. simpl in Hst1, Hr1. subst st1.
  destruct (eval Bv num_e) as [num|e].
  2:{ rewrite Hr1. exists new1. by split. }
  destruct Hr1 as (num_p & -> & Hnum). cbn [bind].
  destruct (eval_refines B Bv den_e _ (selects_extend st new1 _ _ Hsel))
    as (new2 & Hst2 & Hr2).
  destruct (Heap.eval B den_e _) as [r2 st2]. simpl in Hst2, Hr2. subst st2.
  destruct (eval Bv den_e) as [den|e].
  2:{ rewrite Hr2. exists (new1 ++ new2). rewrite app_assoc. by split. }
  destruct Hr2 as (den_p & -> & Hden). cbn [bind].
  set (st2 := Heap.Store ((Heap.arrays st ++ new1) ++ new2) (Heap.dicts st)).
  assert (Hnum2 : Heap.arrays st2 !! num_p = Some num)
    by (simpl; by apply lookup_app_l_Some).
  rewrite (divide_run st2 num_p den_p num den Hnum2 Hden).
  destruct (np_divide num den _ _) as [index|e]; cbn [bind ret fst snd].
  - exists (new1 ++ new2 ++ [index]). rewrite !app_assoc. split; [done|].
    eexists. split; [done|]. simpl.
    by rewrite lookup_app_r, Nat.sub_diag.
  - exists (new1 ++ new2 ++ [full_like num F32.nan]).
    rewrite !app_assoc. by split.
Qed.

End HeapRefinement.

Lemma array_at_extend st new p :
  (p < length (Heap.arrays st))%nat →
  Heap.array_at (Heap.Store (Heap.arrays st ++ new) (Heap.dicts st)) p
  = Heap.array_at st p.
Proof. intros H. unfold Heap.array_at. simpl. by apply app_nth1. Qed.

Lemma valid_bands_extend st new bands :
  valid_bands st bands →
  valid_bands (Heap.Store (Heap.arrays st ++ new) (Heap.dicts st)) bands.
Proof.
  unfold valid_bands. intros H. eapply Forall_impl; [exact H|].
  intros p Hp. simpl in *. rewrite length_app. lia.
Qed.

(** Two calls of the evaluator, one after the other, on the same
    references. *)
Lemma calculate_index_twice st bands band_mapping index_name r1 st1 r2 st2 :
  valid_bands st bands →
  Heap.calculate_index bands band_mapping index_name st = (r1, st1) →
  Heap.calculate_index bands band_mapping index_name st1 = (r2, st2) →
  (∀ p, (p < length (Heap.arrays st))%nat →
        Heap.arrays st1 !! p = Heap.arrays st !! p
        ∧ Heap.arrays st2 !! p = Heap.arrays st !! p)
  ∧ Heap.dicts st1 = Heap.dicts st
  ∧ Heap.dicts st2 = Heap.dicts st
  ∧ match r1, r2 with
    | inl (p1, d1, c1, g1), inl (p2, d2, c2, g2) =>
        (∃ a, Heap.arrays st2 !! p1 = Some a ∧ Heap.arrays st2 !! p2 = Some a)
        ∧ (d1, c1, g1) = (d2, c2, g2)
    | inr e1, inr e2 => e1 = e2
    | _, _ => False
    end.
Proof.
  intros Hvalid Hrun1 Hrun2.
  pose proof (calculate_index_refines st bands band_mapping index_name Hvalid) as H1.
  rewrite Hrun1 in H1. destruct H1 as (new1 & Hst1 & Hv1). simpl in Hst1, Hv1.
  subst st1.
  pose proof (calculate_index_refines _ bands band_mapping index_name
                (valid_bands_extend st new1 bands Hvalid)) as H2.
  rewrite Hrun2 in H2. destruct H2 as (new2 & Hst2 & Hv2). simpl in Hst2, Hv2.
  subst st2.
  replace (Heap.array_at (Heap.Store (Heap.arrays st ++ new1) (Heap.dicts st)) <$> bands)
    with (Heap.array_at st <$> bands) in Hv2.
  2:{ apply Forall_fmap_ext. unfold valid_bands in Hvalid.
      eapply Forall_impl; [exact Hvalid|]. intros p Hp. simpl.
      symmetry. by apply array_at_extend. }
  change (Heap.dict_at (Heap.Store (Heap.arrays st ++ new1) (Heap.dicts st)) band_mapping)
    with (Heap.dict_at st band_mapping) in Hv2.
  split.
  { intros p Hp. simpl. split.
    - by rewrite lookup_app_l.
    - rewrite !lookup_app_l; [done|done|]. rewrite length_app. lia. }
  split; [done|]. split; [done|].
  destruct (calculate_index _ _ _) as [[[[a d] c] g]|e].
  - destruct Hv1 as (p1 & -> & Hp1). destruct Hv2 as (p2 & -> & Hp2).
    split; [|done]. exists a. split; [|done].
    simpl in *. by apply lookup_app_l_Some.
  - by rewrite Hv1, Hv2.
Qed.

(** C9: the three operations over the object store.  A call of the
    evaluator leaves every array and dictionary that existed before it as
    it was, and a second call on the same arguments raises the same error
    or returns an array with the same cells and the same metadata; the
    resolver leaves the store as it is and its result depends on the
    contents of the dictionary only; the guesser leaves every object as it
    was and returns a new dictionary whose contents depend on the names
    only. *)
Theorem operations_deterministic_and_pure :
  (∀ st bands band_mapping index_name r1 st1 r2 st2,
     valid_bands st bands →
     Heap.calculate_index bands band_mapping index_name st = (r1, st1) →
     Heap.calculate_index bands band_mapping index_name st1 = (r2, st2) →
     (∀ p, (p < length (Heap.arrays st))%nat →
           Heap.arrays st1 !! p = Heap.arrays st !! p
           ∧ Heap.arrays st2 !! p = Heap.arrays st !! p)
     ∧ Heap.dicts st1 = Heap.dicts st
     ∧ Heap.dicts st2 = Heap.dicts st
     ∧ match r1, r2 with
       | inl (p1, d1, c1, g1), inl (p2, d2, c2, g2) =>
           (∃ a, Heap.arrays st2 !! p1 = Some a ∧ Heap.arrays st2 !! p2 = Some a)
           ∧ (d1, c1, g1) = (d2, c2, g2)
       | inr e1, inr e2 => e1 = e2
       | _, _ => False
       end)
  ∧ (∀ st band_mapping,
       Heap.get_available_indices band_mapping st
       = (inl (get_available_indices (Heap.dict_at st <$> band_mapping)), st))
  ∧ (∀ st band_names,
       Heap.guess_band_types band_names st
       = (inl (length (Heap.dicts st)),
          Heap.Store (Heap.arrays st)
                     (Heap.dicts st ++ [guess_band_types band_names])))
  ∧ (∀ st band_names r1 st1 r2 st2,
       Heap.guess_band_types band_names st = (r1, st1) →
       Heap.guess_band_types band_names st1 = (r2, st2) →
       Heap.arrays st2 = Heap.arrays st
       ∧ (∀ p, (p < length (Heap.dicts st))%nat →
               Heap.dicts st2 !! p = Heap.dicts st !! p)
       ∧ ∃ p1 p2, r1 = inl p1 ∧ r2 = inl p2
                  ∧ Heap.dicts st2 !! p1 = Some (guess_band_types band_names)
                  ∧ Heap.dicts st2 !! p2 = Some (guess_band_types band_names)).
Proof.
  split; [apply calculate_index_twice|].
  split; [by intros st [p|]|].
  split; [done|].
  intros st band_names r1 st1 r2 st2 [= <- <-] [= <- <-]. simpl.
  split; [done|]. split.
  - intros p Hp. rewrite !lookup_app_l; [done|done|]. rewrite length_app. lia.
  - eexists _, _. split; [done|]. split; [done|]. split.
    + rewrite lookup_app_l by (rewrite length_app; simpl; lia).
      by rewrite lookup_app_r, Nat.sub_diag.
    + by rewrite lookup_app_r, Nat.sub_diag.
Qed.

Lemma operations_deterministic_and_pure_witness :
  Heap.dicts (Heap.calculate_index [0%nat; 1%nat] 0%nat "NDVI" example_store).2
  = Heap.dicts example_store.
Proof.
  refine (proj1 (proj2 (proj1 operations_deterministic_and_pure
            example_store [0%nat; 1%nat] 0%nat "NDVI" _ _ _ _ _
            (surjective_pairing _) (surjective_pairing _)))).
  repeat constructor.
Defined.

(* ===================================================================== *)
(** * Which positions the guesser can return                              *)
(* ===================================================================== *)

Lemma in_bounds_insert n m r p :
  in_bounds n m → 0 ≤ p < n → in_bounds n (<[r := p]> m).
Proof.
  intros Hm Hp r' q. destruct (decide (r = r')) as [->|Hne].
  - rewrite lookup_insert_eq. by intros [= <-].
  - rewrite lookup_insert_ne by done. apply Hm.
Qed.

Lemma scan_types_in_bounds table band_names : ∀ st,
  in_bounds (Z.of_nat (length band_names)) (band_mapping st) →
  in_bounds (Z.of_nat (length band_names))
            (band_mapping (scan_types table band_names st)).
Proof.
  induction table as [|[band_type type_patterns] rest IH]; intros st Hst;
    cbn [scan_types]; [done|].
  destruct (decide (band_type ∈ dom (band_mapping st))) as [|Hfresh]; [by apply IH|].
  apply IH. destruct st as [m A]. rewrite scan_names_spec by done.
  destruct (first_match _ _ _ _) as [j|] eqn:Hfm; [|done].
  apply first_match_Some in Hfm as (_ & Hj & _).
  apply in_bounds_insert; [done|lia].
Qed.

Lemma fallback_one_in_bounds n role p st :
  in_bounds n (band_mapping st) → 0 ≤ p < n →
  in_bounds n (band_mapping (fallback_one role p st)).
Proof.
  intros Hst Hp. unfold fallback_one. destruct (decide _); [|done].
  by apply in_bounds_insert.
Qed.

(** The fallback stays within the bands unless there are exactly four. *)
Lemma fallback_in_bounds n st :
  n ≠ 4 → in_bounds n (band_mapping st) → in_bounds n (band_mapping (fallback n st)).
Proof.
  intros Hn Hst. unfold fallback.
  destruct (decide (n >= 4)); [|destruct (decide (n = 3))].
  - do 4 (apply fallback_one_in_bounds; [|lia]). done.
  - do 3 (apply fallback_one_in_bounds; [|lia]). done.
  - done.
Qed.

(** X1: when the number of bands is not four, every position that the
    guesser assigns is a position of the list of names. *)
Theorem positions_in_range_unless_four_bands
    (band_names : list string) (r : string) (p : Z) :
  length band_names ≠ 4%nat →
  guess_band_types band_names !! r = Some p →
  0 ≤ p < Z.of_nat (length band_names).
Proof.
  intros Hlen. rewrite guess_band_types_unfold. destruct band_names as [|nm rest].
  { by rewrite lookup_empty. }
  revert r p. change (in_bounds (Z.of_nat (length (nm :: rest)))
                               (guess_before_rename (nm :: rest))).
  unfold guess_before_rename. apply fallback_in_bounds; [lia|].
  apply scan_types_in_bounds. intros r p H. cbn [band_mapping] in H.
  by rewrite lookup_empty in H.
Qed.

Lemma positions_in_range_unless_four_bands_witness :
  0 ≤ 1 < Z.of_nat (length ["B4"; "B8"; "B3"]).
Proof.
  apply (positions_in_range_unless_four_bands ["B4"; "B8"; "B3"] "NIR" 1).
  - simpl. lia.
  - vm_compute. reflexivity.
Defined.

(* ===================================================================== *)
(** * Checks of the embedding                                             *)
(* ===================================================================== *)

(** Every pattern of the table is in the fragment that [Re] reads. *)
Example patterns_are_read :
  forallb (λ entry, forallb (λ pattern, bool_decide (is_Some (Re.parse pattern)))
                            entry.2) patterns = true.
Proof. vm_compute. reflexivity. Qed.

(** The operators of the EVI line associate as Python's do. *)
Example evi_formula (has_band : string → bool) :
  num_den "EVI" [("G", lit 2.5); ("C1", lit 6.0); ("C2", lit 7.5); ("L", lit 1.0)] has_band
  = inl (ScalarMul (lit 2.5) (Sub (Band "NIR") (Band "Red")),
         AddScalar
           (Sub (Add (Band "NIR") (ScalarMul (lit 6.0) (Band "Red")))
                (ScalarMul (lit 7.5) (Band "Blue")))
           (lit 1.0)).
Proof. reflexivity. Qed.

(** The single-precision arithmetic on the known values: 3 - 1 = 2,
    3 + 1 = 4 and 2 / 4 = 0.5. *)
Example known_value_arithmetic :
  float_value (F32.sub (F32.of_Q 3.0) (F32.of_Q 1.0)) = Some (Qred 2)
  ∧ float_value (F32.add (F32.of_Q 3.0) (F32.of_Q 1.0)) = Some (Qred 4)
  ∧ float_value (F32.div (F32.sub (F32.of_Q 3.0) (F32.of_Q 1.0))
                         (F32.add (F32.of_Q 3.0) (F32.of_Q 1.0))) = Some (Qred 0.5).
Proof. repeat split; vm_compute; reflexivity. Qed.

(** The names of a Sentinel-2 stack: the first name that matches any NIR
    pattern is [B5]. *)
Example sentinel2_names :
  guess_band_types ["B1"; "B2"; "B3"; "B4"; "B5"; "B6"; "B7"; "B8"; "B8A";
                    "B9"; "B11"; "B12"] !! "NIR" = Some 4.
Proof. vm_compute. reflexivity. Qed.

(* ===================================================================== *)
(** * More on availability and evaluation                                 *)
(* ===================================================================== *)

Lemma available_loop_app items (K : gset string) : ∀ acc,
  available_loop items K acc
  = acc ++ (filter (λ entry, issubset (info_bands entry.2) K = true) items).*1.
Proof.
  induction items as [|[n info] items IH]; intros acc; cbn [available_loop].
  - by rewrite app_nil_r.
  - rewrite filter_cons. cbn [snd].
    destruct (issubset (info_bands info) K) eqn:Hsub.
    + rewrite decide_True by done. rewrite IH, <- app_assoc. done.
    + rewrite decide_False by done. apply IH.
Qed.

Lemma available_spec (m : gmap string Z) index_name info :
  assoc index_name COMMON_INDICES = Some info →
  index_name ∈ get_available_indices (Some m)
  ↔ ∀ b, b ∈ info_bands info → b ∈ dom m.
Proof.
  intros Hinfo. apply assoc_elem_of in Hinfo as Hin.
  unfold get_available_indices. destruct (decide (m = ∅)) as [->|Hne].
  - split; [intros H; by apply elem_of_nil in H|].
    intros Hall. exfalso.
    pose proof registry_bands_nonempty as Hnon.
    rewrite Forall_forall in Hnon. specialize (Hnon _ Hin). simpl in Hnon.
    destruct (info_bands info) as [|b bs]; [done|].
    assert (Hb : b ∈ dom (∅ : gmap string Z)) by (apply Hall; left).
    rewrite dom_empty_L in Hb. by apply not_elem_of_empty in Hb.
  - rewrite available_loop_spec, <- issubset_spec. split.
    + intros [H|(info' & Hin' & Hs)]; [by apply elem_of_nil in H|].
      apply (elem_of_assoc _ _ _ registry_NoDup) in Hin, Hin'.
      congruence.
    + intros Hs. right. eauto.
Qed.

Lemma available_in_registry (om : option (gmap string Z)) index_name :
  index_name ∈ get_available_indices om →
  ∃ info, assoc index_name COMMON_INDICES = Some info.
Proof.
  destruct om as [m|]; cbn [get_available_indices];
    [|intros H; by apply elem_of_nil in H].
  destruct (decide (m = ∅)); [intros H; by apply elem_of_nil in H|].
  rewrite available_loop_spec.
  intros [H|(info & Hin & _)]; [by apply elem_of_nil in H|].
  exists info. by apply (elem_of_assoc _ _ _ registry_NoDup).
Qed.

(** X2: mapping more band types never removes an index from the list. *)
Theorem available_monotone (m1 m2 : gmap string Z) (index_name : string) :
  dom m1 ⊆ dom m2 →
  index_name ∈ get_available_indices (Some m1) →
  index_name ∈ get_available_indices (Some m2).
Proof.
  intros Hsub Hin.
  destruct (available_in_registry _ _ Hin) as [info Hinfo].
  rewrite (available_spec m1 _ _ Hinfo) in Hin.
  rewrite (available_spec m2 _ _ Hinfo).
  intros b Hb. by apply Hsub, Hin.
Qed.

Lemma available_monotone_witness :
  "NDVI" ∈ get_available_indices
             (Some (<["Blue" := 2]> (<["NIR" := 0]> (<["Red" := 1]> ∅)))).
Proof.
  apply (available_monotone (<["NIR" := 0]> (<["Red" := 1]> ∅))).
  - rewrite !dom_insert_L. set_solver.
  - vm_compute. left.
Defined.

(** X3: the list keeps the order of the registry, has no repeats, and
    depends on which band types are mapped only, not on their positions. *)
Theorem available_in_registry_order (om : option (gmap string Z)) :
  sublist (get_available_indices om) (COMMON_INDICES.*1)
  ∧ NoDup (get_available_indices om)
  ∧ ∀ m1 m2 : gmap string Z,
      dom m1 = dom m2 →
      get_available_indices (Some m1) = get_available_indices (Some m2).
Proof.
  assert (Hsub : sublist (get_available_indices om) (COMMON_INDICES.*1)).
  { destruct om as [m|]; cbn [get_available_indices]; [|apply sublist_nil_l].
    destruct (decide (m = ∅)); [apply sublist_nil_l|].
    rewrite available_loop_app, app_nil_l.
    apply fmap_sublist, sublist_filter. }
  split; [done|]. split.
  - eapply sublist_NoDup; [apply registry_NoDup|exact Hsub].
  - intros m1 m2 Hdom. cbn [get_available_indices].
    destruct (decide (m1 = ∅)) as [->|H1], (decide (m2 = ∅)) as [->|H2].
    + done.
    + rewrite dom_empty_L in Hdom. symmetry in Hdom.
      by apply dom_empty_iff_L in Hdom.
    + rewrite dom_empty_L in Hdom. by apply dom_empty_iff_L in Hdom.
    + by rewrite Hdom.
Qed.

(** X4: the list and the evaluator agree.  An index of the registry that
    is not listed makes the evaluator raise the missing-band error, with
    the band types that are missing; an index that is listed passes that
    check, and is evaluated without error when its bands are mapped to
    positions of the list of bands and the bands have one shape. *)
Theorem listed_iff_no_missing_band (bands : list ndarray) (m : gmap string Z)
    (index_name : string) (info : index_info) :
  assoc index_name COMMON_INDICES = Some info →
  (index_name ∉ get_available_indices (Some m) →
   missing_bands (info_bands info) m ≠ []
   ∧ calculate_index bands m index_name
     = raise (missing_band_error index_name (missing_bands (info_bands info) m)))
  ∧ (index_name ∈ get_available_indices (Some m) →
     missing_bands (info_bands info) m = []
     ∧ ∀ r c,
         Forall (λ a, shape a = (r, c)) bands →
         in_bounds (Z.of_nat (length bands)) m →
         ∃ index,
           calculate_index bands m index_name
           = inl (index, info_description info, info_colormap info, info_range info)
           ∧ shape index = (r, c)).
Proof.
  intros Hinfo. rewrite (available_spec _ _ _ Hinfo). split.
  - intros Hnot.
    assert (Hmiss : missing_bands (info_bands info) m ≠ []).
    { intros Hnil. apply Hnot. intros b Hb. apply elem_of_dom.
      by eapply missing_bands_nil. }
    split; [done|]. by apply calculate_index_missing.
  - intros Hall. split.
    { apply missing_bands_nil. intros b Hb. by apply elem_of_dom, Hall. }
    intros r c Hshape Hrange.
    destruct (calculate_index_cells bands m index_name info r c Hinfo)
      as (B & num_e & den_e & num & den & index & _ & _ & _ & _ & Hcalc & _ & _ & _ & Hs & _).
    { apply Forall_forall. intros b Hb.
      destruct (proj1 (elem_of_dom _ _) (Hall b Hb)) as [idx Hidx].
      destruct (Hrange _ _ Hidx) as [H0 Hlt].
      destruct (lookup_lt_is_Some_2 bands (Z.to_nat idx)) as [a Ha]; [lia|].
      exists idx, a. repeat split; try done.
      rewrite Forall_forall in Hshape. apply Hshape.
      by eapply list_elem_of_lookup_2. }
    by exists index.
Qed.

Lemma listed_iff_no_missing_band_witness :
  "EVI" ∉ get_available_indices (Some (<["NIR" := 0]> (<["Red" := 1]> ∅)))
  ∧ calculate_index [] (<["NIR" := 0]> (<["Red" := 1]> ∅)) "EVI"
    = raise (ValueError "Missing required band mapping(s) for EVI: Blue").
Proof.
  assert (Hnot : "EVI" ∉ get_available_indices (Some (<["NIR" := 0]> (<["Red" := 1]> ∅)))).
  { vm_compute. intros H. repeat (apply elem_of_cons in H as [H|H]; [discriminate|]).
    by apply elem_of_nil in H. }
  split; [exact Hnot|].
  edestruct (listed_iff_no_missing_band [] (<["NIR" := 0]> (<["Red" := 1]> ∅)) "EVI" _ eq_refl)
    as [Hmissing _].
  exact (proj2 (Hmissing Hnot)).
Defined.

Lemma missing_bands_ext required_bands (m1 m2 : gmap string Z) :
  (∀ b, b ∈ required_bands → m1 !! b = m2 !! b) →
  missing_bands required_bands m1 = missing_bands required_bands m2.
Proof.
  intros Hagree. unfold missing_bands. apply List.filter_ext_in.
  intros b Hb%list_elem_of_In. apply bool_decide_ext.
  rewrite !not_elem_of_dom. by rewrite (Hagree b Hb).
Qed.

Lemma select_bands_ext {T} (bands1 bands2 : list T) (m1 m2 : gmap string Z)
    index_name required_bands : ∀ B,
  length bands1 = length bands2 →
  (∀ b, b ∈ required_bands → m1 !! b = m2 !! b) →
  (∀ b idx, b ∈ required_bands → m1 !! b = Some idx →
            bands1 !! Z.to_nat idx = bands2 !! Z.to_nat idx) →
  select_bands bands1 m1 index_name required_bands B
  = select_bands bands2 m2 index_name required_bands B.
Proof.
  induction required_bands as [|b rest IH]; intros B Hlen Hm Hb; [done|].
  cbn [select_bands]. rewrite <- (Hm b) by left. rewrite <- Hlen.
  destruct (m1 !! b) as [idx|] eqn:Hidx; [|done].
  destruct (negb _); [done|].
  rewrite <- (Hb b idx) by (done || left).
  destruct (bands1 !! Z.to_nat idx); [|done].
  apply IH; [done|..].
  - intros b' Hb'. apply Hm. by right.
  - intros b' idx' Hb'. apply Hb. by right.
Qed.

(** X5: an index depends on the bands that it requires only.  Two calls
    whose lists of bands have one length, and whose mappings and bands
    agree on the required band types, give the same result or the same
    error. *)
Theorem only_required_bands_matter (bands1 bands2 : list ndarray)
    (m1 m2 : gmap string Z) (index_name : string) (info : index_info) :
  assoc index_name COMMON_INDICES = Some info →
  length bands1 = length bands2 →
  (∀ b, b ∈ info_bands info → m1 !! b = m2 !! b) →
  (∀ b idx, b ∈ info_bands info → m1 !! b = Some idx →
            bands1 !! Z.to_nat idx = bands2 !! Z.to_nat idx) →
  calculate_index bands1 m1 index_name = calculate_index bands2 m2 index_name.
Proof.
  intros Hinfo Hlen Hm Hb. unfold calculate_index. rewrite Hinfo.
  rewrite (missing_bands_ext _ m1 m2 Hm).
  by rewrite (select_bands_ext bands1 bands2 m1 m2 _ _ ∅ Hlen Hm Hb).
Qed.

Lemma only_required_bands_matter_witness :
  calculate_index [of_rows [[F32.of_Q 3.0]]; of_rows [[F32.of_Q 1.0]]; of_rows [[F32.nan]]]
                  (<["NIR" := 0]> (<["Red" := 1]> (<["Blue" := 2]> ∅))) "NDVI"
  = calculate_index [of_rows [[F32.of_Q 3.0]]; of_rows [[F32.of_Q 1.0]]; of_rows []]
                    (<["NIR" := 0]> (<["Red" := 1]> ∅)) "NDVI".
Proof.
  eapply only_required_bands_matter; [reflexivity|reflexivity|..].
  - intros b Hb. cbn [info_bands] in Hb.
    repeat (apply elem_of_cons in Hb as [->|Hb]; [reflexivity|]).
    by apply elem_of_nil in Hb.
  - intros b idx Hb. cbn [info_bands] in Hb.
    repeat (apply elem_of_cons in Hb as [->|Hb];
            [intros Hidx; vm_compute in Hidx; injection Hidx as <-; reflexivity|]).
    by apply elem_of_nil in Hb.
Defined.

Lemma select_bands_any_name {T} (bands : list T) (m : gmap string Z)
    name1 name2 required_bands : ∀ B,
  match select_bands bands m name1 required_bands B,
        select_bands bands m name2 required_bands B with
  | inl B1, inl B2 => B1 = B2
  | inr _, inr _ => True
  | _, _ => False
  end.
Proof.
  induction required_bands as [|b rest IH]; intros B; cbn [select_bands]; [done|].
  destruct (m !! b) as [idx|]; [|done].
  destruct (negb _); [done|].
  destruct (bands !! Z.to_nat idx); [apply IH|done].
Qed.

(** X6: MNDWI and NDSI are one formula.  On the same bands and mapping
    both calls fail, or both return the same array, colormap and range. *)
Theorem mndwi_and_ndsi_agree (bands : list ndarray) (m : gmap string Z) :
  match calculate_index bands m "MNDWI", calculate_index bands m "NDSI" with
  | inl (index1, _, colormap1, range1), inl (index2, _, colormap2, range2) =>
      index1 = index2 ∧ colormap1 = colormap2 ∧ range1 = range2
  | inr _, inr _ => True
  | _, _ => False
  end.
Proof.
  unfold calculate_index.
  destruct (assoc "MNDWI" COMMON_INDICES) as [info1|] eqn:Hinfo1;
    [|by vm_compute in Hinfo1].
  destruct (assoc "NDSI" COMMON_INDICES) as [info2|] eqn:Hinfo2;
    [|by vm_compute in Hinfo2].
  vm_compute in Hinfo1, Hinfo2.
  injection Hinfo1 as <-. injection Hinfo2 as <-.
  cbn [info_bands info_params info_description info_colormap info_range default].
  destruct (negb _); [done|].
  pose proof (select_bands_any_name bands m "MNDWI" "NDSI" ["Green"; "SWIR1"] ∅) as Hsel.
  destruct (select_bands bands m "MNDWI" _ _) as [B1|e1],
           (select_bands bands m "NDSI" _ _) as [B2|e2]; try done.
  subst B2. cbn [bind].
  change (num_den "MNDWI" [] (λ b, bool_decide (b ∈ dom B1)))
    with (@inl _ exn (Sub (Band "Green") (Band "SWIR1"), Add (Band "Green") (Band "SWIR1"))).
  change (num_den "NDSI" [] (λ b, bool_decide (b ∈ dom B1)))
    with (@inl _ exn (Sub (Band "Green") (Band "SWIR1"), Add (Band "Green") (Band "SWIR1"))).
  cbn [bind].
  destruct (eval B1 _) as [num|e]; [|done]. cbn [bind].
  destruct (eval B1 _) as [den|e]; [|done]. cbn [bind].
  by destruct (np_divide _ _ _ _).
Qed.

(* ===================================================================== *)
(** * More on [guess_band_types]                                          *)
(* ===================================================================== *)

Lemma scan_names_lower band_type type_patterns names1 : ∀ names2 i st,
  lower <$> names1 = lower <$> names2 →
  scan_names band_type type_patterns i names1 st
  = scan_names band_type type_patterns i names2 st.
Proof.
  induction names1 as [|n1 rest1 IH]; intros [|n2 rest2] i st Heq;
    try done.
  rewrite !fmap_cons in Heq. injection Heq as Hhead Hrest.
  cbn [scan_names]. rewrite Hhead.
  destruct (decide _); [by apply IH|].
  destruct (decide _); [done|by apply IH].
Qed.

Lemma scan_types_lower table names1 names2 : ∀ st,
  lower <$> names1 = lower <$> names2 →
  scan_types table names1 st = scan_types table names2 st.
Proof.
  induction table as [|[band_type type_patterns] rest IH]; intros st Heq; [done|].
  cbn [scan_types]. destruct (decide _); [by apply IH|].
  rewrite (scan_names_lower _ _ names1 names2) by done. by apply IH.
Qed.

(** X7: the case of the letters of the names has no effect.  Two lists of
    names that are equal after [lower] are given the same mapping. *)
Theorem letter_case_is_ignored (band_names1 band_names2 : list string) :
  lower <$> band_names1 = lower <$> band_names2 →
  guess_band_types band_names1 = guess_band_types band_names2.
Proof.
  intros Heq. rewrite !guess_band_types_unfold.
  assert (Hlen : length band_names1 = length band_names2).
  { by rewrite <- (length_fmap lower band_names1), Heq, length_fmap. }
  destruct band_names1, band_names2; try done.
  unfold guess_before_rename.
  by rewrite Hlen, (scan_types_lower _ _ _ _ Heq).
Qed.

Lemma letter_case_is_ignored_witness :
  guess_band_types ["NIR (B8)"; "Red"; "SWIR 1.6"]
  = guess_band_types ["nir (b8)"; "RED"; "Swir 1.6"].
Proof. apply letter_case_is_ignored. reflexivity. Defined.

Lemma scan_names_entry band_type type_patterns names st r p :
  band_type ∉ dom (band_mapping st) →
  band_mapping (scan_names band_type type_patterns 0 names st) !! r = Some p →
  band_mapping st !! r = Some p
  ∨ (r = band_type ∧ 0 ≤ p
     ∧ ∃ name, names !! Z.to_nat p = Some name
               ∧ matches_any type_patterns (lower name) = true).
Proof.
  destruct st as [m A]. intros Hfresh. rewrite scan_names_spec by done.
  destruct (first_match _ _ _ _) as [j|] eqn:Hfm; simpl; [|by left].
  apply first_match_Some in Hfm as (_ & Hj & name & Hname & Hm).
  rewrite Z.sub_0_r in Hname.
  destruct (decide (r = band_type)) as [->|Hne].
  - rewrite lookup_insert_eq. intros [= <-]. right. eauto 6 with lia.
  - rewrite lookup_insert_ne by done. by left.
Qed.

Lemma scan_types_entry table names r p : ∀ st,
  band_mapping (scan_types table names st) !! r = Some p →
  band_mapping st !! r = Some p
  ∨ ∃ type_patterns name,
      (r, type_patterns) ∈ table ∧ 0 ≤ p
      ∧ names !! Z.to_nat p = Some name
      ∧ matches_any type_patterns (lower name) = true.
Proof.
  induction table as [|[band_type type_patterns] rest IH]; intros st; [by left|].
  cbn [scan_types]. destruct (decide _) as [Hin|Hfresh].
  - intros [?|(tp & name & Hin' & ?)]%IH; [by left|right].
    exists tp, name. split; [by right|done].
  - intros [Hr|(tp & name & Hin' & ?)]%IH.
    + apply scan_names_entry in Hr; [|done].
      destruct Hr as [?|(-> & ? & name & ? & ?)]; [by left|].
      right. exists type_patterns, name. split; [by left|done].
    + right. exists tp, name. split; [by right|done].
Qed.

Lemma fallback_one_entry role q st r p :
  band_mapping (fallback_one role q st) !! r = Some p →
  band_mapping st !! r = Some p ∨ (r = role ∧ p = q).
Proof.
  unfold fallback_one. destruct (decide _); [|by left]. simpl.
  destruct (decide (r = role)) as [->|Hne].
  - rewrite lookup_insert_eq. intros [= <-]. by right.
  - rewrite lookup_insert_ne by done. by left.
Qed.

(** X8: every entry of the mapping has a reason.  The band at the position
    has a name in which a pattern of the band type is found, or the entry
    is one of the fallback for that number of bands. *)
Theorem entries_are_justified (band_names : list string) (band_type : string) (p : Z) :
  guess_band_types band_names !! band_type = Some p →
  (∃ type_patterns name,
      (band_type, type_patterns) ∈ patterns ∧ 0 ≤ p
      ∧ band_names !! Z.to_nat p = Some name
      ∧ matches_any type_patterns (lower name) = true)
  ∨ ((4 ≤ length band_names)%nat
     ∧ (band_type, p) ∈ [("Blue", 1); ("Green", 2); ("Red", 3); ("NIR", 4)])
  ∨ (length band_names = 3%nat
     ∧ (band_type, p) ∈ [("Red", 0); ("Green", 1); ("Blue", 2)]).
Proof.
  rewrite guess_band_types_unfold.
  destruct band_names as [|name0 rest]; [by rewrite lookup_empty|].
  generalize (name0 :: rest). clear name0 rest. intros band_names.
  unfold guess_before_rename, fallback.
  generalize patterns. intros table.
  destruct (decide _) as [Hn|Hn]; [|destruct (decide _) as [Hn3|Hn3]].
  - intros H.
    repeat (apply fallback_one_entry in H as [H|[-> ->]];
            [|right; left; split; [lia|set_solver]]).
    apply scan_types_entry in H as [H|H]; [|by left].
    cbn [band_mapping] in H. by rewrite lookup_empty in H.
  - intros H.
    repeat (apply fallback_one_entry in H as [H|[-> ->]];
            [|right; right; split; [lia|set_solver]]).
    apply scan_types_entry in H as [H|H]; [|by left].
    cbn [band_mapping] in H. by rewrite lookup_empty in H.
  - intros H.
    apply scan_types_entry in H as [H|H]; [|by left].
    cbn [band_mapping] in H. by rewrite lookup_empty in H.
Qed.

Lemma entries_are_justified_witness :
  (∃ type_patterns name,
      ("NIR", type_patterns) ∈ patterns ∧ 0 ≤ 1
      ∧ ["B4"; "B8"; "B3"] !! Z.to_nat 1 = Some name
      ∧ matches_any type_patterns (lower name) = true)
  ∨ ((4 ≤ length ["B4"; "B8"; "B3"])%nat
     ∧ ("NIR", 1) ∈ [("Blue", 1); ("Green", 2); ("Red", 3); ("NIR", 4)])
  ∨ (length ["B4"; "B8"; "B3"] = 3%nat
     ∧ ("NIR", 1) ∈ [("Red", 0); ("Green", 1); ("Blue", 2)]).
Proof. apply entries_are_justified. vm_compute. reflexivity. Defined.

Lemma first_match_none type_patterns names : ∀ i A,
  Forall (λ name, matches_any type_patterns (lower name) = false) names →
  first_match type_patterns i names A = None.
Proof.
  induction names as [|name rest IH]; intros i A Hall; [done|].
  apply Forall_cons in Hall as [Hname Hrest].
  cbn [first_match]. rewrite Hname. destruct (decide _); by apply IH.
Qed.

Lemma scan_types_none table names : ∀ st,
  Forall (λ name, Forall (λ entry : string * list string,
                            matches_any entry.2 (lower name) = false) table) names →
  scan_types table names st = st.
Proof.
  induction table as [|[band_type type_patterns] rest IH]; intros st Hall; [done|].
  assert (Hrest : Forall (λ name, Forall (λ entry : string * list string,
                            matches_any entry.2 (lower name) = false) rest) names).
  { eapply Forall_impl; [exact Hall|]. intros name H. by apply Forall_cons in H as [_ ?]. }
  assert (Hhere : Forall (λ name, matches_any type_patterns (lower name) = false) names).
  { eapply Forall_impl; [exact Hall|]. intros name H. by apply Forall_cons in H as [? _]. }
  cbn [scan_types]. destruct (decide _) as [?|Hfresh]; [by apply IH|].
  destruct st as [m A]. rewrite scan_names_spec by done.
  rewrite first_match_none by done. by apply IH.
Qed.

(** X9: when no pattern is found in any name, the number of bands alone
    decides the mapping: Red, Green, Blue at 0, 1, 2 for three bands;
    Blue, Green, Red, NIR at 1, 2, 3, 4 for four bands or more (with four
    bands the position 4 of NIR is not a position of the list); nothing for
    one or two bands. *)
Theorem unrecognised_names_fall_back (band_names : list string) :
  Forall (λ name, Forall (λ entry : string * list string,
                            matches_any entry.2 (lower name) = false) patterns)
         band_names →
  guess_band_types band_names
  = if decide (4 ≤ length band_names)%nat
    then <["NIR" := 4]> (<["Red" := 3]> (<["Green" := 2]> (<["Blue" := 1]> ∅)))
    else if decide (length band_names = 3%nat)
    then <["Blue" := 2]> (<["Green" := 1]> (<["Red" := 0]> ∅))
    else ∅.
Proof.
  intros Hall. rewrite guess_band_types_unfold.
  destruct band_names as [|name0 rest]; [done|].
  unfold guess_before_rename. rewrite scan_types_none by done.
  generalize (name0 :: rest). clear Hall name0 rest. intros band_names.
  unfold fallback.
  destruct (decide (Z.of_nat _ >= 4)), (decide (4 ≤ _)%nat); try lia.
  - vm_compute band_mapping. done.
  - destruct (decide (Z.of_nat _ = 3)), (decide (_ = 3%nat)); try lia; [|done].
    vm_compute band_mapping. done.
Qed.

Lemma unrecognised_names_fall_back_witness :
  guess_band_types ["layer a"; "layer b"; "layer c"]
  = <["Blue" := 2]> (<["Green" := 1]> (<["Red" := 0]> ∅)).
Proof.
  apply (unrecognised_names_fall_back ["layer a"; "layer b"; "layer c"]).
  repeat constructor.
Defined.

(** The order of the patterns of a band type: only whether some pattern is
    found in a name counts. *)
Lemma matches_any_Permutation ps1 ps2 name_lower :
  ps1 ≡ₚ ps2 → matches_any ps1 name_lower = matches_any ps2 name_lower.
Proof.
  intros Hperm. unfold matches_any.
  destruct (existsb _ ps2) eqn:H2.
  - apply existsb_exists in H2 as (p & Hin & Hp). apply existsb_exists.
    exists p. split; [|done]. apply list_elem_of_In. rewrite Hperm.
    by apply list_elem_of_In.
  - destruct (existsb _ ps1) eqn:H1; [|done].
    apply existsb_exists in H1 as (p & Hin & Hp).
    rewrite <- H2. symmetry. apply existsb_exists.
    exists p. split; [|done]. apply list_elem_of_In. rewrite <- Hperm.
    by apply list_elem_of_In.
Qed.

Lemma scan_names_Permutation band_type ps1 ps2 names : ∀ i st,
  ps1 ≡ₚ ps2 →
  scan_names band_type ps1 i names st = scan_names band_type ps2 i names st.
Proof.
  induction names as [|name rest IH]; intros i st Hperm; [done|].
  cbn [scan_names]. rewrite !try_patterns_spec.
  rewrite (matches_any_Permutation ps1 ps2) by done.
  destruct (decide _); [by apply IH|].
  destruct (decide _); [done|by apply IH].
Qed.

(** X10: within a band type the order of the patterns has no effect on
    the pattern phase; the names are tried in order, and a name is taken
    as soon as any pattern of the type is found in it. *)
Theorem pattern_order_has_no_effect (table1 table2 : list (string * list string))
    (band_names : list string) (st : guess_state) :
  Forall2 (λ entry1 entry2, entry1.1 = entry2.1 ∧ entry1.2 ≡ₚ entry2.2) table1 table2 →
  scan_types table1 band_names st = scan_types table2 band_names st.
Proof.
  intros Htables. revert st.
  induction Htables as [|[bt1 ps1] [bt2 ps2] rest1 rest2 [Hbt Hps] _ IH]; intros st;
    [done|].
  simpl in Hbt, Hps. subst bt2. cbn [scan_types].
  destruct (decide _); [apply IH|].
  rewrite (scan_names_Permutation _ ps1 ps2) by done. apply IH.
Qed.

Lemma pattern_order_has_no_effect_witness :
  scan_types [("NIR", ["\bb8a\b"; "\bb8\b"])] ["B8"; "B8A"] (GuessState ∅ ∅)
  = scan_types [("NIR", ["\bb8\b"; "\bb8a\b"])] ["B8"; "B8A"] (GuessState ∅ ∅).
Proof.
  apply pattern_order_has_no_effect.
  constructor; [|constructor]. split; [reflexivity|]. apply Permutation_swap.
Defined.

(* ===================================================================== *)
(** * Numbers in the texts of the panels                                  *)
(* ===================================================================== *)

Lemma digit_is_plain c :
  is_digit c = true →
  is_py_space c = false ∧ Ascii.eqb c ":" = false ∧ Ascii.eqb c "_" = false
  ∧ Ascii.eqb c "+" = false ∧ Ascii.eqb c "-" = false.
Proof. by destruct c as [[] [] [] [] [] [] [] []]. Qed.

Lemma all_chars_cons P c s :
  all_chars P (String c s) = P c && all_chars P s.
Proof. done. Qed.

Lemma all_chars_impl (P Q : ascii → bool) s :
  (∀ c, P c = true → Q c = true) → all_chars P s = true → all_chars Q s = true.
Proof.
  intros HPQ. induction s as [|c s IH]; [done|].
  rewrite !all_chars_cons, !andb_true_iff. intros [? ?]. auto.
Qed.

Lemma uint_digits d : all_chars is_digit (NilEmpty.string_of_uint d) = true.
Proof. induction d; simpl; try done; by rewrite all_chars_cons, IHd. Qed.

Lemma lstrip_plain P s :
  (∀ c, P c = true → is_py_space c = false) →
  all_chars P s = true → lstrip s = s.
Proof.
  intros HP. destruct s as [|c s]; [done|].
  rewrite all_chars_cons, andb_true_iff. intros [Hc _].
  cbn [lstrip]. by rewrite (HP c Hc).
Qed.

Lemma all_chars_rev P s :
  all_chars P s = true → all_chars P (string_rev s) = true.
Proof.
  unfold all_chars, string_rev. rewrite list_ascii_of_string_of_list_ascii.
  rewrite !forallb_forall. intros H c Hc. apply H. by apply in_rev.
Qed.

Lemma string_rev_involutive s : string_rev (string_rev s) = s.
Proof.
  unfold string_rev. rewrite list_ascii_of_string_of_list_ascii.
  by rewrite rev_involutive, string_of_list_ascii_of_string.
Qed.

Lemma strip_plain P s :
  (∀ c, P c = true → is_py_space c = false) →
  all_chars P s = true → strip s = s.
Proof.
  intros HP Hs. unfold strip. rewrite (lstrip_plain P s) by done.
  rewrite (lstrip_plain P (string_rev s)) by auto using all_chars_rev.
  apply string_rev_involutive.
Qed.

Lemma literal_digits_digits s :
  all_chars is_digit s = true → literal_digits s true = Some s.
Proof.
  induction s as [|c s IH]; [done|].
  rewrite all_chars_cons, andb_true_iff. intros [Hc Hs].
  cbn [literal_digits]. by rewrite Hc, IH.
Qed.

Lemma literal_digits_start c s :
  all_chars is_digit (String c s) = true →
  literal_digits (String c s) false = Some (String c s).
Proof.
  rewrite all_chars_cons, andb_true_iff. intros [Hc Hs].
  cbn [literal_digits]. by rewrite Hc, literal_digits_digits.
Qed.

(** A sign or a digit. *)
Lemma number_is_plain c :
  (is_digit c || Ascii.eqb c "-")%bool = true → is_py_space c = false.
Proof. by destruct c as [[] [] [] [] [] [] [] []]. Qed.

Lemma int_of_digits d :
  d ≠ Decimal.Nil →
  int_of_str (NilEmpty.string_of_uint d) = inl (Z.of_uint d)
  ∧ int_of_str (String "-" (NilEmpty.string_of_uint d)) = inl (- Z.of_uint d).
Proof.
  intros Hd. pose proof (uint_digits d) as Hdigits.
  pose proof (NilEmpty.usu d) as Husu.
  assert (Hplain : ∀ c, (is_digit c || Ascii.eqb c "-")%bool = true →
                        is_py_space c = false) by apply number_is_plain.
  assert (Hall : all_chars (λ c, is_digit c || Ascii.eqb c "-")%bool
                           (NilEmpty.string_of_uint d) = true).
  { eapply all_chars_impl; [|exact Hdigits]. intros c ->. done. }
  unfold int_of_str. split.
  - rewrite (strip_plain _ _ Hplain Hall).
    destruct d; try done; cbn [NilEmpty.string_of_uint] in *;
      rewrite literal_digits_start by done; cbn [mbind option_bind];
      by rewrite Husu.
  - rewrite (strip_plain (λ c, is_digit c || Ascii.eqb c "-")%bool) by done.
    destruct d; try done; cbn [NilEmpty.string_of_uint] in *;
      rewrite literal_digits_start by done; cbn [mbind option_bind];
      by rewrite Husu.
Qed.

(** [int(str(n))] is [n], for every integer. *)
Lemma int_of_str_of_Z (n : Z) : int_of_str (string_of_Z n) = inl n.
Proof.
  destruct n as [|p|p]; [done|..]; unfold string_of_Z; cbn [Z.to_int].
  - cbn [NilZero.string_of_int]. unfold NilZero.string_of_uint.
    pose proof (DecimalPos.Unsigned.to_uint_nonnil p) as Hnil.
    destruct (int_of_digits _ Hnil) as [H _].
    destruct (Pos.to_uint p) eqn:Hp; try done; rewrite H;
      unfold Z.of_uint; rewrite <- Hp, DecimalPos.Unsigned.of_to; done.
  - cbn [NilZero.string_of_int]. unfold NilZero.string_of_uint.
    pose proof (DecimalPos.Unsigned.to_uint_nonnil p) as Hnil.
    destruct (int_of_digits _ Hnil) as [_ H].
    destruct (Pos.to_uint p) eqn:Hp; try done; rewrite H;
      unfold Z.of_uint; rewrite <- Hp, DecimalPos.Unsigned.of_to; done.
Qed.

Lemma number_has_no_colon c :
  (is_digit c || Ascii.eqb c "-")%bool = true → Ascii.eqb c ":" = false.
Proof. by destruct c as [[] [] [] [] [] [] [] []]. Qed.

Lemma string_of_Z_plain n :
  ∃ c s, string_of_Z n = String c s
         ∧ all_chars (λ c, is_digit c || Ascii.eqb c "-")%bool (String c s) = true.
Proof.
  assert (Hpos : ∀ p, ∃ c s,
    NilZero.string_of_uint (Pos.to_uint p) = String c s
    ∧ all_chars (λ c, is_digit c || Ascii.eqb c "-")%bool (String c s) = true).
  { intros p.
    pose proof (DecimalPos.Unsigned.to_uint_nonnil p) as Hnil.
    pose proof (uint_digits (Pos.to_uint p)) as Hdigits.
    apply (all_chars_impl _ (λ c, is_digit c || Ascii.eqb c "-")%bool) in Hdigits;
      [|by intros c ->].
    unfold NilZero.string_of_uint.
    destruct (Pos.to_uint p); try done; cbn [NilEmpty.string_of_uint] in *; eauto. }
  destruct n as [|p|p]; [by exists "0"%char, ""|apply Hpos|].
  unfold string_of_Z. cbn [Z.to_int NilZero.string_of_int].
  destruct (Hpos p) as (c & s & -> & Hall).
  exists "-"%char, (String c s). split; [done|].
  by rewrite all_chars_cons, Hall.
Qed.

Lemma before_colon_plain P s rest :
  (∀ c, P c = true → Ascii.eqb c ":" = false) →
  all_chars P s = true →
  before_colon (s +:+ String ":" rest) = s
  ∧ contains_colon (s +:+ String ":" rest) = true.
Proof.
  intros HP. induction s as [|c s IH]; [done|].
  rewrite all_chars_cons, andb_true_iff. intros [Hc Hs].
  destruct (IH Hs) as [IH1 IH2].
  change (String c s +:+ String ":" rest) with (String c (s +:+ String ":" rest)).
  cbn [before_colon contains_colon].
  by rewrite (HP c Hc), IH1, IH2.
Qed.

Lemma selected_band_in_range num_bands selected_value idx :
  IndicesPanel.selected_band num_bands selected_value = Some idx →
  0 ≤ idx < num_bands.
Proof.
  unfold IndicesPanel.selected_band.
  destruct (_ && _); [|done].
  destruct (int_of_str _) as [n|]; [|done].
  destruct (Z.leb_spec 0 (n - 1)), (Z.ltb_spec (n - 1) num_bands); try done.
  intros [= <-]. lia.
Qed.

Lemma selected_band_numbered (num_bands idx : Z) (name : string) :
  IndicesPanel.selected_band num_bands (numbered idx name)
  = if decide (0 ≤ idx < num_bands) then Some idx else None.
Proof.
  unfold IndicesPanel.selected_band, numbered.
  destruct (string_of_Z_plain (idx + 1)) as (c & s & Hs & Hplain).
  pose proof (int_of_str_of_Z (idx + 1)) as Hint. rewrite Hs in *.
  change (": " +:+ name) with (String ":" (String " " name)).
  destruct (before_colon_plain _ _ (String " " name) number_has_no_colon Hplain)
    as [-> ->].
  rewrite Hint.
  change (String c s +:+ String ":" (String " " name))
    with (String c (s +:+ String ":" (String " " name))).
  cbn [String.eqb negb andb].
  replace (idx + 1 - 1) with idx by lia.
  destruct (Z.leb_spec 0 idx), (Z.ltb_spec idx num_bands), (decide _);
    try lia; done.
Qed.

(** X11: what the panel writes into a combobox it reads back.  The text
    [f"{idx+1}: {name}"] of a band of the image selects the position
    [idx], whatever the name of the band is (it may hold colons, digits
    or nothing); a position that the image does not have selects
    nothing. *)
Theorem combobox_text_round_trip (num_bands idx : Z) (name : string) :
  IndicesPanel.selected_band num_bands (numbered idx name)
  = if decide (0 ≤ idx < num_bands) then Some idx else None.
Proof. apply selected_band_numbered. Qed.


(* ===================================================================== *)
(** * The indices panel                                                   *)
(* ===================================================================== *)

Lemma selected_band_empty num_bands : IndicesPanel.selected_band num_bands "" = None.
Proof. done. Qed.

Lemma update_all_lookup self im band_type :
  IndicesPanel.imagery_data self = Some im →
  IndicesPanel.band_mapping (IndicesPanel._update_all_band_mappings self) !! band_type
  = IndicesPanel.band_vars self !! band_type
    ≫= IndicesPanel.selected_band (Z.of_nat (length (IndicesPanel.bands im))).
Proof.
  intros Him. unfold IndicesPanel._update_all_band_mappings. rewrite Him.
  cbn [IndicesPanel.band_mapping]. apply lookup_omap.
Qed.

Lemma update_all_in_bounds self im :
  IndicesPanel.imagery_data self = Some im →
  in_bounds (Z.of_nat (length (IndicesPanel.bands im)))
            (IndicesPanel.band_mapping (IndicesPanel._update_all_band_mappings self)).
Proof.
  intros Him band_type idx. rewrite (update_all_lookup _ im) by done.
  destruct (IndicesPanel.band_vars self !! band_type) as [v|]; [|done].
  apply selected_band_in_range.
Qed.

Lemma update_all_keeps self :
  IndicesPanel.imagery_data (IndicesPanel._update_all_band_mappings self)
  = IndicesPanel.imagery_data self
  ∧ IndicesPanel.band_vars (IndicesPanel._update_all_band_mappings self)
    = IndicesPanel.band_vars self.
Proof.
  unfold IndicesPanel._update_all_band_mappings.
  destruct (IndicesPanel.imagery_data self) eqn:Him; [done|by rewrite Him].
Qed.

Lemma update_all_twice self :
  IndicesPanel._update_all_band_mappings (IndicesPanel._update_all_band_mappings self)
  = IndicesPanel._update_all_band_mappings self.
Proof.
  unfold IndicesPanel._update_all_band_mappings.
  destruct (IndicesPanel.imagery_data self) eqn:Him; [|by rewrite Him].
  by cbn [IndicesPanel.imagery_data IndicesPanel.band_vars IndicesPanel.band_mapping
          IndicesPanel.available_indices IndicesPanel.band_name_labels].
Qed.

Lemma update_labels_keeps self :
  IndicesPanel.imagery_data (IndicesPanel._update_all_name_labels self)
  = IndicesPanel.imagery_data self
  ∧ IndicesPanel.band_vars (IndicesPanel._update_all_name_labels self)
    = IndicesPanel.band_vars self
  ∧ IndicesPanel.band_mapping (IndicesPanel._update_all_name_labels self)
    = IndicesPanel.band_mapping self.
Proof.
  unfold IndicesPanel._update_all_name_labels.
  destruct (IndicesPanel.imagery_data self) eqn:Him; [done|by rewrite Him].
Qed.

Lemma update_list_fields self :
  IndicesPanel.imagery_data (IndicesPanel._update_indices_list self)
  = IndicesPanel.imagery_data self
  ∧ IndicesPanel.band_vars (IndicesPanel._update_indices_list self)
    = IndicesPanel.band_vars self
  ∧ IndicesPanel.band_mapping (IndicesPanel._update_indices_list self)
    = IndicesPanel.band_mapping (IndicesPanel._update_all_band_mappings self)
  ∧ IndicesPanel.available_indices (IndicesPanel._update_indices_list self)
    = get_available_indices
        (Some (IndicesPanel.band_mapping (IndicesPanel._update_all_band_mappings self))).
Proof.
  unfold IndicesPanel._update_indices_list.
  cbn [IndicesPanel.imagery_data IndicesPanel.band_vars IndicesPanel.band_mapping
       IndicesPanel.available_indices].
  by destruct (update_all_keeps self) as [-> ->].
Qed.

Lemma lookup_table {V} (f : string → V) (keys : list string) (k : string) :
  (list_to_map ((λ key, (key, f key)) <$> keys) : gmap string V) !! k
  = if decide (k ∈ keys) then Some (f k) else None.
Proof.
  induction keys as [|key keys IH].
  { rewrite decide_False by apply not_elem_of_nil. apply lookup_empty. }
  rewrite fmap_cons. cbn [list_to_map foldr].
  destruct (decide (k = key)) as [->|Hne].
  - rewrite lookup_insert_eq. rewrite decide_True; [done|left].
  - rewrite lookup_insert_ne by done. rewrite IH.
    destruct (decide (k ∈ keys)) as [Hin|Hin].
    + rewrite decide_True; [done|by right].
    + rewrite decide_False; [done|]. by intros [?|?]%elem_of_cons.
Qed.

Lemma guess_keys band_names band_type idx :
  guess_band_types band_names !! band_type = Some idx →
  band_type ∈ IndicesPanel.standard_bands.
Proof.
  intros Hguess.
  assert (Hdom : band_type ∈ dom (guess_band_types band_names))
    by (apply elem_of_dom; eauto).
  rewrite guess_band_types_unfold in Hdom. destruct band_names.
  - rewrite dom_empty_L in Hdom. by apply not_elem_of_empty in Hdom.
  - apply guess_before_rename_dom in Hdom.
    by apply elem_of_list_to_set in Hdom.
Qed.

Lemma name_at_lookup names idx :
  0 ≤ idx < Z.of_nat (length names) →
  names !! Z.to_nat idx = Some (name_at names idx).
Proof.
  intros Hidx. unfold name_at.
  destruct (lookup_lt_is_Some_2 names (Z.to_nat idx)) as [name ->]; [lia|done].
Qed.

(** X12: the mapping with which the panel starts.  After an image with
    bands is set, a band type is mapped to a position exactly when
    [guess_band_types] gives it that position and the position is one of
    the names and one of the bands of the image; the indices offered are
    those of this mapping.  A guessed position that the image does not
    have, such as the fallback position 4 of NIR with four bands, is
    dropped. *)
Theorem initial_mapping_is_guess_in_range (self : IndicesPanel.panel)
    (im : IndicesPanel.imagery) :
  IndicesPanel.bands im ≠ [] →
  let self' := IndicesPanel.update_with_imagery self (Some im) in
  (∀ band_type idx,
     IndicesPanel.band_mapping self' !! band_type = Some idx
     ↔ guess_band_types (IndicesPanel.band_names im) !! band_type = Some idx
       ∧ 0 ≤ idx < Z.of_nat (length (IndicesPanel.band_names im))
       ∧ idx < Z.of_nat (length (IndicesPanel.bands im)))
  ∧ IndicesPanel.available_indices self'
    = get_available_indices (Some (IndicesPanel.band_mapping self'))
  ∧ IndicesPanel.imagery_data self' = Some im.
Proof.
  intros Hbands self'. subst self'. unfold IndicesPanel.update_with_imagery.
  destruct (IndicesPanel.bands im) as [|b0 bs] eqn:Hb; [done|]. clear Hbands.
  set (vars := list_to_map _).
  set (labels := list_to_map _).
  set (start := IndicesPanel.Panel (Some im) _ _ vars labels).
  set (mid := IndicesPanel._update_all_name_labels
                (IndicesPanel._update_all_band_mappings start)).
  assert (Him : IndicesPanel.imagery_data mid = Some im).
  { unfold mid. destruct (update_labels_keeps
                            (IndicesPanel._update_all_band_mappings start)) as [-> _].
    by destruct (update_all_keeps start) as [-> _]. }
  assert (Hvars : IndicesPanel.band_vars mid = vars).
  { unfold mid. destruct (update_labels_keeps
                            (IndicesPanel._update_all_band_mappings start)) as (_ & -> & _).
    by destruct (update_all_keeps start) as [_ ->]. }
  destruct (update_list_fields mid) as (Him' & _ & Hmap & Havail).
  split; [|split; [by rewrite Havail, Hmap|by rewrite Him']].
  intros band_type idx. rewrite Hmap, (update_all_lookup mid im _ Him), Hvars, Hb.
  unfold vars. rewrite lookup_table.
  destruct (decide (band_type ∈ IndicesPanel.standard_bands)) as [Hstd|Hstd].
  - cbn [mbind option_bind]. unfold IndicesPanel.initial_value.
    destruct (guess_band_types _ !! band_type) as [g|] eqn:Hguess.
    + destruct (Z.leb_spec 0 g), (Z.ltb_spec g (Z.of_nat (length (IndicesPanel.band_names im))));
        cbn [andb]; rewrite ?selected_band_numbered, ?selected_band_empty;
        try (split; [done|intros ([= <-] & ? & ?); lia]).
      destruct (decide _) as [Hin|Hout].
      * split; [intros [= <-]; repeat split; (done || lia)|by intros ([= <-] & _)].
      * split; [done|intros ([= <-] & ? & ?); lia].
    + rewrite selected_band_empty. split; [done|by intros [? _]].
  - split; [done|]. intros (Hguess & _). by apply guess_keys in Hguess.
Qed.

Lemma initial_mapping_is_guess_in_range_witness :
  IndicesPanel.band_mapping
    (IndicesPanel.update_with_imagery
       (IndicesPanel.Panel None ∅ [] ∅ ∅)
       (Some (IndicesPanel.Imagery
                [of_rows [[F32.zero]]; of_rows [[F32.zero]];
                 of_rows [[F32.zero]]; of_rows [[F32.zero]]]
                ["x1"; "x2"; "x3"; "x4"]))) !! "NIR" = None.
Proof.
  destruct (initial_mapping_is_guess_in_range
              (IndicesPanel.Panel None ∅ [] ∅ ∅)
              (IndicesPanel.Imagery
                 [of_rows [[F32.zero]]; of_rows [[F32.zero]];
                  of_rows [[F32.zero]]; of_rows [[F32.zero]]]
                 ["x1"; "x2"; "x3"; "x4"])) as [Hmapping _]; [done|].
  destruct (IndicesPanel.band_mapping _ !! "NIR") as [idx|] eqn:Hnir; [|done].
  apply Hmapping in Hnir as (Hguess & _ & Hlt).
  vm_compute in Hguess. injection Hguess as <-. simpl in Hlt. lia.
Defined.

Lemma calculate_index_returns (bands : list ndarray) (m : gmap string Z)
    (index_name : string) (r c : nat) :
  index_name ∈ get_available_indices (Some m) →
  Forall (λ a, shape a = (r, c)) bands →
  in_bounds (Z.of_nat (length bands)) m →
  ∃ result, calculate_index bands m index_name = inl result.
Proof.
  intros Hlisted Hshape Hrange.
  destruct (available_in_registry _ _ Hlisted) as [info Hinfo].
  rewrite (available_spec m _ _ Hinfo) in Hlisted.
  destruct (calculate_index_cells bands m index_name info r c Hinfo)
    as (B & num_e & den_e & num & den & index & _ & _ & _ & _ & Hcalc & _).
  { apply Forall_forall. intros b Hb.
    destruct (proj1 (elem_of_dom _ _) (Hlisted b Hb)) as [idx Hidx].
    destruct (Hrange _ _ Hidx) as [H0 Hlt].
    destruct (lookup_lt_is_Some_2 bands (Z.to_nat idx)) as [a Ha]; [lia|].
    exists idx, a. repeat split; try done.
    rewrite Forall_forall in Hshape. apply Hshape.
    by eapply list_elem_of_lookup_2. }
  eauto.
Qed.

(** X13: an index that the panel offers can be calculated.  For an image
    whose bands have one shape, the button of every index in the list
    made by [_update_indices_list] ends in the plot of the result, not in
    an error box, as long as the comboboxes are left as they are; the
    result is that of [calculate_index] on the mapping of the panel. *)
Theorem offered_indices_are_plotted (self : IndicesPanel.panel)
    (im : IndicesPanel.imagery) (index_name : string) (r c : nat) :
  IndicesPanel.imagery_data self = Some im →
  Forall (λ a, shape a = (r, c)) (IndicesPanel.bands im) →
  let listed := IndicesPanel._update_indices_list self in
  index_name ∈ IndicesPanel.available_indices listed →
  ∃ result,
    calculate_index (IndicesPanel.bands im) (IndicesPanel.band_mapping listed) index_name
    = inl result
    ∧ IndicesPanel._calculate_index listed index_name
      = (listed, IndicesPanel.Plotted result).
Proof.
  intros Him Hshape listed Hlisted.
  destruct (update_list_fields self) as (Him' & Hvars & Hmap & Havail).
  fold listed in Him', Hvars, Hmap, Havail.
  assert (Hsame : IndicesPanel._update_all_band_mappings listed = listed).
  { unfold listed, IndicesPanel._update_indices_list.
    unfold IndicesPanel._update_all_band_mappings at 1.
    cbn [IndicesPanel.imagery_data IndicesPanel.band_vars IndicesPanel.band_mapping
         IndicesPanel.available_indices IndicesPanel.band_name_labels].
    destruct (update_all_keeps self) as [Hi Hv]. rewrite Hi, Him.
    f_equal. rewrite Hv.
    unfold IndicesPanel._update_all_band_mappings. by rewrite Him. }
  rewrite Havail, <- Hmap in Hlisted.
  destruct (calculate_index_returns (IndicesPanel.bands im)
              (IndicesPanel.band_mapping listed) index_name r c Hlisted Hshape)
    as [result Hresult].
  { rewrite Hmap. by apply update_all_in_bounds. }
  exists result. split; [done|].
  unfold IndicesPanel._calculate_index. rewrite Him', Him, Hsame.
  by rewrite Hresult.
Qed.

Lemma offered_indices_are_plotted_witness :
  ∃ result,
    IndicesPanel._calculate_index
      (IndicesPanel._update_indices_list
         (IndicesPanel.Panel
            (Some (IndicesPanel.Imagery [of_rows [[F32.of_Q 1.0]]; of_rows [[F32.of_Q 3.0]]]
                                        ["Red"; "NIR"]))
            ∅ [] (<["Red" := "1: Red"]> (<["NIR" := "2: NIR"]> ∅)) ∅))
      "NDVI"
    = (IndicesPanel._update_indices_list
         (IndicesPanel.Panel
            (Some (IndicesPanel.Imagery [of_rows [[F32.of_Q 1.0]]; of_rows [[F32.of_Q 3.0]]]
                                        ["Red"; "NIR"]))
            ∅ [] (<["Red" := "1: Red"]> (<["NIR" := "2: NIR"]> ∅)) ∅),
       IndicesPanel.Plotted result).
Proof.
  edestruct (offered_indices_are_plotted
               (IndicesPanel.Panel
                  (Some (IndicesPanel.Imagery
                           [of_rows [[F32.of_Q 1.0]]; of_rows [[F32.of_Q 3.0]]]
                           ["Red"; "NIR"]))
                  ∅ [] (<["Red" := "1: Red"]> (<["NIR" := "2: NIR"]> ∅)) ∅)
               _ "NDVI" 1 1 eq_refl) as (result & _ & Hplot).
  - repeat constructor.
  - vm_compute. left.
  - exists result. exact Hplot.
Defined.

Lemma valid_loaded_index_Some num_bands value idx :
  IndicesPanel.valid_loaded_index num_bands value = Some idx
  ↔ (value = IndicesPanel.JInt idx
     ∨ ∃ b : bool, value = IndicesPanel.JBool b ∧ idx = Z.b2z b)
    ∧ 0 ≤ idx < num_bands.
Proof.
  unfold IndicesPanel.valid_loaded_index. destruct value as [n|b|].
  - destruct (Z.leb_spec 0 n), (Z.ltb_spec n num_bands); cbn [andb]; split;
      try done; try (intros [[[= <-]|(? & ? & _)] ?]; (done || lia)).
    intros [= <-]. split; [by left|lia].
  - destruct (Z.leb_spec 0 (Z.b2z b)), (Z.ltb_spec (Z.b2z b) num_bands);
      cbn [andb]; split; try done;
      try (intros [[?|(b' & [= <-] & ->)] ?]; (done || lia)).
    intros [= <-]. split; [right; eauto|lia].
  - split; [done|]. by intros [[?|(? & ? & _)] _].
Qed.

Lemma load_band_mapping_fields (self : IndicesPanel.panel)
    (im : IndicesPanel.imagery)
    (loaded_mapping : gmap string IndicesPanel.json_value) :
  IndicesPanel.imagery_data self = Some im →
  let self' := IndicesPanel.load_band_mapping self loaded_mapping in
  (∀ band_type idx,
     IndicesPanel.band_mapping self' !! band_type = Some idx
     ↔ band_type ∈ dom (IndicesPanel.band_vars self)
       ∧ (loaded_mapping !! band_type = Some (IndicesPanel.JInt idx)
          ∨ ∃ b : bool, loaded_mapping !! band_type = Some (IndicesPanel.JBool b)
                        ∧ idx = Z.b2z b)
       ∧ 0 ≤ idx < Z.of_nat (length (IndicesPanel.band_names im))
       ∧ idx < Z.of_nat (length (IndicesPanel.bands im)))
  ∧ IndicesPanel.available_indices self'
    = get_available_indices (Some (IndicesPanel.band_mapping self'))
  ∧ dom (IndicesPanel.band_vars self') = dom (IndicesPanel.band_vars self).
Proof.
  intros Him self'. subst self'. unfold IndicesPanel.load_band_mapping.
  rewrite Him.
  set (names := IndicesPanel.band_names im).
  set (mapping := map_imap _ (IndicesPanel.band_vars self)).
  set (vars := map_imap _ (IndicesPanel.band_vars self)).
  set (start := IndicesPanel.Panel (Some im) mapping _ vars _).
  destruct (update_labels_keeps start) as (Him1 & Hvars1 & _).
  destruct (update_list_fields (IndicesPanel._update_all_name_labels start))
    as (_ & Hvars2 & Hmap & Havail).
  assert (Hvar : ∀ band_type,
    vars !! band_type
    = IndicesPanel.band_vars self !! band_type
      ≫= λ _, Some (match loaded_mapping !! band_type
                           ≫= IndicesPanel.valid_loaded_index (Z.of_nat (length names)) with
                    | Some idx => numbered idx (name_at names idx)
                    | None => ""
                    end)).
  { intros band_type. unfold vars. by rewrite map_lookup_imap. }
  split; [|split].
  - intros band_type idx.
    rewrite Hmap, (update_all_lookup _ im _ Him1), Hvars1.
    cbn [IndicesPanel.band_vars start]. rewrite Hvar, elem_of_dom.
    destruct (IndicesPanel.band_vars self !! band_type) as [old|];
      cbn [mbind option_bind]; [|split; [done|by intros [[? ?] _]]].
    destruct (loaded_mapping !! band_type) as [value|] eqn:Hvalue;
      cbn [mbind option_bind].
    + destruct (IndicesPanel.valid_loaded_index _ value) as [i|] eqn:Hvalid.
      * apply valid_loaded_index_Some in Hvalid as [Hi Hrange].
        rewrite selected_band_numbered. destruct (decide _) as [Hin|Hout].
        -- split.
           ++ intros [= <-]. split; [eauto|]. split; [|lia].
              destruct Hi as [->|(b & -> & ->)]; eauto.
           ++ intros (_ & [[= ->]|(b & [= ->] & ->)] & _);
                by destruct Hi as [[= ->]|(b' & [= <-] & ->)].
        -- split; [done|]. intros (_ & Hcase & ? & ?).
           assert (i = idx); [|lia].
           destruct Hcase as [[= ->]|(b & [= ->] & ->)];
             by destruct Hi as [[= ->]|(b' & [= <-] & ->)].
      * rewrite selected_band_empty. split; [done|].
        intros (_ & Hcase & Hrange & _).
        assert (IndicesPanel.valid_loaded_index (Z.of_nat (length names)) value = Some idx)
          as Hyes; [|by rewrite Hyes in Hvalid].
        apply valid_loaded_index_Some. split; [|done].
        destruct Hcase as [[= ->]|(b & [= ->] & ->)]; eauto.
    + rewrite selected_band_empty. split; [done|].
      by intros (_ & [?|(? & ? & _)] & _).
  - by rewrite Havail, Hmap.
  - rewrite Hvars2, Hvars1. cbn [IndicesPanel.band_vars start].
    apply set_eq. intros band_type. rewrite !elem_of_dom, Hvar.
    by destruct (IndicesPanel.band_vars self !! band_type).
Qed.

(** X14: what a mapping file can change.  After [load_band_mapping], a
    band type is mapped to a position exactly when the panel has a
    combobox for it, the file gives it an integer (a JSON boolean counts
    as 0 or 1), and that integer is a position of the names and of the
    bands of the image; every other entry of the file is dropped, and the
    indices offered are those of the new mapping. *)
Theorem loaded_mapping_is_validated (self : IndicesPanel.panel)
    (im : IndicesPanel.imagery)
    (loaded_mapping : gmap string IndicesPanel.json_value) :
  IndicesPanel.imagery_data self = Some im →
  let self' := IndicesPanel.load_band_mapping self loaded_mapping in
  (∀ band_type idx,
     IndicesPanel.band_mapping self' !! band_type = Some idx
     ↔ band_type ∈ dom (IndicesPanel.band_vars self)
       ∧ (loaded_mapping !! band_type = Some (IndicesPanel.JInt idx)
          ∨ ∃ b : bool, loaded_mapping !! band_type = Some (IndicesPanel.JBool b)
                        ∧ idx = Z.b2z b)
       ∧ 0 ≤ idx < Z.of_nat (length (IndicesPanel.band_names im))
       ∧ idx < Z.of_nat (length (IndicesPanel.bands im)))
  ∧ IndicesPanel.available_indices self'
    = get_available_indices (Some (IndicesPanel.band_mapping self'))
  ∧ dom (IndicesPanel.band_vars self') = dom (IndicesPanel.band_vars self).
Proof. apply load_band_mapping_fields. Qed.

Lemma loaded_mapping_is_validated_witness :
  IndicesPanel.band_mapping
    (IndicesPanel.load_band_mapping
       (IndicesPanel.Panel
          (Some (IndicesPanel.Imagery [of_rows [[F32.zero]]; of_rows [[F32.zero]]]
                                      ["Band 1"; "Band 2"]))
          ∅ [] (<["Red" := ""]> (<["NIR" := ""]> ∅)) ∅)
       (<["Red" := IndicesPanel.JInt 1]> (<["NIR" := IndicesPanel.JInt 7]> ∅)))
    !! "NIR" = None.
Proof.
  edestruct (loaded_mapping_is_validated
               (IndicesPanel.Panel
                  (Some (IndicesPanel.Imagery
                           [of_rows [[F32.zero]]; of_rows [[F32.zero]]]
                           ["Band 1"; "Band 2"]))
                  ∅ [] (<["Red" := ""]> (<["NIR" := ""]> ∅)) ∅)
               _
               (<["Red" := IndicesPanel.JInt 1]> (<["NIR" := IndicesPanel.JInt 7]> ∅))
               eq_refl) as [Hmapping _].
  destruct (IndicesPanel.band_mapping _ !! "NIR") as [idx|] eqn:Hnir; [|done].
  apply Hmapping in Hnir as (_ & [Hint|(b & Hbool & _)] & Hrange & _).
  - vm_compute in Hint. injection Hint as <-. simpl in Hrange. lia.
  - vm_compute in Hbool. discriminate.
Defined.

Lemma clear_band_result self band_type old :
  IndicesPanel.band_name_labels self !! band_type = Some old →
  IndicesPanel.clear_band self band_type
  = inl (IndicesPanel.Panel
           (IndicesPanel.imagery_data self)
           (delete band_type (IndicesPanel.band_mapping self))
           (IndicesPanel.available_indices self) (IndicesPanel.band_vars self)
           (<[band_type := ""]> (IndicesPanel.band_name_labels self))).
Proof.
  intros Hlabel. unfold IndicesPanel.clear_band, IndicesPanel.set_label.
  cbn [IndicesPanel.band_name_labels]. by rewrite Hlabel.
Qed.

(** What the callback leaves behind when it clears the band type, and
    when it sets it. *)
Lemma single_update_cleared self im band_type :
  let self' :=
    IndicesPanel.Panel
      (IndicesPanel.imagery_data self)
      (delete band_type (IndicesPanel.band_mapping self))
      (IndicesPanel.available_indices self) (IndicesPanel.band_vars self)
      (<[band_type := ""]> (IndicesPanel.band_name_labels self)) in
  IndicesPanel.band_mapping self' !! band_type = None
  ∧ IndicesPanel.band_name_labels self' !! band_type
    = Some (IndicesPanel.label_text (IndicesPanel.band_names im)
              (IndicesPanel.band_mapping self') band_type)
  ∧ (∀ other, other ≠ band_type →
       IndicesPanel.band_mapping self' !! other = IndicesPanel.band_mapping self !! other
       ∧ IndicesPanel.band_name_labels self' !! other
         = IndicesPanel.band_name_labels self !! other).
Proof.
  cbn [IndicesPanel.band_mapping IndicesPanel.band_name_labels].
  unfold IndicesPanel.label_text.
  rewrite lookup_delete_eq, lookup_insert_eq. split; [done|]. split; [done|].
  intros other Hne. by rewrite lookup_delete_ne, lookup_insert_ne.
Qed.

(** X15: the callback of one combobox.  For an image with as many names
    as bands and a band type that has a combobox and a label, the
    callback returns; it maps the band type to the band that the text of
    the combobox selects, as a refresh of the whole mapping would, or
    removes it when the text selects none; the label shows the name of
    that band; the other band types, the texts of the comboboxes and the
    list of offered indices are left as they were. *)
Theorem single_update_agrees_with_refresh (self : IndicesPanel.panel)
    (im : IndicesPanel.imagery) (band_type : string) :
  IndicesPanel.imagery_data self = Some im →
  length (IndicesPanel.band_names im) = length (IndicesPanel.bands im) →
  band_type ∈ dom (IndicesPanel.band_vars self) →
  band_type ∈ dom (IndicesPanel.band_name_labels self) →
  ∃ self',
    IndicesPanel._update_single_band_mapping self band_type = inl self'
    ∧ IndicesPanel.band_mapping self' !! band_type
      = IndicesPanel.band_mapping (IndicesPanel._update_all_band_mappings self)
          !! band_type
    ∧ IndicesPanel.band_name_labels self' !! band_type
      = Some (IndicesPanel.label_text (IndicesPanel.band_names im)
                (IndicesPanel.band_mapping self') band_type)
    ∧ (∀ other, other ≠ band_type →
         IndicesPanel.band_mapping self' !! other
         = IndicesPanel.band_mapping self !! other
         ∧ IndicesPanel.band_name_labels self' !! other
           = IndicesPanel.band_name_labels self !! other)
    ∧ IndicesPanel.band_vars self' = IndicesPanel.band_vars self
    ∧ IndicesPanel.available_indices self' = IndicesPanel.available_indices self
    ∧ IndicesPanel.imagery_data self' = IndicesPanel.imagery_data self.
Proof.
  intros Him Hlen [selected_value Hvar]%elem_of_dom [old Hlabel]%elem_of_dom.
  rewrite (update_all_lookup self im band_type Him), Hvar. cbn [mbind option_bind].
  unfold IndicesPanel._update_single_band_mapping, IndicesPanel.selected_band.
  rewrite Hvar, Him, Hlabel.
  pose proof (clear_band_result self band_type old Hlabel) as Hclear.
  pose proof (single_update_cleared self im band_type) as Hcleared.
  cbn zeta in Hcleared. destruct Hcleared as (Hc1 & Hc2 & Hc3).
  destruct (_ && contains_colon _);
    [|rewrite Hclear; eexists; split; [done|]; by rewrite Hc1].
  destruct (int_of_str _) as [n|e];
    [|rewrite Hclear; eexists; split; [done|]; by rewrite Hc1].
  destruct (Z.leb_spec 0 (n - 1)), (Z.ltb_spec (n - 1) (Z.of_nat (length (IndicesPanel.bands im))));
    cbn [andb];
    try (rewrite Hclear; eexists; split; [done|]; by rewrite Hc1).
  assert (Hname : 0 ≤ n - 1 < Z.of_nat (length (IndicesPanel.band_names im))) by lia.
  rewrite (name_at_lookup _ _ Hname).
  unfold IndicesPanel.set_label. cbn [IndicesPanel.band_name_labels]. rewrite Hlabel.
  eexists. split; [done|].
  cbn [IndicesPanel.band_mapping IndicesPanel.band_name_labels IndicesPanel.band_vars
       IndicesPanel.available_indices IndicesPanel.imagery_data].
  unfold IndicesPanel.label_text. rewrite !lookup_insert_eq.
  split; [done|]. split.
  { destruct (Z.leb_spec 0 (n - 1)),
             (Z.ltb_spec (n - 1) (Z.of_nat (length (IndicesPanel.band_names im))));
      (done || lia). }
  split; [|done]. intros other Hne. by rewrite !lookup_insert_ne.
Qed.

Lemma single_update_agrees_with_refresh_witness :
  ∃ self',
    IndicesPanel._update_single_band_mapping
      (IndicesPanel.Panel
         (Some (IndicesPanel.Imagery [of_rows [[F32.zero]]; of_rows [[F32.zero]]]
                                     ["red: b4"; "nir"]))
         (<["Red" := 1]> ∅) [] (<["Red" := "1: red: b4"]> ∅) (<["Red" := "nir"]> ∅))
      "Red" = inl self'
    ∧ IndicesPanel.band_mapping self' !! "Red" = Some 0
    ∧ IndicesPanel.band_name_labels self' !! "Red" = Some "red: b4".
Proof.
  edestruct (single_update_agrees_with_refresh
               (IndicesPanel.Panel
                  (Some (IndicesPanel.Imagery
                           [of_rows [[F32.zero]]; of_rows [[F32.zero]]]
                           ["red: b4"; "nir"]))
                  (<["Red" := 1]> ∅) [] (<["Red" := "1: red: b4"]> ∅)
                  (<["Red" := "nir"]> ∅))
               _ "Red" eq_refl eq_refl)
    as (self' & Hrun & Hmapping & Hlabel & _).
  - apply elem_of_dom. eexists. vm_compute. reflexivity.
  - apply elem_of_dom. eexists. vm_compute. reflexivity.
  - exists self'. split; [exact Hrun|].
    assert (Hentry : IndicesPanel.band_mapping self' !! "Red" = Some 0)
      by (rewrite Hmapping; vm_compute; reflexivity).
    split; [exact Hentry|].
    rewrite Hlabel. unfold IndicesPanel.label_text. rewrite Hentry. reflexivity.
Defined.

(* ===================================================================== *)
(** * The names of the bands of a loaded image                            *)
(* ===================================================================== *)

Lemma names_of_descriptions_lookup descriptions : ∀ k i,
  names_of_descriptions k descriptions !! i
  = (λ desc, default (generic_name (k + Z.of_nat i + 1)) desc) <$> descriptions !! i.
Proof.
  induction descriptions as [|desc rest IH]; intros k i; [done|].
  cbn [names_of_descriptions]. destruct i as [|i].
  - cbn [lookup list_lookup fmap option_fmap option_map]. rewrite Z.add_0_r.
    by destruct desc.
  - rewrite !lookup_cons. rewrite IH.
    by replace (k + 1 + Z.of_nat i + 1) with (k + Z.of_nat (S i) + 1) by lia.
Qed.

Lemma names_of_tags_lookup tags todo : ∀ k i,
  (i < todo)%nat →
  names_of_tags tags k todo !! i
  = Some (default (generic_name (k + Z.of_nat i)) (name_tag (tags (k + Z.of_nat i)))).
Proof.
  induction todo as [|todo IH]; intros k i Hi; [lia|].
  cbn [names_of_tags]. destruct i as [|i].
  - cbn [lookup list_lookup]. rewrite Z.add_0_r. by destruct (name_tag _).
  - rewrite lookup_cons, IH by lia.
    by replace (k + 1 + Z.of_nat i) with (k + Z.of_nat (S i)) by lia.
Qed.

Lemma names_of_descriptions_length descriptions : ∀ k,
  length (names_of_descriptions k descriptions) = length descriptions.
Proof.
  induction descriptions as [|desc rest IH]; intros k; [done|].
  cbn [names_of_descriptions length]. by rewrite IH.
Qed.

Lemma names_of_tags_length tags todo : ∀ k,
  length (names_of_tags tags k todo) = todo.
Proof.
  induction todo as [|todo IH]; intros k; [done|].
  cbn [names_of_tags length]. by rewrite IH.
Qed.

(** X16: every band of a loaded image gets one name.  The list of names
    has as many entries as the image has bands.  The band at position
    [i] (from 0) is called by its description when the file describes
    every band, otherwise by the first of its tags DESCRIPTION, Name,
    BandName, LAYER_TYPE; a band without either is called "Band i+1". *)
Theorem every_band_gets_a_name (descriptions : list (option string)) (count : nat)
    (tags : Z → gmap string string) :
  length (load_band_names descriptions count tags) = count
  ∧ ∀ i : nat, (i < count)%nat →
      load_band_names descriptions count tags !! i
      = Some (default (generic_name (Z.of_nat i + 1))
                (if decide (descriptions ≠ [] ∧ length descriptions = count)
                 then mjoin (descriptions !! i)
                 else name_tag (tags (Z.of_nat i + 1)))).
Proof.
  unfold load_band_names.
  destruct (decide _) as [[Hne Hlen]|Hnot].
  - destruct descriptions as [|d ds]; [done|]. clear Hne.
    rewrite <- Hlen, Nat.eqb_refl. cbn [length Nat.eqb negb andb].
    split; [apply names_of_descriptions_length|].
    intros i Hi. rewrite names_of_descriptions_lookup.
    destruct (lookup_lt_is_Some_2 (d :: ds) i Hi) as [desc Hdesc].
    rewrite Hdesc. cbn [fmap option_fmap option_map mjoin option_join].
    by rewrite Z.add_0_l.
  - assert (negb (length descriptions =? 0)%nat && (length descriptions =? count)%nat
            = false) as ->.
    { destruct (Nat.eqb_spec (length descriptions) count) as [Hlen|Hlen];
        [|apply andb_false_r].
      destruct descriptions as [|d ds]; [done|]. exfalso. apply Hnot. by split. }
    split; [apply names_of_tags_length|].
    intros i Hi. rewrite names_of_tags_lookup by done.
    by replace (1 + Z.of_nat i) with (Z.of_nat i + 1) by lia.
Qed.

(* ===================================================================== *)
(** * Saving and loading a mapping                                        *)
(* ===================================================================== *)

(** X17: a saved mapping loads back.  For an image with as many names as
    bands, the file that [save_band_mapping] writes holds the refreshed
    mapping of the panel, and [load_band_mapping] on that file, with the
    same image, sets that mapping again and offers the indices of it. *)
Theorem saved_mapping_loads_back (self : IndicesPanel.panel)
    (im : IndicesPanel.imagery) :
  IndicesPanel.imagery_data self = Some im →
  length (IndicesPanel.band_names im) = length (IndicesPanel.bands im) →
  IndicesPanel.band_mapping self ≠ ∅ →
  ∃ saved file,
    IndicesPanel.save_band_mapping self = (saved, Some file)
    ∧ IndicesPanel.band_mapping (IndicesPanel.load_band_mapping saved file)
      = IndicesPanel.band_mapping saved
    ∧ IndicesPanel.available_indices (IndicesPanel.load_band_mapping saved file)
      = get_available_indices (Some (IndicesPanel.band_mapping saved)).
Proof.
  intros Him Hlen Hne. unfold IndicesPanel.save_band_mapping.
  rewrite decide_False by done.
  set (saved := IndicesPanel._update_all_band_mappings self).
  exists saved, (IndicesPanel.JInt <$> IndicesPanel.band_mapping saved).
  split; [done|].
  destruct (update_all_keeps self) as [Him1 Hvars1]. fold saved in Him1, Hvars1.
  rewrite Him in Him1.
  destruct (load_band_mapping_fields saved im
              (IndicesPanel.JInt <$> IndicesPanel.band_mapping saved) Him1)
    as (Hmapping & Havail & _).
  assert (Heq : IndicesPanel.band_mapping
                  (IndicesPanel.load_band_mapping saved
                     (IndicesPanel.JInt <$> IndicesPanel.band_mapping saved))
                = IndicesPanel.band_mapping saved); [|by rewrite Havail, Heq].
  apply map_eq. intros band_type. apply option_eq. intros idx.
  rewrite Hmapping, lookup_fmap, Hvars1. split.
  - intros (_ & [Hint|(b & Hbool & _)] & _).
    + destruct (IndicesPanel.band_mapping saved !! band_type); [|done].
      by injection Hint as ->.
    + by destruct (IndicesPanel.band_mapping saved !! band_type).
  - intros Hidx.
    pose proof (update_all_in_bounds self im Him band_type idx Hidx) as Hrange.
    split; [|split; [left; by rewrite Hidx|lia]].
    unfold saved in Hidx. rewrite (update_all_lookup self im band_type Him) in Hidx.
    apply elem_of_dom. by destruct (IndicesPanel.band_vars self !! band_type).
Qed.

Lemma saved_mapping_loads_back_witness :
  ∃ saved file,
    IndicesPanel.save_band_mapping
      (IndicesPanel.Panel
         (Some (IndicesPanel.Imagery [of_rows [[F32.zero]]; of_rows [[F32.zero]]]
                                     ["Red"; "NIR"]))
         (<["Red" := 0]> ∅) [] (<["Red" := "1: Red"]> (<["NIR" := "2: NIR"]> ∅)) ∅)
    = (saved, Some file)
    ∧ IndicesPanel.band_mapping (IndicesPanel.load_band_mapping saved file)
      = IndicesPanel.band_mapping saved.
Proof.
  edestruct (saved_mapping_loads_back
               (IndicesPanel.Panel
                  (Some (IndicesPanel.Imagery
                           [of_rows [[F32.zero]]; of_rows [[F32.zero]]]
                           ["Red"; "NIR"]))
                  (<["Red" := 0]> ∅) []
                  (<["Red" := "1: Red"]> (<["NIR" := "2: NIR"]> ∅)) ∅)
               _ eq_refl eq_refl)
    as (saved & file & Hsave & Hload & _).
  - cbn [IndicesPanel.band_mapping]. apply insert_non_empty.
  - exists saved, file. split; [exact Hsave|exact Hload].
Defined.

(* ===================================================================== *)
(** * The labels of the panel                                             *)
(* ===================================================================== *)

Lemma update_labels_lookup self im band_type :
  IndicesPanel.imagery_data self = Some im →
  IndicesPanel.band_name_labels (IndicesPanel._update_all_name_labels self) !! band_type
  = IndicesPanel.band_name_labels self !! band_type
    ≫= λ _, Some (IndicesPanel.label_text (IndicesPanel.band_names im)
                    (IndicesPanel.band_mapping self) band_type).
Proof.
  intros Him. unfold IndicesPanel._update_all_name_labels. rewrite Him.
  cbn [IndicesPanel.band_name_labels]. by rewrite map_lookup_imap.
Qed.

Lemma label_text_in_bounds names (m : gmap string Z) band_type :
  in_bounds (Z.of_nat (length names)) m →
  IndicesPanel.label_text names m band_type
  = match m !! band_type with
    | Some idx => name_at names idx
    | None => ""
    end.
Proof.
  intros Hrange. unfold IndicesPanel.label_text.
  destruct (m !! band_type) as [idx|] eqn:Hidx; [|done].
  destruct (Hrange _ _ Hidx).
  destruct (Z.leb_spec 0 idx), (Z.ltb_spec idx (Z.of_nat (length names)));
    (done || lia).
Qed.

Lemma update_list_labels self :
  IndicesPanel.band_name_labels (IndicesPanel._update_indices_list self)
  = IndicesPanel.band_name_labels self.
Proof.
  unfold IndicesPanel._update_indices_list, IndicesPanel._update_all_band_mappings.
  by destruct (IndicesPanel.imagery_data self).
Qed.

(** X18: the labels follow the mapping.  For an image with as many names
    as bands, after [update_with_imagery] and after [load_band_mapping]
    the label of every band type shows the name of the band to which the
    band type is now mapped, and is empty for a band type that is not
    mapped. *)
Theorem labels_follow_the_mapping (self : IndicesPanel.panel)
    (im : IndicesPanel.imagery)
    (loaded_mapping : gmap string IndicesPanel.json_value) :
  length (IndicesPanel.band_names im) = length (IndicesPanel.bands im) →
  (IndicesPanel.bands im ≠ [] →
   labels_show_mapping (IndicesPanel.update_with_imagery self (Some im))
                       (IndicesPanel.band_names im))
  ∧ (IndicesPanel.imagery_data self = Some im →
     labels_show_mapping (IndicesPanel.load_band_mapping self loaded_mapping)
                         (IndicesPanel.band_names im)).
Proof.
  intros Hlen.
  assert (Hrefresh : ∀ start : IndicesPanel.panel,
    IndicesPanel.imagery_data start = Some im →
    IndicesPanel.band_mapping start
    = IndicesPanel.band_mapping (IndicesPanel._update_all_band_mappings start) →
    labels_show_mapping
      (IndicesPanel._update_indices_list (IndicesPanel._update_all_name_labels start))
      (IndicesPanel.band_names im)).
  { intros start Him Hfixed band_type.
    destruct (update_labels_keeps start) as (Him1 & Hvars1 & Hmap1).
    destruct (update_list_fields (IndicesPanel._update_all_name_labels start))
      as (_ & _ & Hmap & _).
    assert (Hsame : IndicesPanel.band_mapping
                      (IndicesPanel._update_indices_list
                         (IndicesPanel._update_all_name_labels start))
                    = IndicesPanel.band_mapping start).
    { rewrite Hmap, Hfixed. apply map_eq. intros bt.
      rewrite (update_all_lookup _ im) by (by rewrite Him1).
      rewrite (update_all_lookup _ im) by done. by rewrite Hvars1. }
    rewrite update_list_labels, Hsame, elem_of_dom.
    rewrite (update_labels_lookup start im) by done.
    intros [shown Hshown].
    destruct (IndicesPanel.band_name_labels start !! band_type) as [old|];
      [|done].
    cbn [mbind option_bind].
    rewrite label_text_in_bounds; [done|].
    rewrite Hfixed, Hlen. by apply update_all_in_bounds. }
  split.
  - intros Hbands. unfold IndicesPanel.update_with_imagery.
    destruct (IndicesPanel.bands im) as [|b0 bs] eqn:Hb; [done|].
    apply Hrefresh.
    + by destruct (update_all_keeps
                     (IndicesPanel.Panel (Some im) (IndicesPanel.band_mapping self)
                        (IndicesPanel.available_indices self)
                        (list_to_map
                           ((λ band_type,
                               (band_type,
                                IndicesPanel.initial_value
                                  (guess_band_types (IndicesPanel.band_names im))
                                  (IndicesPanel.band_names im) band_type))
                            <$> IndicesPanel.standard_bands))
                        (list_to_map ((λ band_type, (band_type, ""))
                                      <$> IndicesPanel.standard_bands))))
        as [-> _].
    + by rewrite update_all_twice.
  - intros Him. unfold IndicesPanel.load_band_mapping. rewrite Him.
    apply Hrefresh; [done|].
    apply map_eq. intros band_type.
    rewrite (update_all_lookup _ im) by done.
    cbn [IndicesPanel.band_mapping IndicesPanel.band_vars]. rewrite !map_lookup_imap.
    destruct (IndicesPanel.band_vars self !! band_type) as [old|]; [|done].
    cbn [mbind option_bind].
    destruct (loaded_mapping !! band_type ≫= _) as [idx|] eqn:Hacc;
      [|by rewrite selected_band_empty].
    rewrite selected_band_numbered.
    destruct (loaded_mapping !! band_type) as [value|]; [|done].
    cbn [mbind option_bind] in Hacc.
    apply valid_loaded_index_Some in Hacc as [_ Hrange].
    rewrite decide_True; [done|lia].
Qed.

Lemma labels_follow_the_mapping_witness :
  labels_show_mapping
    (IndicesPanel.update_with_imagery
       (IndicesPanel.Panel None ∅ [] ∅ ∅)
       (Some (IndicesPanel.Imagery [of_rows [[F32.zero]]; of_rows [[F32.zero]]]
                                   ["B4"; "B8"])))
    ["B4"; "B8"].
Proof.
  apply (proj1 (labels_follow_the_mapping
                  (IndicesPanel.Panel None ∅ [] ∅ ∅)
                  (IndicesPanel.Imagery [of_rows [[F32.zero]]; of_rows [[F32.zero]]]
                                        ["B4"; "B8"])
                  ∅ eq_refl)).
  intros Hempty. discriminate Hempty.
Defined.
